(** * My_library: the profile generator of [scripts/generate_mypage.py]

    A shallow embedding of [MypageGenerator]: the book classifier, the
    reading-pattern aggregator, the profile builder, the registry store and
    the network edge inference, followed by the properties of each. *)

From Stdlib Require Import ZArith NArith List String Ascii Floats Uint63 Sorted Lia.
From stdpp Require Import gmap list.
Import ListNotations.

(** ** Python strings

    A Python [str] is a sequence of Unicode code points. String constants
    of the source are written as literals and decoded from the UTF-8 bytes
    of this file. *)

Abbreviation str := (list N) (only parsing).

Definition bytes_of (s : string) : list N :=
  map N_of_ascii (list_ascii_of_string s).

Fixpoint utf8_decode (bs : list N) : str :=
  match bs with
  | [] => []
  | b0 :: r0 =>
    if (b0 <? 128)%N then b0 :: utf8_decode r0
    else if (b0 <? 224)%N then
      match r0 with
      | b1 :: r1 => ((b0 - 192) * 64 + (b1 - 128))%N :: utf8_decode r1
      | _ => []
      end
    else if (b0 <? 240)%N then
      match r0 with
      | b1 :: b2 :: r2 =>
        ((b0 - 224) * 4096 + (b1 - 128) * 64 + (b2 - 128))%N :: utf8_decode r2
      | _ => []
      end
    else
      match r0 with
      | b1 :: b2 :: b3 :: r3 =>
        ((b0 - 240) * 262144 + (b1 - 128) * 4096 + (b2 - 128) * 64 + (b3 - 128))%N
          :: utf8_decode r3
      | _ => []
      end
  end.

Definition py (s : string) : str := utf8_decode (bytes_of s).

(** [str.isspace] on one code point (CPython's [Py_UNICODE_ISSPACE]); the
    same predicate is the class [\s] of [re] on [str] patterns. *)
Definition isspace (c : N) : bool :=
  ((9 <=? c) && (c <=? 13) || (28 <=? c) && (c <=? 32)
   || (c =? 133) || (c =? 160) || (c =? 5760)
   || (8192 <=? c) && (c <=? 8202)
   || (c =? 8232) || (c =? 8233) || (c =? 8239) || (c =? 8287)
   || (c =? 12288))%N.

Fixpoint lstrip (s : str) : str :=
  match s with
  | [] => []
  | c :: s' => if isspace c then lstrip s' else s
  end.

Definition rstrip (s : str) : str := rev (lstrip (rev s)).

(** [s.strip()] *)
Definition strip (s : str) : str := rstrip (lstrip s).

Fixpoint is_prefix (p s : str) : bool :=
  match p, s with
  | [], _ => true
  | _ :: _, [] => false
  | a :: p', b :: s' => (a =? b)%N && is_prefix p' s'
  end.

(** [needle in hay] on strings *)
Fixpoint contains (needle hay : str) : bool :=
  is_prefix needle hay ||
  match hay with
  | [] => false
  | _ :: hay' => contains needle hay'
  end.

(** [s.split(sep)] for a non-empty [sep]: the occurrences of [sep] are
    taken left to right without overlap. [skip] counts the characters of
    the occurrence being consumed and [cur] is the current segment,
    reversed. *)
Fixpoint split_go (sep : str) (skip : nat) (cur : str) (s : str) : list str :=
  match s with
  | [] => [rev cur]
  | c :: s' =>
    match skip with
    | S k => split_go sep k cur s'
    | O =>
      if is_prefix sep s then rev cur :: split_go sep (length sep - 1) [] s'
      else split_go sep 0 (c :: cur) s'
    end
  end.

Definition split (sep s : str) : list str := split_go sep 0 [] s.

(** [', '.join(xs)] and friends *)
Fixpoint join (sep : str) (xs : list str) : str :=
  match xs with
  | [] => []
  | [x] => x
  | x :: rest => x ++ sep ++ join sep rest
  end.

(** [str(n)] for an integer *)
Definition digit_char (d : N) : N := (48 + d)%N.

Fixpoint digits_of_pos (fuel : nat) (n : N) (acc : str) : str :=
  match fuel with
  | O => acc
  | S f =>
    let acc' := digit_char (n mod 10) :: acc in
    if (n / 10 =? 0)%N then acc' else digits_of_pos f (n / 10) acc'
  end.

Definition str_of_Z (z : Z) : str :=
  let n := Z.abs_N z in
  let ds := digits_of_pos (S (N.to_nat (N.log2 n))) n [] in
  if (z <? 0)%Z then 45%N :: ds else ds.

(** ** The book classifier *)

(** The regular expression [\s*;.*$] of [extract_book_info], matched at the
    head of [s]: a run of whitespace, a semicolon, then characters other
    than a newline up to the end of the string, or up to a newline that is
    the last character. The result is what remains after the match. *)
Fixpoint match_dot_star_eol (s : str) : option str :=
  match s with
  | [] => Some []
  | c :: s' =>
    if (c =? 10)%N then
      match s' with
      | [] => Some [10%N]
      | _ :: _ => None
      end
    else match_dot_star_eol s'
  end.

Definition match_annotation (s : str) : option str :=
  match lstrip s with
  | c :: rest => if (c =? 59)%N then match_dot_star_eol rest else None
  | [] => None
  end.

(** [re.sub(r'\s*;.*$', '', s)]: the leftmost match is removed; it runs to
    the end of the string (or to its final newline), so no second match
    follows. *)
Fixpoint re_sub_annotation (s : str) : str :=
  match match_annotation s with
  | Some rest => rest
  | None =>
    match s with
    | [] => []
    | c :: s' => c :: re_sub_annotation s'
    end
  end.

Definition separator : str := py " / ".
Definition unknown_author : str := py "不明".

Definition extract_book_info (title_author : str) : str * str :=
  let parts := split separator title_author in
  let title := strip (nth 0 parts []) in
  let author :=
    if (1 <? length parts)%nat then strip (nth 1 parts []) else unknown_author in
  let title := re_sub_annotation title in
  (title, author).

(** The keyword table built by [__init__]; a [dict] iterates in insertion
    order. *)
Definition default_category_keywords : list (str * list str) :=
  [ (py "control-theory",
      [py "制御"; py "ロバスト"; py "最適制御"; py "非線形"; py "システム制御"]);
    (py "system-identification",
      [py "システム同定"; py "同定"; py "部分空間"; py "パラメータ推定"]);
    (py "data-assimilation",
      [py "データ同化"; py "同化"; py "観測"; py "カルマン"]);
    (py "meteorology", [py "気象"; py "大気"; py "気候"; py "天気"]);
    (py "numerical-weather",
      [py "数値予報"; py "予報"; py "数値"; py "気象予測"]);
    (py "fluid-dynamics", [py "流体"; py "動力学"; py "非線形動力"]);
    (py "mathematics",
      [py "数学"; py "統計"; py "代数"; py "幾何"; py "確率"; py "統計力学"]);
    (py "data-analysis",
      [py "データ解析"; py "データマイニング"; py "位相的"; py "構造発見"]);
    (py "machine-learning",
      [py "機械学習"; py "深層学習"; py "AI"; py "ニューラル"]);
    (py "programming", [py "プログラミング"; py "Python"; py "アルゴリズム"]) ].

Definition other_category : str := py "other".

Section Classifier.
(** [str.lower], the Unicode lower-casing of the Python runtime. *)
Variable lower : str -> str.

(** The inner loop of [categorize_book]: does some keyword of the list
    occur in [text]? *)
Fixpoint any_keyword (text : str) (keywords : list str) : bool :=
  match keywords with
  | [] => false
  | keyword :: rest =>
    if contains (lower keyword) text then true else any_keyword text rest
  end.

(** The outer loop: the first category, in table order, one of whose
    keywords occurs in [text]. *)
Fixpoint scan_categories (text : str) (table : list (str * list str)) : option str :=
  match table with
  | [] => None
  | (category, keywords) :: rest =>
    if any_keyword text keywords then Some category
    else scan_categories text rest
  end.

Definition categorize_book (category_keywords : list (str * list str))
    (title author : str) : str :=
  let text := lower (title ++ py " " ++ author) in
  match scan_categories text category_keywords with
  | Some category => category
  | None => other_category
  end.
End Classifier.

(** ** The parsed checkout table

    A row of the data frame after [parse_tsv_file] and [pd.to_datetime]:
    the seven columns, the two dates as timestamps. The first two columns
    are numeric identifiers; [title_author] is a string, as the signature
    of [extract_book_info] requires. *)

Record Timestamp := { dt_year : Z; dt_month : Z }.

Record CheckoutRecord := {
  row_id : Z;
  book_id : Z;
  checkout_date : Timestamp;
  return_date : Timestamp;
  location : str;
  classification : str;
  title_author : str
}.

Abbreviation DataFrame := (list CheckoutRecord) (only parsing).

(** [df.drop_duplicates(subset=['book_id'])]: a row is kept unless a row
    with its [book_id] came earlier ([keep='first'] is the default). *)
Fixpoint drop_duplicates_from (seen : list Z) (df : DataFrame) : DataFrame :=
  match df with
  | [] => []
  | row :: rest =>
    if bool_decide (book_id row ∈ seen) then drop_duplicates_from seen rest
    else row :: drop_duplicates_from (book_id row :: seen) rest
  end.

Definition drop_duplicates (df : DataFrame) : DataFrame :=
  drop_duplicates_from [] df.

Definition in_year (y : Z) (row : CheckoutRecord) : bool :=
  (dt_year (checkout_date row) =? y)%Z.

(** [df[df['year'] == current_year].groupby('month').size().to_dict()]:
    the months that occur, in increasing order, with their row counts. *)
Definition monthly_counts (df : DataFrame) : list (Z * nat) :=
  let count m :=
    length (List.filter (fun row => (dt_month (checkout_date row) =? m)%Z) df) in
  List.filter (fun mc => (0 <? snd mc)%nat)
    (map (fun m => (m, count m)) [1; 2; 3; 4; 5; 6; 7; 8; 9; 10; 11; 12]%Z).

Record Analysis := {
  total_books : nat;
  this_year_books : nat;
  monthly_stats : list (Z * nat);
  unique_books : list CheckoutRecord
}.

(** [analyze_reading_patterns]; [current_year] is [datetime.now().year]
    and [None] stands for the empty dictionary returned on an empty
    frame. *)
Definition analyze_reading_patterns (current_year : Z) (df : DataFrame)
    : option Analysis :=
  match df with
  | [] => None
  | _ :: _ =>
    let this_year_count := length (List.filter (in_year current_year) df) in
    let monthly := monthly_counts (List.filter (in_year current_year) df) in
    let unique := drop_duplicates df in
    Some {| total_books := length unique;
            this_year_books := this_year_count;
            monthly_stats := monthly;
            unique_books := unique |}
  end.

(** ** Counters

    A [collections.Counter] is a [dict]: its items come in the order in
    which the keys were first counted. *)

Abbreviation Counter := (list (str * nat)) (only parsing).

Fixpoint counter_incr (key : str) (c : Counter) : Counter :=
  match c with
  | [] => [(key, 1)]
  | (k, n) :: rest =>
    if bool_decide (k = key) then (k, S n) :: rest
    else (k, n) :: counter_incr key rest
  end.

(** [sorted(items, key=itemgetter(1), reverse=True)]: a stable sort, so
    items with equal counts keep their order. *)
Fixpoint insert_desc (x : str * nat) (sorted : Counter) : Counter :=
  match sorted with
  | [] => [x]
  | y :: rest =>
    if (snd y <=? snd x)%nat then x :: y :: rest
    else y :: insert_desc x rest
  end.

Fixpoint sorted_desc (c : Counter) : Counter :=
  match c with
  | [] => []
  | x :: rest => insert_desc x (sorted_desc rest)
  end.

(** [Counter.most_common(n)], which is
    [heapq.nlargest(n, items, key=itemgetter(1))], documented as the first
    [n] items of the stable descending sort. *)
Definition most_common (n : nat) (c : Counter) : Counter :=
  take n (sorted_desc c).

(** ** Book entries and the object store

    A book entry is a [dict], a mutable object: [reading_history] holds
    references to the entries, and so does [currentReading]. The store
    maps a reference to the present contents of the object. *)

Record BookEntry := {
  title : str;
  author : str;
  category : str;
  year : str;
  rating : Z;
  cover : str;
  progress : option float
}.

Abbreviation ref := nat (only parsing).
Abbreviation Store := (list BookEntry) (only parsing).

Definition alloc (h : Store) (e : BookEntry) : ref * Store :=
  (length h, h ++ [e]).

Definition set_progress (v : float) (e : BookEntry) : BookEntry :=
  {| title := title e; author := author e; category := category e;
     year := year e; rating := rating e; cover := cover e;
     progress := Some v |}.

(** [h[r]['progress'] = v] *)
Definition store_progress (r : ref) (v : float) (h : Store) : Store :=
  match h !! r with
  | Some e => <[r := set_progress v e]> h
  | None => h
  end.

(** What a list of references denotes in a store. *)
Definition deref (h : Store) (rs : list ref) : list BookEntry :=
  omap (fun r => h !! r) rs.

(** ** Profiles and the registry *)

Record Stats := {
  totalBooks : nat;
  thisYearBooks : nat;
  publications : nat;
  presentations : nat;
  datasets : nat;
  coderepos : nat;
  awards : nat
}.

Record UserProfile := {
  id : str;
  name : str;
  nameJa : str;
  position : str;
  avatar : str;
  email : str;
  specializations : list str;
  stats : Stats;
  currentReading : option ref;
  readingHistory : list ref;
  networkConnections : list str
}.

Record CategoryInfo := { cat_name : str; cat_color : str }.

Record Node := {
  node_id : str;
  node_label : str;
  node_name : str;
  node_avatar : str;
  node_group : str;
  node_field : str
}.

Record Edge := {
  edge_from : str;
  edge_to : str;
  edge_label : str;
  edge_strength : nat
}.

Record Network := { nodes : list Node; edges : list Edge }.

(** [users_data]: the [network] section may be absent. *)
Record Registry := {
  users : list UserProfile;
  categories : gmap str CategoryInfo;
  network : option Network
}.

Record MypageGenerator := {
  users_data : Registry;
  category_keywords : list (str * list str)
}.

Definition generate_cover_url (title author : str) : str :=
  py "https://via.placeholder.com/240x360/f0f0f0/666?text=Book+Cover".

(** The constant [0.7], that is the binary64 value nearest to it. *)
Definition default_progress : float := 0x1.6666666666666p-1%float.

(** ** The profile builder *)

Section ProfileBuilder.
Variable lower : str -> str.

(** One iteration of the loop over [unique_books.iterrows()]. The state is
    the store, [reading_history] and [category_counts]. *)
Definition add_book_entry (keywords : list (str * list str))
    (st : Store * list ref * Counter) (row : CheckoutRecord)
    : Store * list ref * Counter :=
  let '(h, reading_history, category_counts) := st in
  let '(title, author) := extract_book_info (title_author row) in
  let category := categorize_book lower keywords title author in
  let year := str_of_Z (dt_year (checkout_date row)) in
  let book_entry :=
    {| title := title; author := author; category := category; year := year;
       rating := 4; cover := generate_cover_url title author;
       progress := None |} in
  let '(r, h') := alloc h book_entry in
  (h', reading_history ++ [r], counter_incr category category_counts).

(** The names of the top categories that the category table knows. *)
Fixpoint names_of (cats : gmap str CategoryInfo) (top_categories : list str)
    : list str :=
  match top_categories with
  | [] => []
  | cat :: rest =>
    match cats !! cat with
    | Some info => cat_name info :: names_of cats rest
    | None => names_of cats rest
    end
  end.

(** [create_user_profile]. The store [h] holds the objects that exist
    before the call; the result is the profile, or [None], and the store
    after the call. *)
Definition create_user_profile (current_year : Z) (self : MypageGenerator)
    (user_id name position avatar : str) (df : DataFrame) (h : Store)
    : option UserProfile * Store :=
  match analyze_reading_patterns current_year df with
  | None => (None, h)
  | Some analysis =>
    let '(h1, reading_history, category_counts) :=
      fold_left (add_book_entry (category_keywords self))
                (unique_books analysis) (h, [], []) in
    let top_categories := map fst (most_common 4 category_counts) in
    let specializations :=
      names_of (categories (users_data self)) top_categories in
    let current_reading := head reading_history in
    let h2 :=
      match current_reading with
      | Some r => store_progress r default_progress h1
      | None => h1
      end in
    (Some {| id := user_id;
             name := name;
             nameJa := name;
             position := position;
             avatar := avatar;
             email := user_id ++ py "@example.com";
             specializations := specializations;
             stats :=
               {| totalBooks := total_books analysis;
                  thisYearBooks := this_year_books analysis;
                  publications := 0;
                  presentations := if (10 <? total_books analysis)%nat then 1 else 0;
                  datasets := 0;
                  coderepos := if (5 <? total_books analysis)%nat then 1 else 0;
                  awards := 0 |};
             currentReading := current_reading;
             readingHistory := reading_history;
             networkConnections := [] |}, h2)
  end.
End ProfileBuilder.

(** ** The category percentages of the page

    [round((count / total_books) * 100)] is computed on binary64 floats:
    the true division of two integers below 2^53 is the IEEE division of
    their conversions, and [round] takes the nearest integer, a tie going
    to the even one. *)

Definition float_of_nat (n : nat) : float :=
  PrimFloat.of_uint63 (Uint63.of_Z (Z.of_nat n)).

Definition round_half_even (m : positive) (e : Z) : Z :=
  if (0 <=? e)%Z then (Z.pos m * 2 ^ e)%Z
  else
    let d := (2 ^ (- e))%Z in
    let q := (Z.pos m / d)%Z in
    let r := (Z.pos m mod d)%Z in
    match (2 * r ?= d)%Z with
    | Lt => q
    | Gt => (q + 1)%Z
    | Eq => if Z.even q then q else (q + 1)%Z
    end.

(** [round(x)]; [None] where Python raises (infinities and NaN). *)
Definition py_round (x : float) : option Z :=
  match Prim2SF x with
  | S754_zero _ => Some 0%Z
  | S754_finite s m e =>
    let v := round_half_even m e in
    Some (if s then (- v)%Z else v)
  | S754_infinity _ => None
  | S754_nan => None
  end.

(** [round((count / total) * 100)]; [None] where Python raises
    ([ZeroDivisionError] for an empty history). *)
Definition percentage (count total : nat) : option Z :=
  match total with
  | O => None
  | S _ =>
    py_round (PrimFloat.mul (PrimFloat.div (float_of_nat count) (float_of_nat total))
                            (float_of_nat 100))
  end.

Definition category_stats (history : list BookEntry) : Counter :=
  fold_left (fun c book => counter_incr (category book) c) history [].

Fixpoint percentages_of (total : nat) (items : Counter) : option (list (str * Z)) :=
  match items with
  | [] => Some []
  | (cat, count) :: rest =>
    match percentage count total with
    | None => None
    | Some p =>
      match percentages_of total rest with
      | None => None
      | Some ps => Some ((cat, p) :: ps)
      end
    end
  end.

(** The dictionary [category_percentages] of [generate_mypage_html]. *)
Definition category_percentages (history : list BookEntry) : option (list (str * Z)) :=
  percentages_of (length history) (category_stats history).

Record LegendItem := {
  legend_color : str;
  legend_name : str;
  legend_start : Z;
  legend_percentage : Z
}.

(** The loop that fills [donut_colors] and [legend_items]: the categories
    the table knows, at most four of them. *)
Fixpoint legend_loop (cats : gmap str CategoryInfo) (items : list (str * Z))
    (shown : list LegendItem) (total_percent : Z) : list LegendItem :=
  match items with
  | [] => shown
  | (cat, percentage) :: rest =>
    match cats !! cat with
    | Some cat_info =>
      let shown' :=
        shown ++ [{| legend_color := cat_color cat_info;
                     legend_name := cat_name cat_info;
                     legend_start := total_percent;
                     legend_percentage := percentage |}] in
      if (4 <=? length shown')%nat then shown'
      else legend_loop cats rest shown' (total_percent + percentage)%Z
    | None => legend_loop cats rest shown total_percent
    end
  end.

Definition legend_items (cats : gmap str CategoryInfo) (percentages : list (str * Z))
    : list LegendItem :=
  legend_loop cats percentages [] 0%Z.

(** ** The registry store and the edge inference *)

(** The loop with [break] of [add_user_to_database]: the first user with
    the id of the profile is replaced. *)
Fixpoint replace_user (user_profile : UserProfile) (us : list UserProfile)
    : list UserProfile :=
  match us with
  | [] => []
  | user :: rest =>
    if bool_decide (id user = id user_profile) then user_profile :: rest
    else user :: replace_user user_profile rest
  end.

Fixpoint replace_node (new_node : Node) (ns : list Node) : list Node :=
  match ns with
  | [] => []
  | node :: rest =>
    if bool_decide (node_id node = node_id new_node) then new_node :: rest
    else node :: replace_node new_node rest
  end.

Definition empty_network : Network := {| nodes := []; edges := [] |}.

Section NetworkInference.
(** The order in which Python iterates over a set of strings, which the
    language leaves open; only the label of an edge depends on it. *)
Variable set_iter : gset str -> list str.

Definition common_fields (user_profile other_user : UserProfile) : gset str :=
  list_to_set (specializations user_profile)
    ∩ list_to_set (specializations other_user).

Definition new_edge (user_profile other_user : UserProfile) : Edge :=
  let common := common_fields user_profile other_user in
  {| edge_from := id user_profile;
     edge_to := id other_user;
     edge_label := py "共通分野: " ++ join (py ", ") (take 2 (set_iter common));
     edge_strength := size common |}.

(** One iteration of the loop of [create_user_connections];
    [existing_edges] is the list of pairs taken before the loop. *)
Definition connect_step (user_profile : UserProfile)
    (existing_edges : list (str * str)) (es : list Edge)
    (other_user : UserProfile) : list Edge :=
  if bool_decide (id other_user = id user_profile) then es
  else if bool_decide (common_fields user_profile other_user = ∅) then es
  else
    let edge_tuple := (id user_profile, id other_user) in
    let reverse_edge_tuple := (id other_user, id user_profile) in
    if bool_decide (edge_tuple ∉ existing_edges)
       && bool_decide (reverse_edge_tuple ∉ existing_edges)
    then es ++ [new_edge user_profile other_user]
    else es.

(** [create_user_connections], on the parts of [users_data] it reads and
    writes: the users and the network, which [update_network_data] has
    made sure exists. *)
Definition create_user_connections (us : list UserProfile) (net : Network)
    (user_profile : UserProfile) : Network :=
  let existing_edges := map (fun e => (edge_from e, edge_to e)) (edges net) in
  {| nodes := nodes net;
     edges := fold_left (connect_step user_profile existing_edges) us (edges net) |}.

Definition update_network_data (d : Registry) (user_profile : UserProfile)
    : Registry :=
  let net := default empty_network (network d) in
  let existing_node_ids := map node_id (nodes net) in
  let new_node :=
    {| node_id := id user_profile;
       node_label := name user_profile;
       node_name := name user_profile;
       node_avatar := avatar user_profile;
       node_group := py "student";
       node_field :=
         match specializations user_profile with
         | [] => py "その他"
         | _ :: _ => join (py ", ") (take 2 (specializations user_profile))
         end |} in
  let nodes' :=
    if bool_decide (id user_profile ∈ existing_node_ids)
    then replace_node new_node (nodes net)
    else nodes net ++ [new_node] in
  let net' := {| nodes := nodes'; edges := edges net |} in
  {| users := users d;
     categories := categories d;
     network := Some (create_user_connections (users d) net' user_profile) |}.

Definition add_user_to_database (d : Registry) (user_profile : UserProfile)
    : Registry :=
  let existing_users := map id (users d) in
  let users' :=
    if bool_decide (id user_profile ∈ existing_users)
    then replace_user user_profile (users d)
    else users d ++ [user_profile] in
  update_network_data
    {| users := users'; categories := categories d; network := network d |}
    user_profile.
End NetworkInference.

(** ** Loading the registry *)

Inductive FileState :=
| Missing
| Unreadable
| Present (text : str).

Inductive Exception :=
| OSError
| JSONDecodeError.

Inductive Outcome (A : Type) :=
| Returned (a : A)
| Raised (e : Exception).
Arguments Returned {A} a.
Arguments Raised {A} e.

(** The document of a first run, [{"users": [], "categories": {}}]. *)
Definition empty_document : Registry :=
  {| users := []; categories := ∅; network := None |}.

Section Load.
(** [json.load] of the text of the file; [None] where it raises
    [JSONDecodeError]. *)
Variable json_load : str -> option Registry.

(** [load_users_data]: only [FileNotFoundError] is caught. *)
Definition load_users_data (f : FileState) : Outcome Registry :=
  match f with
  | Missing => Returned empty_document
  | Unreadable => Raised OSError
  | Present text =>
    match json_load text with
    | Some d => Returned d
    | None => Raised JSONDecodeError
    end
  end.
End Load.

(** * The HTTP service ([web_api.py])

    The endpoints that read and write the registry file and the generated
    pages. The registry file holds a JSON document, read with [json.load]
    and written with [json.dump]; a page [mypage_<id>.html] is named by the
    id of its user. Of a response only the status is kept. In the
    endpoints the file system does what it is asked: a file that is there
    is read, written and removed without an error. *)

Inductive RegistryFile :=
| NoFile
| Malformed
| Document (d : Registry).

Record Disk := {
  registry_file : RegistryFile;
  pages : gset str
}.

Inductive Response :=
| Status200
| Status400
| Status404
| Status500.

(** [delete_user]; [user_id] is [data.get('user_id')]. *)
Definition delete_user (user_id : option str) (disk : Disk) : Response * Disk :=
  match user_id with
  | None => (Status400, disk)
  | Some [] => (Status400, disk)
  | Some user_id_to_delete =>
    match registry_file disk with
    | NoFile =>
      (Status200,
       {| registry_file := NoFile;
          pages := pages disk ∖ {[user_id_to_delete]} |})
    | Malformed => (Status500, disk)
    | Document users_data =>
      let initial_len := length (users users_data) in
      let users' :=
        List.filter (fun u => negb (bool_decide (id u = user_id_to_delete)))
                    (users users_data) in
      if (length users' <? initial_len)%nat then
        (Status200,
         {| registry_file :=
              Document {| users := users';
                          categories := categories users_data;
                          network := network users_data |};
            pages := pages disk ∖ {[user_id_to_delete]} |})
      else (Status404, disk)
    end
  end.


(** [s.rsplit(c, 1)] for a character [c]: the string is cut at the last
    [c], if there is one. *)
Fixpoint span_until (c : N) (s : str) : str * str :=
  match s with
  | [] => ([], [])
  | x :: rest =>
    if (x =? c)%N then ([], s)
    else let '(a, b) := span_until c rest in (x :: a, b)
  end.

Definition rsplit1 (c : N) (s : str) : list str :=
  let '(after_rev, rest) := span_until c (rev s) in
  match rest with
  | [] => [s]
  | _ :: before_rev => [rev before_rev; rev after_rev]
  end.

Definition ALLOWED_EXTENSIONS : list str := [py "tsv"; py "txt"].

Section Upload.
Variable lower : str -> str.

(** [allowed_file] *)
Definition allowed_file (filename : str) : bool :=
  bool_decide (46%N ∈ filename)
  && bool_decide (lower (nth 1 (rsplit1 46 filename) []) ∈ ALLOWED_EXTENSIONS).
End Upload.

(** ** Reading the table ([parse_tsv_file])

    What [pd.read_csv] hands back is taken as given: it fails, or it gives
    a frame of some width whose cells are values or [NaN]. The result of
    [parse_tsv_file] is the list of the rows of the frame it returns, the
    empty frame having none. *)

Inductive Cell :=
| NaN
| Value (v : str).

Inductive ReadCsv :=
| ReadFailed
| Frame (width : nat) (rows : list (list Cell)).

Definition isna (c : Cell) : bool :=
  match c with
  | NaN => true
  | Value _ => false
  end.

Definition parse_tsv_file (read : ReadCsv) : list (list Cell) :=
  match read with
  | ReadFailed => []
  | Frame width rows =>
    match rows with
    | [] => []
    | _ :: _ =>
      let '(width, rows) :=
        if (width =? 8)%nat && forallb (fun row => isna (nth 7 row NaN)) rows
        then (7, map (take 7) rows)
        else (width, rows) in
      if (width =? 7)%nat then rows else []
    end
  end.

(** ** The run of the generator ([process_tsv_file], [main])

    The table is the frame of [parse_tsv_file] with its dates read. Of the
    page that is written only the name is kept, [mypage_<user_id>.html],
    as in [delete_user]. The two files are opened for writing; whether
    the file system lets them be opened is given with the call. *)

Record FileSystem := {
  page_opens : bool;
  registry_opens : bool
}.

Record RunState := {
  self : MypageGenerator;
  store : list BookEntry;
  disk : Disk
}.

(** A call returns [True] or [False], or an exception leaves it; the disk
    is what the call has written by then. *)
Inductive Run :=
| Crashed (d : Disk)
| Finished (success : bool) (g : RunState).

Section Pipeline.
Variable lower : str -> str.
Variable upper : str -> str.
Variable set_iter : gset str -> list str.

(** The placeholder avatar; [user_id[0]] raises on an empty id. *)
Definition default_avatar (user_id : str) : option str :=
  match user_id with
  | [] => None
  | c :: _ =>
    Some (py "https://via.placeholder.com/90x90/" ++ upper [c]
          ++ py "/fff?text=" ++ upper [c])
  end.

Definition process_tsv_file (current_year : Z) (fs : FileSystem)
    (g : RunState) (df : DataFrame) (user_id name position : str)
    (avatar : option str) : Run :=
  match df with
  | [] => Finished false g
  | _ :: _ =>
    let avatar' :=
      match avatar with
      | None => default_avatar user_id
      | Some [] => default_avatar user_id
      | Some a => Some a
      end in
    match avatar' with
    | None => Crashed (disk g)
    | Some avatar =>
      match create_user_profile lower current_year (self g) user_id name
              position avatar df (store g) with
      | (None, h) =>
        Finished false {| self := self g; store := h; disk := disk g |}
      | (Some user_profile, h) =>
        let users_data' :=
          add_user_to_database set_iter (users_data (self g)) user_profile in
        if negb (page_opens fs) then Crashed (disk g)
        else
          let disk1 :=
            {| registry_file := registry_file (disk g);
               pages := {[user_id]} ∪ pages (disk g) |} in
          if negb (registry_opens fs) then Crashed disk1
          else
            Finished true
              {| self := {| users_data := users_data';
                            category_keywords := category_keywords (self g) |};
                 store := h;
                 disk := {| registry_file := Document users_data';
                            pages := pages disk1 |} |}
      end
    end
  end.

(** [main], once the command line is read: the generator is made from the
    registry file, then the table is processed. The result is the exit
    status of the script and the disk; an exception that nothing catches
    ends the script with status 1. *)
Definition main (current_year : Z) (fs : FileSystem) (d : Disk)
    (df : DataFrame) (user_id name position : str) (avatar : option str)
    : Z * Disk :=
  let loaded :=
    match registry_file d with
    | NoFile => Some empty_document
    | Malformed => None
    | Document users_data => Some users_data
    end in
  match loaded with
  | None => (1%Z, d)
  | Some users_data =>
    let generator :=
      {| self := {| users_data := users_data;
                    category_keywords := default_category_keywords |};
         store := [];
         disk := d |} in
    match process_tsv_file current_year fs generator df user_id name
            position avatar with
    | Crashed d' => (1%Z, d')
    | Finished _ g => (0%Z, disk g)
    end
  end.
End Pipeline.

(** ** The status of the service and its worker *)

Record LogEntry := {
  log_timestamp : str;
  log_text : str;
  log_level : str
}.

Record ProcessingStatus := {
  is_processing : bool;
  status_progress : Z;
  status_message : str;
  logs : list LogEntry;
  error : option str
}.

(** The status at start and after [reset_processing]. *)
Definition initial_status : ProcessingStatus :=
  {| is_processing := false; status_progress := 0; status_message := [];
     logs := []; error := None |}.

Definition reset_processing (st : ProcessingStatus) : ProcessingStatus :=
  initial_status.

(** What the worker meets: the outcome of [subprocess.run], whether the
    page and the registry file are there afterwards, and whether the
    uploaded file could be removed. *)
Inductive ScriptRun :=
| RunRaised (what : str)
| RunCompleted (returncode : Z) (stdout stderr : str).

Record WorkerEnv := {
  script_run : ScriptRun;
  page_there : bool;
  registry_there : bool;
  remove_ok : bool
}.

(** [Path.name] of a path that does not end in a slash: what follows the
    last slash. *)
Definition path_name (p : str) : str :=
  default p (last (rsplit1 47 p)).

Section Worker.
(** [time.strftime('%H:%M:%S')] when the entry of a given rank of the run is
    logged. *)
Variable clock : nat -> str.

Definition log_message (message level : str) (st : ProcessingStatus)
    : ProcessingStatus :=
  {| is_processing := is_processing st;
     status_progress := status_progress st;
     status_message := status_message st;
     logs := logs st ++ [{| log_timestamp := clock (length (logs st));
                            log_text := message;
                            log_level := level |}];
     error := error st |}.

Definition update_progress (progress : Z) (message : str)
    (st : ProcessingStatus) : ProcessingStatus :=
  log_message message (py "info")
    {| is_processing := is_processing st;
       status_progress := progress;
       status_message := message;
       logs := logs st;
       error := error st |}.

Definition set_error (e : str) (st : ProcessingStatus) : ProcessingStatus :=
  {| is_processing := is_processing st;
     status_progress := status_progress st;
     status_message := status_message st;
     logs := logs st;
     error := Some e |}.

(** [process_mypage_generation], the body of the worker thread. *)
Definition process_mypage_generation (env : WorkerEnv)
    (tsv_path user_id user_name : str) (st : ProcessingStatus)
    : ProcessingStatus :=
  let st := {| is_processing := true; status_progress := 0;
               status_message := status_message st;
               logs := []; error := None |} in
  let st := update_progress 10
              (py "ユーザー " ++ user_name ++ py " の処理を開始...") st in
  let st := update_progress 20 (py "generate_mypage.pyスクリプトを実行中...") st in
  let st :=
    match script_run env with
    | RunCompleted returncode stdout stderr =>
      let st := update_progress 60 (py "スクリプト実行完了、結果を確認中...") st in
      if (returncode =? 0)%Z then
        let st := update_progress 80 (py "マイページ生成成功") st in
        let st := log_message stdout (py "success") st in
        let st :=
          if page_there env
          then update_progress 90
                 (py "マイページファイル確認: "
                  ++ path_name (py "mypage_" ++ user_id ++ py ".html")) st
          else st in
        let st :=
          if registry_there env
          then update_progress 95 (py "users.json更新確認") st
          else st in
        update_progress 100
          (py "✅ " ++ user_name ++ py " のマイページ生成完了！") st
      else
        let st := set_error stderr st in
        let st := log_message (py "エラー: " ++ stderr) (py "error") st in
        update_progress 100 (py "❌ マイページ生成失敗") st
    | RunRaised e =>
      let st := set_error e st in
      let st := log_message (py "予期しないエラー: " ++ e) (py "error") st in
      update_progress 100 (py "❌ 処理中にエラーが発生") st
    end in
  let st :=
    if remove_ok env
    then log_message (py "一時ファイル削除: " ++ tsv_path) (py "info") st
    else st in
  {| is_processing := false;
     status_progress := status_progress st;
     status_message := status_message st;
     logs := logs st;
     error := error st |}.
End Worker.

(** ** The upload endpoint *)

Record UploadRequest := {
  upload_filename : option str;
  form_user_id : option str;
  form_user_name : option str;
  form_position : option str;
  form_email : option str;
  form_avatar_url : option str
}.

(** The worker that is started: the path of the saved file under the
    upload folder and the arguments of the thread. *)
Record WorkerArgs := {
  arg_tsv_path : str;
  arg_user_id : str;
  arg_user_name : str;
  arg_position : str;
  arg_email : str;
  arg_avatar_url : str
}.

Inductive UploadAnswer :=
| Refused
| Started (args : WorkerArgs).

(** A form field is there and not empty. *)
Definition truthy (field : option str) : bool :=
  match field with
  | Some (_ :: _) => true
  | _ => false
  end.

Section UploadEndpoint.
Variable lower : str -> str.
(** [werkzeug.utils.secure_filename] *)
Variable secure_filename : str -> str.

(** [upload_file]: every refusal is a response of status 400; saving the
    uploaded file is taken to succeed. *)
Definition upload_file (st : ProcessingStatus) (req : UploadRequest)
    : UploadAnswer :=
  if is_processing st then Refused
  else
    match upload_filename req with
    | None => Refused
    | Some [] => Refused
    | Some filename =>
      if negb (allowed_file lower filename) then Refused
      else if negb (truthy (form_user_id req) && truthy (form_user_name req)
                    && truthy (form_position req))
      then Refused
      else
        let user_id := default [] (form_user_id req) in
        Started
          {| arg_tsv_path := user_id ++ py "_" ++ secure_filename filename;
             arg_user_id := user_id;
             arg_user_name := default [] (form_user_name req);
             arg_position := default [] (form_position req);
             arg_email := default [] (form_email req);
             arg_avatar_url := default [] (form_avatar_url req) |}
    end.
End UploadEndpoint.

(** * Specification vocabulary

    The notions in which the properties below are stated. *)

(** ** Classification *)

(** [text] contains the lower-cased form of one of the keywords. *)
Definition matches (lower : str -> str) (text : str) (keywords : list str) : Prop :=
  ∃ keyword a b, keyword ∈ keywords ∧ text = a ++ lower keyword ++ b.

(** ** Rows and entries *)

(** The first row of the table with a given book id. *)
Definition first_with_id (b : Z) (df : DataFrame) : option CheckoutRecord :=
  List.find (fun row => (book_id row =? b)%Z) df.

(** The entry that [create_user_profile] builds from a row. *)
Definition book_entry_of (lower : str -> str) (keywords : list (str * list str))
    (row : CheckoutRecord) : BookEntry :=
  let '(title, author) := extract_book_info (title_author row) in
  {| title := title; author := author;
     category := categorize_book lower keywords title author;
     year := str_of_Z (dt_year (checkout_date row));
     rating := 4; cover := generate_cover_url title author;
     progress := None |}.

(** [e] carries the data of [row]: its six fields are those computed from
    the row (the [progress] field is left open). *)
Definition built_from (lower : str -> str) (keywords : list (str * list str))
    (row : CheckoutRecord) (e : BookEntry) : Prop :=
  title e = fst (extract_book_info (title_author row))
  ∧ author e = snd (extract_book_info (title_author row))
  ∧ category e = categorize_book lower keywords
                   (fst (extract_book_info (title_author row)))
                   (snd (extract_book_info (title_author row)))
  ∧ year e = str_of_Z (dt_year (checkout_date row))
  ∧ rating e = 4%Z
  ∧ cover e = generate_cover_url (title e) (author e).

(** ** Counting and ranking *)

(** [c[key]] on a counter: the count of a key, 0 when it is absent. *)
Fixpoint counter_get (key : str) (c : Counter) : nat :=
  match c with
  | [] => 0
  | (k, n) :: rest => if bool_decide (k = key) then n else counter_get key rest
  end.

(** The counter of a list of keys, counted from left to right. *)
Definition count_keys (l : list str) : Counter :=
  fold_left (fun c k => counter_incr k c) l [].

Definition occurrences (key : str) (l : list str) : nat :=
  length (List.filter (fun k => bool_decide (k = key)) l).

(** The position of the first occurrence of a key. *)
Fixpoint first_index (key : str) (l : list str) : nat :=
  match l with
  | [] => 0
  | x :: rest => if bool_decide (x = key) then 0 else S (first_index key rest)
  end.

(** [a] ranks before [b] among the categories of [l]: it occurs more
    often, or as often and it is encountered first. *)
Definition ranks_before (l : list str) (a b : str) : Prop :=
  occurrences b l < occurrences a l
  ∨ (occurrences a l = occurrences b l ∧ first_index a l < first_index b l).

(** An item stands before another in a counter. *)
Definition item_before (c : Counter) (x y : str * nat) : Prop :=
  ∃ i j, i < j ∧ c !! i = Some x ∧ c !! j = Some y.

(** The order of a stable descending sort by count, given the order in
    which the items stood. *)
Definition count_order_by (before : str * nat -> str * nat -> Prop)
    (x y : str * nat) : Prop :=
  snd y < snd x ∨ (snd x = snd y ∧ before x y).

Definition count_order (c : Counter) : str * nat -> str * nat -> Prop :=
  count_order_by (item_before c).

(** The number of entries of a history in a category. *)
Definition count_category (cat : str) (history : list BookEntry) : nat :=
  length (List.filter (fun e => bool_decide (category e = cat)) history).

Definition total_percentage (ps : list (str * Z)) : Z :=
  fold_right Z.add 0%Z (map snd ps).

(** The percentage of [count] of [total] is defined and lies between 0
    and 100, checked for every total up to [n]. *)
Definition percentage_ok (count total : nat) : bool :=
  match percentage count total with
  | Some p => (0 <=? p)%Z && (p <=? 100)%Z
  | None => false
  end.

Definition percentages_ok_upto (n : nat) : bool :=
  forallb (fun total => forallb (fun count => percentage_ok count total)
                                (seq 0 (S total)))
          (seq 1 n).

(** ** The network graph *)

(** An edge joins the unordered pair [{a, b}]. *)
Definition edge_between (a b : str) (e : Edge) : Prop :=
  (edge_from e = a ∧ edge_to e = b) ∨ (edge_from e = b ∧ edge_to e = a).

Definition edges_between (a b : str) (es : list Edge) : list Edge :=
  List.filter (fun e => bool_decide (edge_between a b e)) es.

(** The edges of the registry; none while it has no network section. *)
Definition edges_of (d : Registry) : list Edge :=
  edges (default empty_network (network d)).

Definition edge_pairs (es : list Edge) : list (str * str) :=
  map (fun e => (edge_from e, edge_to e)) es.

(** A sequence of upserts, in order. *)
Definition upsert_all (set_iter : gset str -> list str)
    (profiles : list UserProfile) (d : Registry) : Registry :=
  fold_left (add_user_to_database set_iter) profiles d.

(** The test of [connect_step]: [other_user] gets a new edge. *)
Definition connects (user_profile : UserProfile)
    (existing_edges : list (str * str)) (other_user : UserProfile) : bool :=
  negb (bool_decide (id other_user = id user_profile))
  && negb (bool_decide (common_fields user_profile other_user = ∅))
  && bool_decide ((id user_profile, id other_user) ∉ existing_edges)
  && bool_decide ((id other_user, id user_profile) ∉ existing_edges).

(** The invariant of the registry that the edge inference maintains: the
    ids of the users are distinct, no unordered pair has two edges, and two
    users that share a specialization have an edge. *)
Definition registry_inv (d : Registry) : Prop :=
  NoDup (map id (users d))
  ∧ (∀ a b, length (edges_between a b (edges_of d)) ≤ 1)
  ∧ (∀ u v, u ∈ users d → v ∈ users d → id u ≠ id v →
            common_fields u v ≠ ∅ →
            ∃ e, e ∈ edges_of d ∧ edge_between (id u) (id v) e).

(** Every edge joins two users of the registry and records what they
    share. *)
Definition edges_accurate (d : Registry) : Prop :=
  ∀ e, e ∈ edges_of d →
    ∃ u v, u ∈ users d ∧ v ∈ users d
           ∧ id u = edge_from e ∧ id v = edge_to e
           ∧ edge_strength e = size (common_fields u v)
           ∧ common_fields u v ≠ ∅.

(** ** Histograms *)

(** The number of rows that a month to count histogram accounts for. *)
Definition histogram_total (hist : list (Z * nat)) : nat :=
  sum_list (map snd hist).

Definition valid_month (row : CheckoutRecord) : Prop :=
  (1 <= dt_month (checkout_date row) <= 12)%Z.

(** ** The legend of the page *)

(** The percentages of the categories that the category table knows. *)
Definition known_percentages (cats : gmap str CategoryInfo)
    (ps : list (str * Z)) : list (str * Z) :=
  List.filter (fun cp => bool_decide (is_Some (cats !! fst cp))) ps.

(** A legend item shows a category with its percentage. *)
Definition shows (cats : gmap str CategoryInfo) (item : LegendItem)
    (cp : str * Z) : Prop :=
  legend_percentage item = snd cp
  ∧ ∃ info, cats !! fst cp = Some info
            ∧ legend_name item = cat_name info
            ∧ legend_color item = cat_color info.

(** The segments of the donut follow one another from [start] on. *)
Fixpoint contiguous (start : Z) (items : list LegendItem) : Prop :=
  match items with
  | [] => True
  | item :: rest =>
    legend_start item = start
    ∧ contiguous (start + legend_percentage item)%Z rest
  end.

(** ** Nodes *)

(** The node that [update_network_data] builds for a profile. *)
Definition node_of (user_profile : UserProfile) : Node :=
  {| node_id := id user_profile;
     node_label := name user_profile;
     node_name := name user_profile;
     node_avatar := avatar user_profile;
     node_group := py "student";
     node_field :=
       match specializations user_profile with
       | [] => py "その他"
       | _ :: _ => join (py ", ") (take 2 (specializations user_profile))
       end |}.

(** The nodes of the registry; none while it has no network section. *)
Definition nodes_of (d : Registry) : list Node :=
  nodes (default empty_network (network d)).

(** Every edge joins two different users of the registry and has a
    strength of at least 1. *)
Definition edges_well_formed (d : Registry) : Prop :=
  ∀ e, e ∈ edges_of d →
    edge_from e ≠ edge_to e
    ∧ edge_from e ∈ map id (users d)
    ∧ edge_to e ∈ map id (users d)
    ∧ 0 < edge_strength e.

(** ** The disk of the service *)

(** The registry that a run of the script starts from. *)
Definition registry_before (d : Disk) : Registry :=
  match registry_file d with
  | Document users_data => users_data
  | _ => empty_document
  end.

(** The users of other ids. *)
Definition other_users (user_id : str) (us : list UserProfile)
    : list UserProfile :=
  List.filter (fun u => negb (bool_decide (id u = user_id))) us.

(** The avatar that a profile gets: the one given, or the placeholder
    when none is given. *)
Definition effective_avatar (upper : str -> str) (user_id : str)
    (avatar : option str) : option str :=
  match avatar with
  | None => default_avatar upper user_id
  | Some [] => default_avatar upper user_id
  | Some a => Some a
  end.

(** Every user of the registry file has a page. *)
Definition users_have_pages (d : Disk) : Prop :=
  ∀ u, u ∈ users (registry_before d) → id u ∈ pages d.

Section Service.
Variable lower : str -> str.
Variable upper : str -> str.
Variable set_iter : gset str -> list str.

(** What the service does to the disk in one operation: a run of the
    script, or the deletion of a user. *)
Inductive disk_step : Disk -> Disk -> Prop :=
| step_generate (current_year : Z) (fs : FileSystem) (d : Disk)
    (df : DataFrame) (user_id name position : str) (avatar : option str) :
    disk_step d
      (snd (main lower upper set_iter current_year fs d df user_id name
              position avatar))
| step_delete (user_id : option str) (d : Disk) :
    disk_step d (snd (delete_user user_id d)).
End Service.

(** The disk before anything is registered. *)
Definition empty_disk : Disk := {| registry_file := NoFile; pages := ∅ |}.

(** ** Frames *)

(** Every row of a frame has the width of the frame. *)
Definition well_formed (read : ReadCsv) : Prop :=
  match read with
  | ReadFailed => True
  | Frame width rows => Forall (fun row => length row = width) rows
  end.

(** * Sample data *)

(** ASCII lower-casing; it agrees with [str.lower] on ASCII letters and on
    the characters of the keyword table. *)
Definition ascii_lower (s : str) : str :=
  map (fun c => if ((65 <=? c) && (c <=? 90))%N then (c + 32)%N else c) s.

Definition mk_row (n b y m : Z) (ta : string) : CheckoutRecord :=
  {| row_id := n; book_id := b;
     checkout_date := {| dt_year := y; dt_month := m |};
     return_date := {| dt_year := y; dt_month := m |};
     location := py "lib"; classification := py "000";
     title_author := py ta |}.

Definition mk_entry (t c : string) : BookEntry :=
  {| title := py t; author := py "B"; category := py c; year := py "2025";
     rating := 4; cover := generate_cover_url (py t) (py "B");
     progress := None |}.

Definition mk_info (n : string) : CategoryInfo :=
  {| cat_name := py n; cat_color := py "#000" |}.

Definition mk_profile (uid : string) (specs : list string) : UserProfile :=
  {| id := py uid; name := py uid; nameJa := py uid; position := py "M2";
     avatar := py "a.png"; email := py uid ++ py "@example.com";
     specializations := map py specs;
     stats := {| totalBooks := 0; thisYearBooks := 0; publications := 0;
                 presentations := 0; datasets := 0; coderepos := 0;
                 awards := 0 |};
     currentReading := None; readingHistory := [];
     networkConnections := [] |}.

Definition sample_categories : gmap str CategoryInfo :=
  list_to_map [ (py "mathematics", mk_info "Mathematics");
                (py "meteorology", mk_info "Meteorology");
                (py "programming", mk_info "Programming") ].

Definition sample_generator : MypageGenerator :=
  {| users_data :=
       {| users := []; categories := sample_categories; network := None |};
     category_keywords := default_category_keywords |}.

(** Three rows: one book checked out twice and one other book. *)
Definition sample_df : DataFrame :=
  [ mk_row 1 7 2024 4 "数学入門 / Alice";
    mk_row 2 7 2025 5 "数学入門 第2版 / Bob";
    mk_row 3 9 2025 6 "Python入門; note / Carol" ].

(** Eight books: three, three and two of three categories. *)
Definition sample_history : list BookEntry :=
  [ mk_entry "a1" "mathematics"; mk_entry "a2" "mathematics";
    mk_entry "a3" "mathematics";
    mk_entry "b1" "meteorology"; mk_entry "b2" "meteorology";
    mk_entry "b3" "meteorology";
    mk_entry "c1" "programming"; mk_entry "c2" "programming" ].

Definition sample_registry : Registry :=
  {| users := [mk_profile "alice" ["X"%string]; mk_profile "bob" ["Y"%string]];
     categories := ∅; network := None |}.

(** Three upserts: alice and bob share a specialization, then bob is
    upserted again with another one. *)
Definition sample_upserts : list UserProfile :=
  [ mk_profile "alice" ["X"%string];
    mk_profile "bob" ["X"%string];
    mk_profile "bob" ["Y"%string] ].

Definition ascii_upper (s : str) : str :=
  map (fun c => if ((97 <=? c) && (c <=? 122))%N then (c - 32)%N else c) s.

Definition all_open : FileSystem :=
  {| page_opens := true; registry_opens := true |}.

Definition sample_disk : Disk :=
  {| registry_file := Document sample_registry;
     pages := {[py "alice"; py "bob"]} |}.

Definition sample_clock (n : nat) : str := py "12:00:00".

(** * Properties *)

(** ** Strings *)

Lemma is_prefix_spec (p s : str) :
  is_prefix p s = true ↔ ∃ t, s = p ++ t.
Proof.
  revert s; induction p as [|a p IH]; intros s; simpl.
  - split; [intros _; by exists s | done].
  - destruct s as [|b s].
    + split; [done | intros [t Ht]; discriminate].
    + rewrite andb_true_iff, N.eqb_eq, IH. split.
      * intros [-> [t ->]]. by exists t.
      * intros [t Ht]. injection Ht as -> ->. split; [done | by exists t].
Qed.

Lemma contains_spec (needle hay : str) :
  contains needle hay = true ↔ ∃ a b, hay = a ++ needle ++ b.
Proof.
  induction hay as [|c hay IH].
  - simpl. rewrite orb_false_r, is_prefix_spec. split.
    + intros [t Ht]. by exists [], t.
    + intros [a [b Hab]]. destruct a; [by exists b | discriminate].
  - cbn [contains]. rewrite orb_true_iff, is_prefix_spec, IH. split.
    + intros [[t Ht] | [a [b Hab]]].
      * by exists [], t.
      * exists (c :: a), b. by rewrite Hab.
    + intros [[|c' a] [b Hab]].
      * left. by exists b.
      * right. injection Hab as -> ->. by exists a, b.
Qed.

Example extract_plain :
  extract_book_info (py "A / B") = (py "A", py "B").
Proof. reflexivity. Qed.

Example extract_no_author :
  extract_book_info (py "A") = (py "A", unknown_author).
Proof. reflexivity. Qed.

Example extract_annotation :
  extract_book_info (py "A; extra / B") = (py "A", py "B").
Proof. reflexivity. Qed.

Example extract_trims :
  extract_book_info (py "  Title  ; note /  Author ") = (py "Title", py "Author").
Proof. reflexivity. Qed.

Example str_of_year : str_of_Z 2025 = py "2025".
Proof. reflexivity. Qed.

(** C2: on a string with two separators the author is the second segment
    alone; the segments after it are dropped, not joined to it. *)
Theorem extract_book_info_drops_later_segments :
  extract_book_info (py "A / B / C") = (py "A", py "B")
  ∧ snd (extract_book_info (py "A / B / C")) ≠ py "B / C"
  ∧ split separator (py "A / B / C") = [py "A"; py "B"; py "C"].
Proof. split; [reflexivity | split; [discriminate | reflexivity]]. Qed.

(** ** The classifier *)

Section ClassifierFacts.
Variable lower : str -> str.

Lemma any_keyword_spec (text : str) (keywords : list str) :
  any_keyword lower text keywords = true ↔ matches lower text keywords.
Proof.
  unfold matches. induction keywords as [|k ks IH]; simpl.
  - split; [done | intros (k & a & b & Hk & _); by apply elem_of_nil in Hk].
  - destruct (contains (lower k) text) eqn:Hc.
    + split; [intros _ | done].
      apply contains_spec in Hc as (a & b & ->).
      exists k, a, b. split; [apply elem_of_cons; by left | done].
    + rewrite IH. split.
      * intros (k' & a & b & Hk' & Ht). exists k', a, b. split; [apply elem_of_cons; by right | done].
      * intros (k' & a & b & Hk' & Ht).
        apply elem_of_cons in Hk' as [-> | Hk'].
        -- assert (contains (lower k) text = true) as Hc'
             by (apply contains_spec; by exists a, b).
           congruence.
        -- by exists k', a, b.
Qed.

Lemma scan_categories_first (text : str) (table : list (str * list str))
    (i : nat) (c : str) (kws : list str) :
  table !! i = Some (c, kws) →
  matches lower text kws →
  (∀ j c' kws', j < i → table !! j = Some (c', kws') → ¬ matches lower text kws') →
  scan_categories lower text table = Some c.
Proof.
  revert i. induction table as [|[c0 k0] table IH]; intros i Hi Hm Hbefore.
  - done.
  - simpl. destruct i as [|i].
    + injection Hi as -> ->.
      apply any_keyword_spec in Hm. by rewrite Hm.
    + destruct (any_keyword lower text k0) eqn:H0.
      * exfalso. apply (Hbefore 0 c0 k0); [lia | done | by apply any_keyword_spec].
      * apply (IH i); [done | done |].
        intros j c' kws' Hj Hl. apply (Hbefore (S j) c' kws'); [lia | done].
Qed.

Lemma scan_categories_none (text : str) (table : list (str * list str)) :
  (∀ c kws, (c, kws) ∈ table → ¬ matches lower text kws) →
  scan_categories lower text table = None.
Proof.
  induction table as [|[c0 k0] table IH]; intros Hno; [done |].
  simpl. destruct (any_keyword lower text k0) eqn:H0.
  - exfalso. apply (Hno c0 k0); [apply elem_of_cons; by left | by apply any_keyword_spec].
  - apply IH. intros c kws Hin. apply (Hno c kws). apply elem_of_cons; by right.
Qed.

(** C6: the text is the lower-cased title, a space and the author; the
    result is the category of the first entry of the table, in table
    order, one of whose lower-cased keywords occurs in the text, so that an
    earlier category wins over a later one that matches too; when no
    keyword of the table occurs the result is [other]. *)
Theorem categorize_book_first_category_wins
    (table : list (str * list str)) (title author : str) :
  let text := lower (title ++ py " " ++ author) in
  (∀ i c kws,
      table !! i = Some (c, kws) →
      matches lower text kws →
      (∀ j c' kws', j < i → table !! j = Some (c', kws') →
                    ¬ matches lower text kws') →
      categorize_book lower table title author = c)
  ∧ ((∀ c kws, (c, kws) ∈ table → ¬ matches lower text kws) →
     categorize_book lower table title author = py "other").
Proof.
  intros text. split.
  - intros i c kws Hi Hm Hb. unfold categorize_book. fold text.
    by rewrite (scan_categories_first text table i c kws Hi Hm Hb).
  - intros Hno. unfold categorize_book. fold text.
    by rewrite (scan_categories_none text table Hno).
Qed.
End ClassifierFacts.

Lemma no_match_computed (lower : str -> str) (text : str)
    (table : list (str * list str)) :
  forallb (fun ck => negb (any_keyword lower text (snd ck))) table = true →
  ∀ c kws, (c, kws) ∈ table → ¬ matches lower text kws.
Proof.
  intros Hall c kws Hin Hm.
  rewrite forallb_forall in Hall.
  apply list_elem_of_In, Hall in Hin. simpl in Hin.
  apply any_keyword_spec in Hm. rewrite Hm in Hin. discriminate.
Qed.

Lemma no_match_before_computed (lower : str -> str) (text : str)
    (table : list (str * list str)) (i : nat) :
  forallb (fun ck => negb (any_keyword lower text (snd ck))) (take i table) = true →
  ∀ j c kws, j < i → table !! j = Some (c, kws) → ¬ matches lower text kws.
Proof.
  intros Hall j c kws Hj Hl.
  apply (no_match_computed lower text (take i table) Hall c kws).
  apply list_elem_of_lookup. exists j. by rewrite lookup_take_lt.
Qed.

Lemma categorize_book_first_category_wins_witness :
  categorize_book ascii_lower default_category_keywords
    (py "数値予報と気象") (py "X") = py "meteorology"
  ∧ categorize_book ascii_lower default_category_keywords
      (py "Zzz") (py "Q") = py "other".
Proof.
  split.
  - apply (proj1 (categorize_book_first_category_wins ascii_lower
                    default_category_keywords (py "数値予報と気象") (py "X"))
             3 (py "meteorology") [py "気象"; py "大気"; py "気候"; py "天気"]).
    + reflexivity.
    + exists (py "気象"), (py "数値予報と"), (py " x").
      split; [apply elem_of_cons; by left | reflexivity].
    + apply no_match_before_computed. vm_compute. reflexivity.
  - apply (proj2 (categorize_book_first_category_wins ascii_lower
                    default_category_keywords (py "Zzz") (py "Q"))).
    apply no_match_computed. vm_compute. reflexivity.
Defined.

(** ** The aggregator *)

Lemma drop_duplicates_from_ids (seen : list Z) (df : DataFrame) :
  NoDup seen →
  NoDup (map book_id (drop_duplicates_from seen df) ++ seen)
  ∧ ∀ b, b ∈ map book_id (drop_duplicates_from seen df) ++ seen
         ↔ b ∈ map book_id df ++ seen.
Proof.
  revert seen. induction df as [|row df IH]; intros seen Hnd; simpl.
  - done.
  - case_bool_decide as Hin.
    + destruct (IH seen Hnd) as [H1 H2]. split; [done |].
      intros b. rewrite H2. cbn [map app]. rewrite elem_of_cons.
      split; [tauto | intros [-> | ?]; [| done]].
      apply elem_of_app. by right.
    + assert (NoDup (book_id row :: seen)) as Hnd' by (by constructor).
      destruct (IH _ Hnd') as [H1 H2]. split.
      * simpl. apply NoDup_cons. split.
        -- intros Hb. apply NoDup_app in H1 as (_ & Hdisj & _).
           apply elem_of_app in Hb as [Hb | Hb]; [| done].
           apply (Hdisj _ Hb). by left.
        -- apply NoDup_app in H1 as (Ha & Hdisj & Hb).
           apply NoDup_app. split_and!; [done | | done].
           intros x Hx Hs. apply (Hdisj x Hx). by right.
      * intros b. specialize (H2 b). revert H2. cbn [map app].
        rewrite !elem_of_cons, !elem_of_app, !elem_of_cons. tauto.
Qed.

(** The number of rows that [drop_duplicates] keeps is the number of
    distinct book ids of the table. *)
Lemma drop_duplicates_count (df : DataFrame) :
  length (drop_duplicates df) = size (list_to_set (map book_id df) : gset Z).
Proof.
  destruct (drop_duplicates_from_ids [] df (NoDup_nil_2)) as [Hnd Hiff].
  rewrite app_nil_r in Hnd. unfold drop_duplicates.
  rewrite <- (length_map book_id (drop_duplicates_from [] df)).
  rewrite <- (size_list_to_set (C:=gset Z) _ Hnd).
  f_equal. apply set_eq. intros b.
  rewrite !elem_of_list_to_set. specialize (Hiff b).
  by rewrite !app_nil_r in Hiff.
Qed.

Lemma total_books_distinct_ids (current_year : Z) (df : DataFrame) (a : Analysis) :
  analyze_reading_patterns current_year df = Some a →
  total_books a = size (list_to_set (map book_id df) : gset Z).
Proof.
  destruct df as [|row df]; [done |]. intros [= <-].
  exact (drop_duplicates_count (row :: df)).
Qed.

(** C1: one book checked out twice in the current year is a single unique
    book, and [total_books] is 1, but [this_year_books] is 2: the year
    count is taken over the rows, before the duplicates are dropped. *)
Theorem this_year_books_counts_rows :
  let df := [mk_row 1 7 2025 4 "A / B"; mk_row 2 7 2025 5 "A / B"] in
  ∃ a, analyze_reading_patterns 2025 df = Some a
       ∧ total_books a = 1
       ∧ this_year_books a = 2
       ∧ length (List.filter (in_year 2025) (drop_duplicates df)) = 1.
Proof. eexists. split; [reflexivity | by vm_compute]. Qed.

(** ** The registry store *)

Lemma replace_user_spec (p : UserProfile) (us : list UserProfile) :
  id p ∈ map id us →
  ∃ i u, us !! i = Some u ∧ id u = id p
         ∧ (∀ j v, j < i → us !! j = Some v → id v ≠ id p)
         ∧ replace_user p us = <[i := p]> us.
Proof.
  induction us as [|u us IH]; intros Hin; simpl in *.
  - by apply elem_of_nil in Hin.
  - case_bool_decide as Hid.
    + exists 0, u. split_and!; [done | done | intros; lia | done].
    + apply elem_of_cons in Hin as [Hin | Hin]; [congruence |].
      destruct (IH Hin) as (i & v & Hl & Hv & Hfirst & Heq).
      exists (S i), v. split_and!; [done | done | | by rewrite Heq].
      intros [|j] w Hj Hw; simpl in Hw.
      * by injection Hw as <-.
      * apply (Hfirst j w); [lia | done].
Qed.

Lemma users_add_user_to_database (set_iter : gset str -> list str)
    (d : Registry) (p : UserProfile) :
  users (add_user_to_database set_iter d p) =
    if bool_decide (id p ∈ map id (users d)) then replace_user p (users d)
    else users d ++ [p].
Proof. reflexivity. Qed.

(** C8: upserting a profile whose id is present replaces the first entry
    with that id in place: the length is unchanged and every other
    position keeps its entry; upserting a profile with a new id appends it:
    the length grows by one and the entries before it are unchanged. *)
Theorem add_user_to_database_upsert (set_iter : gset str -> list str)
    (d : Registry) (p : UserProfile) :
  let d' := add_user_to_database set_iter d p in
  (id p ∈ map id (users d) →
     length (users d') = length (users d)
     ∧ ∃ i u, users d !! i = Some u ∧ id u = id p
         ∧ (∀ j v, j < i → users d !! j = Some v → id v ≠ id p)
         ∧ users d' !! i = Some p
         ∧ ∀ j, j ≠ i → users d' !! j = users d !! j)
  ∧ (id p ∉ map id (users d) →
     length (users d') = S (length (users d))
     ∧ users d' = users d ++ [p]
     ∧ ∀ j, j < length (users d) → users d' !! j = users d !! j).
Proof.
  intros d'. subst d'. rewrite users_add_user_to_database. split; intros Hin.
  - rewrite bool_decide_eq_true_2 by done.
    destruct (replace_user_spec p (users d) Hin) as (i & u & Hl & Hu & Hfirst & ->).
    split; [apply length_insert |].
    exists i, u. split_and!; [done | done | done | |].
    + apply list_lookup_insert_eq. by apply lookup_lt_Some in Hl.
    + intros j Hj. by apply list_lookup_insert_ne.
  - rewrite bool_decide_eq_false_2 by done.
    split_and!; [rewrite length_app; simpl; lia | done |].
    intros j Hj. by apply lookup_app_l.
Qed.

(** ** Loading the registry *)

(** C9: a missing file yields the empty document and raises nothing; a
    file that is present and whose text [json.load] rejects makes the load
    raise [JSONDecodeError], and no document is returned in its place. *)
Theorem load_users_data_missing_or_malformed (json_load : str -> option Registry) :
  load_users_data json_load Missing = Returned empty_document
  ∧ ∀ text, json_load text = None →
      load_users_data json_load (Present text) = Raised JSONDecodeError
      ∧ ∀ d, load_users_data json_load (Present text) ≠ Returned d.
Proof.
  split; [reflexivity |].
  intros text Hbad. simpl. rewrite Hbad. split; [reflexivity | discriminate].
Qed.

Lemma add_user_to_database_upsert_witness :
  length (users (add_user_to_database elements sample_registry
                   (mk_profile "bob" ["Z"%string]))) = 2
  ∧ users (add_user_to_database elements sample_registry (mk_profile "carol" ["X"%string]))
    = users sample_registry ++ [mk_profile "carol" ["X"%string]].
Proof.
  split.
  - apply (proj1 (add_user_to_database_upsert elements sample_registry
                    (mk_profile "bob" ["Z"%string]))).
    apply list_elem_of_In. vm_compute. right. left. reflexivity.
  - apply (proj2 (add_user_to_database_upsert elements sample_registry
                    (mk_profile "carol" ["X"%string]))).
    intros Hin. apply list_elem_of_In in Hin. vm_compute in Hin.
    destruct Hin as [H | [H | []]]; discriminate H.
Defined.

Lemma load_users_data_missing_or_malformed_witness :
  load_users_data (fun _ => None) (Present (py "{")) = Raised JSONDecodeError.
Proof.
  apply (proj2 (load_users_data_missing_or_malformed (fun _ => None)) (py "{")).
  reflexivity.
Defined.

(** ** Counters *)

Lemma counter_incr_keys (key : str) (c : Counter) :
  map fst (counter_incr key c) =
    if bool_decide (key ∈ map fst c) then map fst c else map fst c ++ [key].
Proof.
  induction c as [|[k n] c IH]; cbn [counter_incr map fst].
  - rewrite bool_decide_eq_false_2; [done | apply not_elem_of_nil].
  - destruct (decide (k = key)) as [Hk | Hk].
    + rewrite (bool_decide_eq_true_2 (k = key)) by done.
      subst k. rewrite bool_decide_eq_true_2; [done | by left].
    + rewrite (bool_decide_eq_false_2 (k = key)) by done.
      cbn [map fst]. rewrite IH.
      destruct (decide (key ∈ map fst c)) as [Hin | Hin].
      * rewrite !bool_decide_eq_true_2; [done | by right | done].
      * rewrite !bool_decide_eq_false_2; [done | | done].
        intros [?|?]%elem_of_cons; [congruence | done].
Qed.

Lemma counter_get_incr (key k : str) (c : Counter) :
  counter_get k (counter_incr key c) =
    if bool_decide (k = key) then S (counter_get key c) else counter_get k c.
Proof.
  induction c as [|[k0 n] c IH]; simpl.
  - repeat (case_bool_decide; simplify_eq; simpl); done.
  - destruct (decide (k0 = key)) as [-> | Hk0].
    + rewrite (bool_decide_eq_true_2 (key = key)) by done. simpl.
      repeat (case_bool_decide; simplify_eq; simpl); done.
    + rewrite !(bool_decide_eq_false_2 (k0 = key)) by done. simpl.
      rewrite IH. repeat (case_bool_decide; simplify_eq; simpl); done.
Qed.

Lemma counter_items (c : Counter) (k : str) (n : nat) :
  NoDup (map fst c) →
  (k, n) ∈ c ↔ k ∈ map fst c ∧ n = counter_get k c.
Proof.
  induction c as [|[k0 n0] c IH]; intros Hnd; simpl.
  - split; [intros H; by apply elem_of_nil in H | intros [H _]; by apply elem_of_nil in H].
  - apply NoDup_cons in Hnd as [Hk0 Hnd]. rewrite !elem_of_cons, (IH Hnd).
    case_bool_decide as Hk.
    + subst k0. split.
      * intros [[= ->] | [Hin _]]; [by split; [left |] | done].
      * intros [_ ->]. by left.
    + split.
      * intros [[= -> ->] | [Hin ->]]; [done | by split; [right |]].
      * intros [[-> | Hin] ->]; [done | by right].
Qed.

Lemma count_keys_snoc (l : list str) (x : str) :
  count_keys (l ++ [x]) = counter_incr x (count_keys l).
Proof. unfold count_keys. by rewrite fold_left_app. Qed.

Lemma occurrences_snoc (k x : str) (l : list str) :
  occurrences k (l ++ [x]) =
    if bool_decide (k = x) then S (occurrences k l) else occurrences k l.
Proof.
  unfold occurrences. rewrite List.filter_app, length_app. simpl.
  case_bool_decide as H1; case_bool_decide as H2; simpl; try congruence; lia.
Qed.

Lemma count_keys_spec (l : list str) :
  NoDup (map fst (count_keys l))
  ∧ (∀ k, k ∈ map fst (count_keys l) ↔ k ∈ l)
  ∧ (∀ k, counter_get k (count_keys l) = occurrences k l).
Proof.
  induction l as [|x l IH] using rev_ind.
  - split_and!; [constructor | done | done].
  - destruct IH as (Hnd & Hkeys & Hget).
    rewrite count_keys_snoc, counter_incr_keys. split_and!.
    + case_bool_decide as Hin; [done |].
      apply NoDup_app. split_and!; [done | | apply NoDup_singleton].
      intros k Hk Hx. apply list_elem_of_singleton in Hx. by subst.
    + intros k. rewrite elem_of_app, list_elem_of_singleton, <- Hkeys.
      case_bool_decide as Hin; [| rewrite elem_of_app, list_elem_of_singleton; done].
      split; [by left | intros [? | ->]; done].
    + intros k. rewrite counter_get_incr, occurrences_snoc, !Hget.
      case_bool_decide; by subst.
Qed.

Lemma occurrences_pos (k : str) (l : list str) :
  k ∈ l → 0 < occurrences k l.
Proof.
  intros Hin. unfold occurrences.
  assert (k ∈ List.filter (fun k' => bool_decide (k' = k)) l) as Hf.
  { apply list_elem_of_In, filter_In. split; [by apply list_elem_of_In |].
    by apply bool_decide_eq_true_2. }
  destruct (List.filter _ l); [by apply elem_of_nil in Hf | simpl; lia].
Qed.

(** ** The category percentages *)

Lemma category_stats_count_keys (history : list BookEntry) :
  category_stats history = count_keys (map category history).
Proof.
  unfold category_stats, count_keys.
  generalize (@nil (list N * nat)).
  induction history as [|e history IH]; intros c; simpl; [done | apply IH].
Qed.

Lemma occurrences_count_category (cat : str) (history : list BookEntry) :
  occurrences cat (map category history) = count_category cat history.
Proof.
  unfold occurrences, count_category.
  induction history as [|e history IH]; simpl; [done |].
  case_bool_decide; simpl; by rewrite IH.
Qed.

Lemma percentages_of_some (total : nat) (items : Counter) (ps : list (str * Z)) :
  percentages_of total items = Some ps →
  map fst ps = map fst items
  ∧ ∀ cat p, (cat, p) ∈ ps → ∃ n, (cat, n) ∈ items ∧ percentage n total = Some p.
Proof.
  revert ps. induction items as [|[c n] items IH]; intros ps; simpl.
  - intros [= <-]. split; [done | intros ? ? H; by apply elem_of_nil in H].
  - destruct (percentage n total) as [p|] eqn:Hp; [| done].
    destruct (percentages_of total items) as [ps'|]; [| done].
    intros [= <-]. destruct (IH ps' eq_refl) as [Hk Hall]. split.
    + simpl. by rewrite Hk.
    + intros cat q [[= -> ->] | Hin]%elem_of_cons.
      * exists n. split; [by left | done].
      * destruct (Hall cat q Hin) as (m & Hm & Hq). exists m. split; [by right | done].
Qed.

Lemma percentages_of_none (total : nat) (items : Counter) :
  percentages_of total items = None →
  ∃ cat n, (cat, n) ∈ items ∧ percentage n total = None.
Proof.
  induction items as [|[c n] items IH]; simpl; [done |].
  destruct (percentage n total) as [p|] eqn:Hp.
  - destruct (percentages_of total items) as [ps'|]; [done |].
    intros _. destruct (IH eq_refl) as (cat & m & Hin & Hm).
    exists cat, m. split; [by right | done].
  - intros _. exists c, n. split; [by left | done].
Qed.

Lemma legend_loop_items (cats : gmap str CategoryInfo) (items : list (str * Z))
    (shown : list LegendItem) (tp : Z) (item : LegendItem) :
  item ∈ legend_loop cats items shown tp →
  item ∈ shown
  ∨ ∃ cat info, cats !! cat = Some info
                ∧ (cat, legend_percentage item) ∈ items
                ∧ legend_name item = cat_name info
                ∧ legend_color item = cat_color info.
Proof.
  revert shown tp. induction items as [|[c p] items IH]; intros shown tp; cbn [legend_loop].
  - by left.
  - destruct (cats !! c) as [info|] eqn:Hc.
    + set (it := {| legend_color := _ |}).
      assert (item ∈ shown ++ [it] →
              item ∈ shown ∨ ∃ cat info0, cats !! cat = Some info0
                ∧ (cat, legend_percentage item) ∈ (c, p) :: items
                ∧ legend_name item = cat_name info0
                ∧ legend_color item = cat_color info0) as Hnew.
      { intros [Hin | ->%list_elem_of_singleton]%elem_of_app; [by left |].
        right. exists c, info. split_and!; [done | by left | done | done]. }
      destruct (4 <=? length (shown ++ [it])); [exact Hnew |].
      intros Hin. destruct (IH _ _ Hin) as [Hs | (cat & info0 & H1 & H2 & H3 & H4)].
      * by apply Hnew.
      * right. exists cat, info0. split_and!; [done | by right | done | done].
    + intros Hin. destruct (IH _ _ Hin) as [Hs | (cat & info0 & H1 & H2 & H3 & H4)].
      * by left.
      * right. exists cat, info0. split_and!; [done | by right | done | done].
Qed.

Lemma legend_loop_length (cats : gmap str CategoryInfo) (items : list (str * Z))
    (shown : list LegendItem) (tp : Z) :
  length shown ≤ 3 → length (legend_loop cats items shown tp) ≤ 4.
Proof.
  revert shown tp. induction items as [|[c p] items IH]; intros shown tp Hlen; cbn [legend_loop].
  - lia.
  - destruct (cats !! c) as [info|]; [| by apply IH].
    destruct (4 <=? length (shown ++ [_])) eqn:Hfull.
    + rewrite length_app. simpl. lia.
    + apply IH. apply Nat.leb_gt in Hfull. lia.
Qed.

Lemma percentages_ok_upto_spec (n count total : nat) :
  percentages_ok_upto n = true →
  0 < total ≤ n → count ≤ total →
  percentage_ok count total = true.
Proof.
  unfold percentages_ok_upto. intros Hall Htotal Hcount.
  rewrite forallb_forall in Hall.
  assert (In total (seq 1 n)) as Hin by (apply in_seq; lia).
  specialize (Hall total Hin). rewrite forallb_forall in Hall.
  apply Hall. apply in_seq. lia.
Qed.

Lemma percentages_ok_computed : percentages_ok_upto 200 = true.
Proof. vm_compute. reflexivity. Qed.

(** For a history of at most 200 books [round] raises for no category,
    and every percentage lies between 0 and 100. *)
Lemma percentage_defined (count total : nat) :
  0 < total ≤ 200 → count ≤ total →
  ∃ p, percentage count total = Some p ∧ (0 <= p <= 100)%Z.
Proof.
  intros Htotal Hcount.
  pose proof (percentages_ok_upto_spec 200 count total percentages_ok_computed
                Htotal Hcount) as Hok.
  unfold percentage_ok in Hok.
  destruct (percentage count total) as [p|]; [| done].
  exists p. split; [done |]. apply andb_true_iff in Hok as [H1 H2]. lia.
Qed.

Lemma count_category_le (cat : str) (history : list BookEntry) :
  count_category cat history ≤ length history.
Proof. unfold count_category. apply List.filter_length_le. Qed.

Lemma category_percentages_defined (history : list BookEntry) :
  length history ≤ 200 → ∃ ps, category_percentages history = Some ps.
Proof.
  intros Hlen. destruct (category_percentages history) as [ps|] eqn:Hps; [by exists ps |].
  exfalso. unfold category_percentages in Hps.
  rewrite category_stats_count_keys in Hps.
  destruct (count_keys_spec (map category history)) as (Hnd & Hkeys & Hget).
  destruct (percentages_of_none _ _ Hps) as (cat & n & Hin & Hnone).
  apply (counter_items _ cat n Hnd) in Hin as [Hk ->].
  rewrite Hget, occurrences_count_category in Hnone.
  assert (cat ∈ map category history) as Hcat by (by apply Hkeys).
  assert (0 < length history) as Hpos.
  { destruct history; [by apply elem_of_nil in Hcat | simpl; lia]. }
  destruct (percentage_defined (count_category cat history) (length history))
    as (p & Hp & _); [lia | apply count_category_le | congruence].
Qed.

(** C4 (as amended): when [round] raises for no category, as is the case
    for every history of at most 200 books, every category of the history
    has one percentage, which is [round(count / total * 100)] for its
    number of books over the length of the history, and every percentage
    the page displays, at most four of them, is the percentage of a
    category of the category table; otherwise [round] raises for one of the
    categories. Nothing bounds the sum of the percentages by 100. *)
Theorem category_percentages_rounded (cats : gmap str CategoryInfo)
    (history : list BookEntry) :
  (length history ≤ 200 → ∃ ps, category_percentages history = Some ps)
  ∧
  match category_percentages history with
  | Some ps =>
    NoDup (map fst ps)
    ∧ (∀ cat, cat ∈ map category history → ∃ p, (cat, p) ∈ ps)
    ∧ (∀ cat p, (cat, p) ∈ ps →
         cat ∈ map category history
         ∧ percentage (count_category cat history) (length history) = Some p)
    ∧ (∀ item, item ∈ legend_items cats ps →
         ∃ cat info, cats !! cat = Some info
           ∧ legend_name item = cat_name info
           ∧ percentage (count_category cat history) (length history)
             = Some (legend_percentage item))
    ∧ length (legend_items cats ps) ≤ 4
  | None =>
    ∃ cat, cat ∈ map category history
           ∧ percentage (count_category cat history) (length history) = None
  end.
Proof.
  split; [apply category_percentages_defined |].
  unfold category_percentages. rewrite category_stats_count_keys.
  destruct (count_keys_spec (map category history)) as (Hnd & Hkeys & Hget).
  set (items := count_keys (map category history)) in *.
  assert (∀ cat n, (cat, n) ∈ items →
            cat ∈ map category history ∧ n = count_category cat history) as Hitem.
  { intros cat n Hin. apply (counter_items items cat n Hnd) in Hin as [Hk ->].
    split; [by apply Hkeys |]. by rewrite Hget, occurrences_count_category. }
  destruct (percentages_of (length history) items) as [ps|] eqn:Hps.
  - destruct (percentages_of_some _ _ _ Hps) as [Hfst Hall].
    assert (∀ cat p, (cat, p) ∈ ps →
              cat ∈ map category history
              ∧ percentage (count_category cat history) (length history) = Some p)
      as Hvalue.
    { intros cat p Hin. destruct (Hall cat p Hin) as (n & Hn & Hp).
      destruct (Hitem cat n Hn) as [Hc ->]. done. }
    split_and!.
    + by rewrite Hfst.
    + intros cat Hcat. apply Hkeys in Hcat. rewrite <- Hfst in Hcat.
      apply list_elem_of_fmap in Hcat as ([c p] & -> & Hin). by exists p.
    + exact Hvalue.
    + intros item Hin. unfold legend_items in Hin.
      apply legend_loop_items in Hin as [Hin | (cat & info & Hc & Hin & Hname & _)].
      * by apply elem_of_nil in Hin.
      * exists cat, info. split_and!; [done | done |]. by apply Hvalue.
    + apply legend_loop_length. simpl. lia.
  - destruct (percentages_of_none _ _ Hps) as (cat & n & Hin & Hnone).
    destruct (Hitem cat n Hin) as [Hc ->]. by exists cat.
Qed.

Example sample_percentages :
  category_percentages sample_history
  = Some [(py "mathematics", 38%Z); (py "meteorology", 38%Z); (py "programming", 25%Z)].
Proof. vm_compute. reflexivity. Qed.

(** C4, the counterexample: three, three and two books of eight give the
    percentages 38, 38 and 25, all three displayed, whose sum is 101. *)
Lemma category_percentages_sum_above_100 :
  sample_history ≠ []
  ∧ ∃ ps, category_percentages sample_history = Some ps
          ∧ map legend_percentage (legend_items sample_categories ps) = map snd ps
          ∧ ¬ (total_percentage ps <= 100)%Z.
Proof.
  split; [discriminate |].
  eexists. split; [exact sample_percentages |].
  split; [vm_compute; reflexivity | vm_compute; intros H; apply H; reflexivity].
Qed.

Lemma category_percentages_rounded_witness :
  ∃ cat info, sample_categories !! cat = Some info
    ∧ py "Meteorology" = cat_name info
    ∧ percentage (count_category cat sample_history) (length sample_history)
      = Some 38%Z.
Proof.
  destruct (category_percentages_rounded sample_categories sample_history)
    as [_ H].
  rewrite sample_percentages in H.
  destruct H as (_ & _ & _ & H & _).
  apply (H {| legend_color := py "#000"; legend_name := py "Meteorology";
              legend_start := 38; legend_percentage := 38 |}).
  apply list_elem_of_In. vm_compute. right. left. reflexivity.
Defined.

(** ** Deduplication *)

Lemma drop_duplicates_from_sublist (seen : list Z) (df : DataFrame) :
  sublist (drop_duplicates_from seen df) df.
Proof.
  revert seen. induction df as [|row df IH]; intros seen; simpl.
  - constructor.
  - case_bool_decide; [apply sublist_cons | apply sublist_skip]; apply IH.
Qed.

Lemma drop_duplicates_from_first (seen : list Z) (df : DataFrame) (row : CheckoutRecord) :
  row ∈ df → book_id row ∉ seen →
  ∃ first, first_with_id (book_id row) df = Some first
           ∧ first ∈ drop_duplicates_from seen df.
Proof.
  unfold first_with_id.
  revert seen. induction df as [|r df IH]; intros seen Hin Hseen.
  - by apply elem_of_nil in Hin.
  - cbn [List.find drop_duplicates_from].
    destruct (Z.eqb_spec (book_id r) (book_id row)) as [Heq | Hne].
    + exists r. split; [done |].
      rewrite bool_decide_eq_false_2 by (by rewrite Heq). by left.
    + apply elem_of_cons in Hin as [-> | Hin]; [done |].
      case_bool_decide as Hr.
      * by apply IH.
      * destruct (IH (book_id r :: seen) Hin) as (first & Hf & Hfin).
        { intros [? | ?]%elem_of_cons; [congruence | done]. }
        exists first. split; [done | by right].
Qed.

Lemma drop_duplicates_from_kept (seen : list Z) (df : DataFrame) (row : CheckoutRecord) :
  row ∈ drop_duplicates_from seen df →
  first_with_id (book_id row) df = Some row ∧ book_id row ∉ seen.
Proof.
  unfold first_with_id.
  revert seen. induction df as [|r df IH]; intros seen; cbn [List.find drop_duplicates_from].
  - intros Hin. by apply elem_of_nil in Hin.
  - case_bool_decide as Hr.
    + intros Hin. destruct (IH seen Hin) as [Hf Hs]. split; [| done].
      destruct (Z.eqb_spec (book_id r) (book_id row)) as [Heq | Hne]; [| done].
      by rewrite Heq in Hr.
    + intros [-> | Hin]%elem_of_cons.
      * by rewrite Z.eqb_refl.
      * destruct (IH _ Hin) as [Hf Hs].
        apply not_elem_of_cons in Hs as [Hne Hs]. split; [| done].
        destruct (Z.eqb_spec (book_id r) (book_id row)) as [Heq | _]; [congruence | done].
Qed.

Lemma drop_duplicates_nonempty (row : CheckoutRecord) (df : DataFrame) :
  drop_duplicates (row :: df) = row :: drop_duplicates_from [book_id row] df.
Proof. reflexivity. Qed.

(** ** The profile builder and the store *)

Section ProfileFacts.
Variable lower : str -> str.
Variable keywords : list (str * list str).

Lemma add_book_entry_fold (rows : list CheckoutRecord) (h : Store)
    (rh : list ref) (cc : Counter) :
  fold_left (add_book_entry lower keywords) rows (h, rh, cc) =
    (h ++ map (book_entry_of lower keywords) rows,
     rh ++ seq (length h) (length rows),
     fold_left (fun c k => counter_incr k c)
               (map category (map (book_entry_of lower keywords) rows)) cc).
Proof.
  revert h rh cc. induction rows as [|row rows IH]; intros h rh cc.
  - simpl. by rewrite !app_nil_r.
  - cbn [fold_left map length seq].
    assert (add_book_entry lower keywords (h, rh, cc) row =
            (h ++ [book_entry_of lower keywords row], rh ++ [length h],
             counter_incr (category (book_entry_of lower keywords row)) cc)) as ->.
    { unfold add_book_entry, book_entry_of, alloc.
      by destruct (extract_book_info (title_author row)) as [t a]. }
    rewrite IH. rewrite length_app. cbn [length].
    rewrite <- !app_assoc. cbn [app].
    by replace (length h + 1) with (S (length h)) by lia.
Qed.

Lemma deref_fresh (h es : Store) :
  deref (h ++ es) (seq (length h) (length es)) = es.
Proof.
  unfold deref. revert h. induction es as [|e es IH]; intros h; [done |].
  cbn [length seq omap list_omap].
  rewrite lookup_app_r by lia. rewrite Nat.sub_diag. cbn.
  f_equal. specialize (IH (h ++ [e])).
  rewrite <- app_assoc, length_app in IH. cbn in IH.
  by replace (length h + 1) with (S (length h)) in IH by lia.
Qed.
End ProfileFacts.

Lemma lookup_map {A B : Type} (f : A -> B) (l : list A) (i : nat) :
  map f l !! i = f <$> (l !! i).
Proof. exact (list_lookup_fmap f l i). Qed.

Lemma store_progress_fresh (h : Store) (e : BookEntry) (es : Store) (v : float) :
  store_progress (length h) v (h ++ e :: es) = h ++ set_progress v e :: es.
Proof.
  unfold store_progress.
  rewrite lookup_app_r by lia. rewrite Nat.sub_diag. cbn [lookup list_lookup].
  rewrite insert_app_r_alt by lia. by rewrite Nat.sub_diag.
Qed.

Lemma create_user_profile_result (lower : str -> str) (current_year : Z)
    (self : MypageGenerator) (user_id name position avatar : str)
    (row : CheckoutRecord) (df : DataFrame) (h : Store) :
  let rows := drop_duplicates (row :: df) in
  let es := map (book_entry_of lower (category_keywords self)) rows in
  ∃ p,
    create_user_profile lower current_year self user_id name position avatar
      (row :: df) h
    = (Some p,
       h ++ set_progress default_progress
              (book_entry_of lower (category_keywords self) row) :: tail es)
    ∧ id p = user_id
    ∧ readingHistory p = seq (length h) (length es)
    ∧ currentReading p = Some (length h)
    ∧ specializations p =
        names_of (categories (users_data self))
                 (map fst (most_common 4 (count_keys (map category es))))
    ∧ totalBooks (stats p) = length rows
    ∧ thisYearBooks (stats p) = length (List.filter (in_year current_year) (row :: df)).
Proof.
  intros rows es. unfold create_user_profile.
  cbn [analyze_reading_patterns unique_books total_books this_year_books].
  fold rows. rewrite add_book_entry_fold. fold es. fold (count_keys (map category es)).
  cbn [app]. subst es rows. rewrite drop_duplicates_nonempty.
  cbn [map length seq head tail]. rewrite store_progress_fresh.
  eexists. split; [reflexivity |].
  cbn [id readingHistory currentReading specializations stats totalBooks thisYearBooks].
  by rewrite length_map.
Qed.

Lemma built_from_book_entry_of (lower : str -> str)
    (keywords : list (str * list str)) (row : CheckoutRecord) :
  built_from lower keywords row (book_entry_of lower keywords row).
Proof.
  unfold built_from, book_entry_of.
  by destruct (extract_book_info (title_author row)) as [t a].
Qed.

Lemma built_from_set_progress (lower : str -> str)
    (keywords : list (str * list str)) (row : CheckoutRecord) (e : BookEntry)
    (v : float) :
  built_from lower keywords row e → built_from lower keywords row (set_progress v e).
Proof. done. Qed.

Lemma progress_book_entry_of (lower : str -> str)
    (keywords : list (str * list str)) (row : CheckoutRecord) :
  progress (book_entry_of lower keywords row) = None.
Proof.
  unfold book_entry_of.
  by destruct (extract_book_info (title_author row)) as [t a].
Qed.

(** C7: for a table with at least one row the profile is built, and the
    rows behind its reading history are a subsequence of the table, in row
    order, with one row for each book id of the table, that row being the
    first row of the table with the id; the entries of the history are, in
    that order, the entries built from the data of those rows. *)
Theorem reading_history_first_rows (lower : str -> str) (current_year : Z)
    (self : MypageGenerator) (user_id name position avatar : str)
    (df : DataFrame) (h : Store) :
  df ≠ [] →
  ∃ p h' rows,
    create_user_profile lower current_year self user_id name position avatar df h
    = (Some p, h')
    ∧ sublist rows df
    ∧ NoDup (map book_id rows)
    ∧ (∀ row, row ∈ df →
         ∃ first, first_with_id (book_id row) df = Some first ∧ first ∈ rows)
    ∧ (∀ row, row ∈ rows → first_with_id (book_id row) df = Some row)
    ∧ length (readingHistory p) = length rows
    ∧ Forall2 (built_from lower (category_keywords self))
              rows (deref h' (readingHistory p)).
Proof.
  destruct df as [|row df]; [done | intros _].
  destruct (create_user_profile_result lower current_year self user_id name
              position avatar row df h)
    as (p & Hp & _ & Hrh & _).
  exists p. eexists. exists (drop_duplicates (row :: df)).
  split; [exact Hp |]. split_and!.
  - apply drop_duplicates_from_sublist.
  - destruct (drop_duplicates_from_ids [] (row :: df) (NoDup_nil_2)) as [Hnd _].
    by rewrite app_nil_r in Hnd.
  - intros r Hr. apply drop_duplicates_from_first; [done | apply not_elem_of_nil].
  - intros r Hr. by apply drop_duplicates_from_kept in Hr as [Hr _].
  - by rewrite Hrh, length_seq, length_map.
  - rewrite Hrh, drop_duplicates_nonempty. cbn [map tail length].
    set (es' := set_progress _ _ :: _).
    replace (S (length (map _ _))) with (length es')
      by (subst es'; cbn [length]; done).
    rewrite deref_fresh. subst es'. constructor.
    + apply built_from_set_progress, built_from_book_entry_of.
    + apply Forall2_fmap_r, Forall_Forall2_diag, Forall_forall.
      intros r _. apply built_from_book_entry_of.
Qed.

Lemma reading_history_first_rows_witness :
  ∃ p h' rows,
    create_user_profile ascii_lower 2025 sample_generator (py "amane")
      (py "Amane") (py "M2") (py "a.png") sample_df []
    = (Some p, h')
    ∧ sublist rows sample_df
    ∧ NoDup (map book_id rows)
    ∧ (∀ row, row ∈ sample_df →
         ∃ first, first_with_id (book_id row) sample_df = Some first ∧ first ∈ rows)
    ∧ (∀ row, row ∈ rows → first_with_id (book_id row) sample_df = Some row)
    ∧ length (readingHistory p) = length rows
    ∧ Forall2 (built_from ascii_lower (category_keywords sample_generator))
              rows (deref h' (readingHistory p)).
Proof. apply reading_history_first_rows. discriminate. Defined.

Example sample_profile_history :
  let '(p, h') :=
    create_user_profile ascii_lower 2025 sample_generator (py "amane")
      (py "Amane") (py "M2") (py "a.png") sample_df [] in
  ((fun q => totalBooks (stats q)) <$> p) = Some 2
  ∧ (specializations <$> p) = Some [py "Mathematics"; py "Programming"]
  ∧ map title h' = [py "数学入門"; py "Python入門"]
  ∧ map author h' = [py "Alice"; py "Carol"]
  ∧ map progress h' = [Some default_progress; None].
Proof. vm_compute. done. Qed.

(** C10: for a table with at least one row, [currentReading] is the very
    reference that heads [readingHistory]; the entry it refers to carries
    the constant progress value, so the first entry of the history carries
    it too, while no later entry of the history has a progress field; the
    later references differ from the first, and the objects that existed
    before the call are unchanged. *)
Theorem current_reading_aliases_first_entry (lower : str -> str) (current_year : Z)
    (self : MypageGenerator) (user_id name position avatar : str)
    (df : DataFrame) (h : Store) :
  df ≠ [] →
  ∃ p h' r rest,
    create_user_profile lower current_year self user_id name position avatar df h
    = (Some p, h')
    ∧ currentReading p = Some r
    ∧ readingHistory p = r :: rest
    ∧ (r ∉ rest)
    ∧ (∃ e, h' !! r = Some e ∧ progress e = Some default_progress)
    ∧ (∀ r', r' ∈ rest → ∃ e, h' !! r' = Some e ∧ progress e = None)
    ∧ (∀ i, i < length h → h' !! i = h !! i).
Proof.
  destruct df as [|row df]; [done | intros _].
  destruct (create_user_profile_result lower current_year self user_id name
              position avatar row df h)
    as (p & Hp & _ & Hrh & Hcr & _).
  rewrite drop_duplicates_nonempty in Hp, Hrh. cbn [map tail length seq] in Hp, Hrh.
  exists p. eexists. exists (length h). eexists.
  split; [exact Hp |]. split; [exact Hcr |]. split; [exact Hrh |]. split_and!.
  - rewrite elem_of_seq. lia.
  - exists (set_progress default_progress
              (book_entry_of lower (category_keywords self) row)).
    split; [| reflexivity].
    rewrite lookup_app_r by lia. by rewrite Nat.sub_diag.
  - intros r' Hr'. apply elem_of_seq in Hr' as [Hlo Hhi].
    rewrite length_map in Hhi.
    rewrite lookup_app_r by lia.
    replace (r' - length h) with (S (r' - S (length h))) by lia.
    cbn [lookup list_lookup].
    destruct (lookup_lt_is_Some_2 (drop_duplicates_from [book_id row] df)
                (r' - S (length h))) as [row' Hrow']; [lia |].
    exists (book_entry_of lower (category_keywords self) row'). split.
    + etrans; [apply lookup_map | by rewrite Hrow'].
    + apply progress_book_entry_of.
  - intros i Hi. by apply lookup_app_l.
Qed.

Lemma current_reading_aliases_first_entry_witness :
  ∃ p h' r rest,
    create_user_profile ascii_lower 2025 sample_generator (py "amane")
      (py "Amane") (py "M2") (py "a.png") sample_df []
    = (Some p, h')
    ∧ currentReading p = Some r
    ∧ readingHistory p = r :: rest
    ∧ (r ∉ rest)
    ∧ (∃ e, h' !! r = Some e ∧ progress e = Some default_progress)
    ∧ (∀ r', r' ∈ rest → ∃ e, h' !! r' = Some e ∧ progress e = None)
    ∧ (∀ i, i < length (@nil BookEntry) → h' !! i = (@nil BookEntry) !! i).
Proof. apply current_reading_aliases_first_entry. discriminate. Defined.

(** ** Ranking the categories *)

Lemma first_index_lt (k : str) (l : list str) :
  k ∈ l → first_index k l < length l.
Proof.
  induction l as [|x l IH]; intros Hin; [by apply elem_of_nil in Hin |].
  simpl. case_bool_decide as Hx; [lia |].
  apply elem_of_cons in Hin as [-> | Hin]; [done |]. specialize (IH Hin). lia.
Qed.

Lemma first_index_snoc_old (k x : str) (l : list str) :
  k ∈ l → first_index k (l ++ [x]) = first_index k l.
Proof.
  induction l as [|y l IH]; intros Hin; [by apply elem_of_nil in Hin |].
  simpl. case_bool_decide as Hy; [done |].
  apply elem_of_cons in Hin as [-> | Hin]; [done |]. by rewrite IH.
Qed.

Lemma first_index_snoc_new (k : str) (l : list str) :
  k ∉ l → first_index k (l ++ [k]) = length l.
Proof.
  induction l as [|y l IH]; intros Hin; simpl.
  - by rewrite bool_decide_eq_true_2.
  - apply not_elem_of_cons in Hin as [Hne Hin].
    rewrite bool_decide_eq_false_2 by done. by rewrite IH.
Qed.

(** The keys of a counter stand in the order of their first occurrence. *)
Lemma count_keys_order (l : list str) (i j : nat) (a b : str) :
  i < j →
  map fst (count_keys l) !! i = Some a →
  map fst (count_keys l) !! j = Some b →
  first_index a l < first_index b l.
Proof.
  revert i j a b. induction l as [|x l IH] using rev_ind; intros i j a b Hij Ha Hb.
  - done.
  - destruct (count_keys_spec l) as (Hnd & Hkeys & _).
    rewrite count_keys_snoc, counter_incr_keys in Ha, Hb.
    destruct (decide (x ∈ map fst (count_keys l))) as [Hin | Hin].
    + rewrite bool_decide_eq_true_2 in Ha, Hb by done.
      assert (a ∈ l) by (apply Hkeys, list_elem_of_lookup; eauto).
      assert (b ∈ l) by (apply Hkeys, list_elem_of_lookup; eauto).
      rewrite !first_index_snoc_old by done. by apply (IH i j).
    + rewrite bool_decide_eq_false_2 in Ha, Hb by done.
      assert (i < length (map fst (count_keys l))) as Hi.
      { apply lookup_lt_Some in Hb. rewrite length_app in Hb. simpl in Hb. lia. }
      rewrite lookup_app_l in Ha by done.
      assert (a ∈ l) as Hal by (apply Hkeys, list_elem_of_lookup; eauto).
      rewrite (first_index_snoc_old a) by done.
      destruct (decide (j < length (map fst (count_keys l)))) as [Hj | Hj].
      * rewrite lookup_app_l in Hb by done.
        assert (b ∈ l) by (apply Hkeys, list_elem_of_lookup; eauto).
        rewrite first_index_snoc_old by done. by apply (IH i j).
      * rewrite lookup_app_r in Hb by lia.
        apply list_lookup_singleton_Some in Hb as [_ <-].
        rewrite first_index_snoc_new by (by rewrite <- Hkeys).
        by apply first_index_lt.
Qed.

Lemma insert_desc_perm (x : str * nat) (s : Counter) :
  insert_desc x s ≡ₚ x :: s.
Proof.
  induction s as [|y s IH]; simpl; [done |].
  destruct (snd y <=? snd x); [done |].
  rewrite IH. apply Permutation_swap.
Qed.

Lemma sorted_desc_perm (c : Counter) : sorted_desc c ≡ₚ c.
Proof.
  induction c as [|x c IH]; simpl; [done |].
  by rewrite insert_desc_perm, IH.
Qed.

Section StableSort.
Variable before : str * nat -> str * nat -> Prop.

Lemma insert_desc_sorted (x : str * nat) (s : Counter) :
  StronglySorted (count_order_by before) s →
  (∀ y, y ∈ s → before x y) →
  StronglySorted (count_order_by before) (insert_desc x s).
Proof.
  induction s as [|y s IH]; intros Hs Hx; simpl.
  - repeat constructor.
  - apply StronglySorted_inv in Hs as [Hs Hy].
    destruct (Nat.leb_spec (snd y) (snd x)) as [Hle | Hgt].
    + constructor; [by constructor |].
      apply Forall_forall. intros z Hz.
      assert (snd z ≤ snd x) as Hzx.
      { apply elem_of_cons in Hz as [-> | Hz]; [done |].
        rewrite Forall_forall in Hy. apply Hy in Hz.
        destruct Hz as [? | [? _]]; lia. }
      destruct (decide (snd z = snd x)) as [Heq | Hne].
      * right. split; [done | by apply Hx].
      * left. lia.
    + constructor.
      * apply IH; [done |]. intros z Hz. apply Hx. by right.
      * apply Forall_forall. intros z Hz.
        rewrite insert_desc_perm in Hz.
        apply elem_of_cons in Hz as [-> | Hz]; [left; lia |].
        rewrite Forall_forall in Hy. by apply Hy.
Qed.
End StableSort.

Lemma count_order_cons (x : str * nat) (c : Counter) (s : Counter) :
  StronglySorted (count_order c) s → StronglySorted (count_order (x :: c)) s.
Proof.
  induction 1 as [|y s Hs IH Hy]; constructor; [done |].
  eapply Forall_impl; [exact Hy |].
  intros z [Hlt | [Heq (i & j & Hij & Hi & Hj)]]; [by left |].
  right. split; [done |]. exists (S i), (S j). split_and!; [lia | done | done].
Qed.

Lemma sorted_desc_sorted (c : Counter) :
  StronglySorted (count_order c) (sorted_desc c).
Proof.
  induction c as [|x c IH]; simpl; [constructor |].
  apply insert_desc_sorted; [by apply count_order_cons |].
  intros y Hy. rewrite sorted_desc_perm in Hy.
  apply list_elem_of_lookup in Hy as [j Hj].
  exists 0, (S j). split_and!; [lia | done | done].
Qed.

Lemma strongly_sorted_lookup {A : Type} (R : A -> A -> Prop) (s : list A)
    (i j : nat) (a b : A) :
  StronglySorted R s → i < j → s !! i = Some a → s !! j = Some b → R a b.
Proof.
  intros Hs. revert i j. induction Hs as [|y s Hs IH Hy]; intros i j Hij Hi Hj.
  - done.
  - destruct j as [|j]; [lia |]. simpl in Hj. destruct i as [|i].
    + injection Hi as ->. rewrite Forall_forall in Hy.
      apply Hy, list_elem_of_lookup. eauto.
    + simpl in Hi. apply (IH i j); [lia | done | done].
Qed.

(** An item of a counter of [l] that ranks before another by
    [count_order] ranks before it by count and first occurrence. *)
Lemma count_order_ranks (l : list str) (x y : str * nat) :
  x ∈ count_keys l → y ∈ count_keys l →
  count_order (count_keys l) x y →
  ranks_before l (fst x) (fst y).
Proof.
  destruct (count_keys_spec l) as (Hnd & Hkeys & Hget).
  destruct x as [a na], y as [b nb]. intros Hx Hy Hxy.
  apply (counter_items _ _ _ Hnd) in Hx as [_ ->].
  apply (counter_items _ _ _ Hnd) in Hy as [_ ->].
  rewrite !Hget in Hxy. unfold ranks_before. cbn [fst snd] in *.
  destruct Hxy as [Hlt | [Heq (i & j & Hij & Hi & Hj)]]; [by left |].
  right. split; [done |].
  apply (count_keys_order l i j); [done | |].
  - etrans; [apply lookup_map |]. by rewrite Hi.
  - etrans; [apply lookup_map |]. by rewrite Hj.
Qed.

Lemma names_of_omap (cats : gmap str CategoryInfo) (top : list str) :
  names_of cats top = omap (fun c => cat_name <$> cats !! c) top.
Proof.
  induction top as [|c top IH]; [done |].
  cbn [names_of omap list_omap]. destruct (cats !! c); cbn; by rewrite IH.
Qed.

Lemma names_of_length (cats : gmap str CategoryInfo) (top : list str) :
  length (names_of cats top) ≤ length top.
Proof.
  induction top as [|c top IH]; simpl; [done |].
  destruct (cats !! c); simpl; lia.
Qed.

(** The ranking that [most_common] computes on the counter of a list. *)
Lemma most_common_ranking (n : nat) (l : list str) :
  let top := map fst (most_common n (count_keys l)) in
  length top ≤ n
  ∧ NoDup top
  ∧ (∀ c, c ∈ top → c ∈ l)
  ∧ (∀ i j a b, i < j → top !! i = Some a → top !! j = Some b →
                ranks_before l a b)
  ∧ (∀ c, c ∈ l → c ∉ top →
          length top = n ∧ ∀ t, t ∈ top → ranks_before l t c).
Proof.
  intros top. subst top. unfold most_common.
  destruct (count_keys_spec l) as (Hnd & Hkeys & Hget).
  pose proof (sorted_desc_perm (count_keys l)) as Hperm.
  pose proof (sorted_desc_sorted (count_keys l)) as Hsorted.
  set (s := sorted_desc (count_keys l)) in *.
  assert (∀ i x, s !! i = Some x → x ∈ count_keys l) as Hmem.
  { intros i x Hi. rewrite <- Hperm. apply list_elem_of_lookup. eauto. }
  assert (∀ i j x y, i < j → s !! i = Some x → s !! j = Some y →
            ranks_before l (fst x) (fst y)) as Hrank.
  { intros i j x y Hij Hi Hj. apply count_order_ranks; [by eapply Hmem.. |].
    by apply (strongly_sorted_lookup _ s i j). }
  assert (∀ i a, map fst (take n s) !! i = Some a →
            i < n ∧ ∃ x, s !! i = Some x ∧ fst x = a) as Htop.
  { intros i a Hi.
    assert (map fst (take n s) !! i = fst <$> (take n s !! i)) as Hm
      by apply lookup_map.
    rewrite Hm in Hi. apply fmap_Some in Hi as (x & Hx & ->).
    apply lookup_take_Some in Hx as [Hx Hlt]. split; [done | by exists x]. }
  split_and!.
  - rewrite length_map, length_take. lia.
  - assert (map fst (take n s) `sublist_of` map fst s) as Hsub
      by apply (fmap_sublist fst (take n s) s), sublist_take.
    assert (map fst s ≡ₚ map fst (count_keys l)) as Hp
      by apply (fmap_Permutation fst _ _ Hperm).
    apply (sublist_NoDup _ (map fst s)); [by rewrite Hp | exact Hsub].
  - intros c Hc. apply list_elem_of_lookup in Hc as [i Hi].
    apply Htop in Hi as (_ & x & Hx & <-).
    apply Hkeys. apply (list_elem_of_fmap_2 fst (count_keys l) x). by eapply Hmem.
  - intros i j a b Hij Ha Hb.
    apply Htop in Ha as (_ & x & Hx & <-). apply Htop in Hb as (_ & y & Hy & <-).
    by apply (Hrank i j).
  - intros c Hc Hnot.
    apply Hkeys in Hc. apply list_elem_of_fmap in Hc as (y & -> & Hy).
    rewrite <- Hperm in Hy. apply list_elem_of_lookup in Hy as [m Hm].
    assert (n ≤ m) as Hnm.
    { destruct (decide (m < n)) as [Hlt | ?]; [| lia].
      exfalso. apply Hnot.
      apply (list_elem_of_fmap_2 fst (take n s) y).
      apply list_elem_of_lookup. exists m. by rewrite lookup_take_lt. }
    split.
    + rewrite length_map, length_take. apply lookup_lt_Some in Hm. lia.
    + intros t Ht. apply list_elem_of_lookup in Ht as [i Hi].
      apply Htop in Hi as (Hlt & x & Hx & <-).
      apply (Hrank i m); [lia | done | done].
Qed.

(** C5: for a table with at least one row, [specializations] lists, in
    order, the display names of those of the top categories that the
    category table knows, categories it does not know being skipped; the
    top categories are at most four distinct categories of the history,
    each ranking before the next, and before every category left out, by
    number of occurrences and, for equal numbers, by first occurrence. *)
Theorem specializations_top_categories (lower : str -> str) (current_year : Z)
    (self : MypageGenerator) (user_id name position avatar : str)
    (df : DataFrame) (h : Store) :
  df ≠ [] →
  ∃ p h' top,
    create_user_profile lower current_year self user_id name position avatar df h
    = (Some p, h')
    ∧ specializations p =
        omap (fun c => cat_name <$> categories (users_data self) !! c) top
    ∧ length (specializations p) ≤ 4
    ∧ length top ≤ 4
    ∧ NoDup top
    ∧ (∀ c, c ∈ top → c ∈ map category (deref h' (readingHistory p)))
    ∧ (∀ i j a b, i < j → top !! i = Some a → top !! j = Some b →
         ranks_before (map category (deref h' (readingHistory p))) a b)
    ∧ (∀ c, c ∈ map category (deref h' (readingHistory p)) → c ∉ top →
         length top = 4
         ∧ ∀ t, t ∈ top →
             ranks_before (map category (deref h' (readingHistory p))) t c).
Proof.
  destruct df as [|row df]; [done | intros _].
  destruct (create_user_profile_result lower current_year self user_id name
              position avatar row df h)
    as (p & Hp & _ & Hrh & _ & Hspec & _).
  set (es := map (book_entry_of lower (category_keywords self))
                 (drop_duplicates (row :: df))) in *.
  set (h' := h ++ _) in Hp.
  assert (map category (deref h' (readingHistory p)) = map category es) as Hcats.
  { subst h' es. rewrite Hrh, drop_duplicates_nonempty. cbn [map tail length].
    set (es' := set_progress _ _ :: _).
    replace (S (length (map _ _))) with (length es')
      by (subst es'; cbn [length]; done).
    by rewrite deref_fresh. }
  destruct (most_common_ranking 4 (map category es))
    as (Hlen & Hnd & Hin & Hord & Hout).
  exists p, h', (map fst (most_common 4 (count_keys (map category es)))).
  rewrite Hcats, Hspec. split_and!; try done.
  - apply names_of_omap.
  - etrans; [apply names_of_length | done].
Qed.

Lemma specializations_top_categories_witness :
  ∃ p h' top,
    create_user_profile ascii_lower 2025 sample_generator (py "amane")
      (py "Amane") (py "M2") (py "a.png") sample_df []
    = (Some p, h')
    ∧ specializations p =
        omap (fun c => cat_name <$> categories (users_data sample_generator) !! c) top
    ∧ length (specializations p) ≤ 4
    ∧ length top ≤ 4
    ∧ NoDup top
    ∧ (∀ c, c ∈ top → c ∈ map category (deref h' (readingHistory p)))
    ∧ (∀ i j a b, i < j → top !! i = Some a → top !! j = Some b →
         ranks_before (map category (deref h' (readingHistory p))) a b)
    ∧ (∀ c, c ∈ map category (deref h' (readingHistory p)) → c ∉ top →
         length top = 4
         ∧ ∀ t, t ∈ top →
             ranks_before (map category (deref h' (readingHistory p))) t c).
Proof. apply specializations_top_categories. discriminate. Defined.

Example most_common_ties_keep_first_order :
  map fst (most_common 2
    (count_keys [py "b"; py "a"; py "c"; py "a"; py "c"; py "d"]))
  = [py "a"; py "c"].
Proof. vm_compute. reflexivity. Qed.

Example specializations_skip_unmapped :
  names_of sample_categories
    [py "other"; py "mathematics"; py "control-theory"; py "programming"]
  = [py "Mathematics"; py "Programming"].
Proof. vm_compute. reflexivity. Qed.

(** ** The edge inference *)

Section NetworkFacts.
Variable set_iter : gset str -> list str.

Lemma connect_step_connects (p : UserProfile) (ex : list (str * str))
    (es : list Edge) (o : UserProfile) :
  connect_step set_iter p ex es o =
    if connects p ex o then es ++ [new_edge set_iter p o] else es.
Proof.
  unfold connect_step, connects.
  destruct (bool_decide (id o = id p)); [done |].
  destruct (bool_decide (common_fields p o = ∅)); [done |].
  by destruct (bool_decide ((id p, id o) ∉ ex)),
              (bool_decide ((id o, id p) ∉ ex)).
Qed.

Lemma connect_fold (p : UserProfile) (ex : list (str * str))
    (us : list UserProfile) (es : list Edge) :
  fold_left (connect_step set_iter p ex) us es =
    es ++ map (new_edge set_iter p) (List.filter (connects p ex) us).
Proof.
  revert es. induction us as [|o us IH]; intros es; simpl.
  - by rewrite app_nil_r.
  - rewrite IH, connect_step_connects.
    destruct (connects p ex o); [| done].
    by rewrite <- app_assoc.
Qed.

Lemma edges_of_update_network_data (d : Registry) (p : UserProfile) :
  edges_of (update_network_data set_iter d p) =
    edges_of d
    ++ map (new_edge set_iter p)
           (List.filter (connects p (edge_pairs (edges_of d))) (users d)).
Proof.
  unfold update_network_data, edges_of at 1. cbn [network default edges].
  unfold create_user_connections. cbn [edges].
  by rewrite connect_fold.
Qed.

Lemma users_update_network_data (d : Registry) (p : UserProfile) :
  users (update_network_data set_iter d p) = users d.
Proof. reflexivity. Qed.
End NetworkFacts.

Lemma elem_of_list_filter_bool {A : Type} (f : A -> bool) (l : list A) (x : A) :
  x ∈ List.filter f l ↔ x ∈ l ∧ f x = true.
Proof. by rewrite !list_elem_of_In, filter_In. Qed.

Lemma list_filter_sublist {A : Type} (f : A -> bool) (l : list A) :
  List.filter f l `sublist_of` l.
Proof.
  induction l as [|x l IH]; simpl; [constructor |].
  destruct (f x); [by apply sublist_skip | by apply sublist_cons].
Qed.

Lemma list_filter_map {A B : Type} (f : B -> bool) (g : A -> B) (l : list A) :
  List.filter f (map g l) = map g (List.filter (fun x => f (g x)) l).
Proof.
  induction l as [|x l IH]; simpl; [done |].
  destruct (f (g x)); simpl; by rewrite IH.
Qed.

Lemma all_equal_short {A : Type} (l : list A) :
  NoDup l → (∀ x y, x ∈ l → y ∈ l → x = y) → length l ≤ 1.
Proof.
  destruct l as [|x [|y l]]; simpl; [lia | lia |].
  intros Hnd Heq. exfalso.
  apply NoDup_cons in Hnd as [Hx _]. apply Hx.
  rewrite (Heq x y); [by left | by left | by right; left].
Qed.

Lemma same_id_same_user (us : list UserProfile) (u v : UserProfile) :
  NoDup (map id us) → u ∈ us → v ∈ us → id u = id v → u = v.
Proof.
  intros Hnd Hu Hv Hid.
  apply list_elem_of_lookup in Hu as [i Hi]. apply list_elem_of_lookup in Hv as [j Hj].
  assert (i = j) as ->.
  { apply (NoDup_lookup (map id us) i j (id u)); [done | |].
    - etrans; [apply lookup_map |]. by rewrite Hi.
    - etrans; [apply lookup_map |]. by rewrite Hj, Hid. }
  congruence.
Qed.

Lemma replace_user_ids (p : UserProfile) (us : list UserProfile) :
  map id (replace_user p us) = map id us.
Proof.
  induction us as [|u us IH]; simpl; [done |].
  case_bool_decide as Hu; simpl; [by rewrite Hu | by rewrite IH].
Qed.

Lemma replace_user_elem (p : UserProfile) (us : list UserProfile) (u : UserProfile) :
  u ∈ replace_user p us → u = p ∨ u ∈ us.
Proof.
  induction us as [|u0 us IH]; simpl.
  - intros H. by apply elem_of_nil in H.
  - case_bool_decide as Hu0.
    + intros [-> | Hin]%elem_of_cons; [by left | right; by right].
    + intros [-> | Hin]%elem_of_cons; [right; by left |].
      destruct (IH Hin) as [-> | Hus]; [by left | right; by right].
Qed.

Lemma replace_user_has (p : UserProfile) (us : list UserProfile) :
  id p ∈ map id us → p ∈ replace_user p us.
Proof.
  induction us as [|u0 us IH]; simpl.
  - intros H. by apply elem_of_nil in H.
  - case_bool_decide as Hu0; [intros _; by left |].
    intros [Heq | Hin]%elem_of_cons; [congruence | right; by apply IH].
Qed.

Lemma replace_user_idem (p : UserProfile) (us : list UserProfile) :
  replace_user p (replace_user p us) = replace_user p us.
Proof.
  induction us as [|u0 us IH]; simpl; [done |].
  case_bool_decide as Hu0; simpl.
  - by rewrite bool_decide_eq_true_2.
  - by rewrite bool_decide_eq_false_2, IH.
Qed.

Lemma replace_user_appended (p : UserProfile) (us : list UserProfile) :
  id p ∉ map id us → replace_user p (us ++ [p]) = us ++ [p].
Proof.
  induction us as [|u0 us IH]; simpl; intros Hnot.
  - by rewrite bool_decide_eq_true_2.
  - apply not_elem_of_cons in Hnot as [Hne Hnot].
    rewrite bool_decide_eq_false_2 by done. by rewrite IH.
Qed.

Section InferenceFacts.
Variable set_iter : gset str -> list str.

Lemma users_add_elem (d : Registry) (p u : UserProfile) :
  u ∈ users (add_user_to_database set_iter d p) → u = p ∨ u ∈ users d.
Proof.
  rewrite users_add_user_to_database. case_bool_decide.
  - apply replace_user_elem.
  - intros [Hin | ->%list_elem_of_singleton]%elem_of_app; [by right | by left].
Qed.

Lemma users_add_has (d : Registry) (p : UserProfile) :
  p ∈ users (add_user_to_database set_iter d p).
Proof.
  rewrite users_add_user_to_database. case_bool_decide.
  - by apply replace_user_has.
  - apply elem_of_app. right. by left.
Qed.

Lemma users_add_ids (d : Registry) (p : UserProfile) :
  map id (users (add_user_to_database set_iter d p)) =
    if bool_decide (id p ∈ map id (users d)) then map id (users d)
    else map id (users d) ++ [id p].
Proof.
  rewrite users_add_user_to_database. case_bool_decide.
  - apply replace_user_ids.
  - by rewrite map_app.
Qed.

Lemma users_add_nodup (d : Registry) (p : UserProfile) :
  NoDup (map id (users d)) →
  NoDup (map id (users (add_user_to_database set_iter d p))).
Proof.
  intros Hnd. rewrite users_add_ids. case_bool_decide as Hin; [done |].
  apply NoDup_app. split_and!; [done | | apply NoDup_singleton].
  intros x Hx ->%list_elem_of_singleton. done.
Qed.

Lemma edges_of_add (d : Registry) (p : UserProfile) :
  edges_of (add_user_to_database set_iter d p) =
    edges_of d
    ++ map (new_edge set_iter p)
           (List.filter (connects p (edge_pairs (edges_of d)))
                        (users (add_user_to_database set_iter d p))).
Proof.
  unfold add_user_to_database at 1.
  rewrite edges_of_update_network_data. reflexivity.
Qed.

Lemma edge_between_new_edge (a b : str) (p o : UserProfile) :
  edge_between a b (new_edge set_iter p o)
  ↔ (id p = a ∧ id o = b) ∨ (id p = b ∧ id o = a).
Proof. reflexivity. Qed.

Lemma edge_between_sym (a b : str) (e : Edge) :
  edge_between a b e ↔ edge_between b a e.
Proof. unfold edge_between. tauto. Qed.

Lemma edges_between_app (a b : str) (es1 es2 : list Edge) :
  edges_between a b (es1 ++ es2) = edges_between a b es1 ++ edges_between a b es2.
Proof. apply List.filter_app. Qed.

Lemma elem_of_edges_between (a b : str) (es : list Edge) (e : Edge) :
  e ∈ edges_between a b es ↔ e ∈ es ∧ edge_between a b e.
Proof.
  unfold edges_between. rewrite elem_of_list_filter_bool.
  by rewrite bool_decide_eq_true.
Qed.

Lemma elem_of_edge_pairs (es : list Edge) (e : Edge) :
  e ∈ es → (edge_from e, edge_to e) ∈ edge_pairs es.
Proof.
  intros He.
  apply (list_elem_of_fmap_2 (fun e => (edge_from e, edge_to e)) es e He).
Qed.

Lemma connects_true (p : UserProfile) (ex : list (str * str)) (o : UserProfile) :
  connects p ex o = true ↔
    id o ≠ id p ∧ common_fields p o ≠ ∅
    ∧ ((id p, id o) ∉ ex) ∧ ((id o, id p) ∉ ex).
Proof.
  unfold connects.
  rewrite !andb_true_iff, !negb_true_iff, !bool_decide_eq_false, !bool_decide_eq_true.
  tauto.
Qed.
End InferenceFacts.

Section InferenceInvariant.
Variable set_iter : gset str -> list str.

Lemma common_fields_comm (u v : UserProfile) :
  common_fields u v = common_fields v u.
Proof. unfold common_fields. apply set_eq. intros x. rewrite !elem_of_intersection. tauto. Qed.

(** The edges appended for one unordered pair are at most one. *)
Lemma new_edges_between_short (p : UserProfile) (a b : str)
    (us : list UserProfile) (ex : list (str * str)) :
  NoDup (map id us) →
  length (edges_between a b
            (map (new_edge set_iter p) (List.filter (connects p ex) us))) ≤ 1.
Proof.
  intros Hnd. unfold edges_between. rewrite list_filter_map, length_map.
  set (L := List.filter _ (List.filter _ us)).
  assert (L `sublist_of` us) as Hsub.
  { subst L. etrans; apply list_filter_sublist. }
  assert (∀ o, o ∈ L → id o ≠ id p
                       ∧ ((id p = a ∧ id o = b) ∨ (id p = b ∧ id o = a))) as HL.
  { intros o Ho. subst L.
    apply elem_of_list_filter_bool in Ho as [Ho Hbt].
    apply elem_of_list_filter_bool in Ho as [_ Hc].
    apply connects_true in Hc as (Hne & _).
    apply bool_decide_eq_true in Hbt. by split. }
  rewrite <- (length_map id L).
  apply all_equal_short.
  - apply (sublist_NoDup _ (map id us)); [done |].
    by apply (fmap_sublist id L us).
  - intros x y Hx Hy.
    apply (list_elem_of_fmap_1 id) in Hx as (o1 & -> & Ho1).
    apply (list_elem_of_fmap_1 id) in Hy as (o2 & -> & Ho2).
    destruct (HL o1 Ho1) as [Hn1 H1], (HL o2 Ho2) as [Hn2 H2].
    destruct H1 as [[? ?] | [? ?]], H2 as [[? ?] | [? ?]]; congruence.
Qed.

(** A pair that gets a new edge had no edge. *)
Lemma new_edge_pair_fresh (p o : UserProfile) (a b : str) (es : list Edge) :
  connects p (edge_pairs es) o = true →
  edge_between a b (new_edge set_iter p o) →
  edges_between a b es = [].
Proof.
  intros Hc Hb. apply connects_true in Hc as (_ & _ & Hpo & Hop).
  apply edge_between_new_edge in Hb.
  destruct (edges_between a b es) as [|e0 rest] eqn:Heb; [done |].
  exfalso.
  assert (e0 ∈ edges_between a b es) as He0 by (rewrite Heb; by left).
  apply elem_of_edges_between in He0 as [Hin He0].
  apply elem_of_edge_pairs in Hin.
  destruct Hb as [[<- <-] | [<- <-]], He0 as [[H1 H2] | [H1 H2]];
    rewrite H1, H2 in Hin; done.
Qed.

Lemma registry_inv_add (d : Registry) (p : UserProfile) :
  registry_inv d → registry_inv (add_user_to_database set_iter d p).
Proof.
  intros (Hnd & Huniq & Hex).
  pose proof (users_add_nodup set_iter d p Hnd) as Hnd'.
  split_and!.
  - done.
  - intros a b. rewrite edges_of_add, edges_between_app, length_app.
    set (N := map _ (List.filter _ _)).
    pose proof (new_edges_between_short p a b _ (edge_pairs (edges_of d)) Hnd')
      as Hshort. fold N in Hshort.
    destruct (edges_between a b N) as [|e rest] eqn:HN.
    + specialize (Huniq a b). simpl. lia.
    + assert (e ∈ edges_between a b N) as He by (rewrite HN; by left).
      apply elem_of_edges_between in He as [HeN Hbt]. subst N.
      apply (list_elem_of_fmap_1 (new_edge set_iter p)) in HeN as (o & -> & Ho).
      apply elem_of_list_filter_bool in Ho as [_ Hc].
      rewrite (new_edge_pair_fresh p o a b _ Hc Hbt). simpl in *. lia.
  - assert (∀ o, o ∈ users (add_user_to_database set_iter d p) →
              id o ≠ id p → common_fields p o ≠ ∅ →
              ∃ e, e ∈ edges_of (add_user_to_database set_iter d p)
                   ∧ edge_between (id p) (id o) e) as Hp.
    { intros o Ho Hne Hcf. rewrite edges_of_add.
      destruct (connects p (edge_pairs (edges_of d)) o) eqn:Hc.
      - exists (new_edge set_iter p o). split.
        + apply elem_of_app. right.
          apply (list_elem_of_fmap_2 (new_edge set_iter p)).
          by apply elem_of_list_filter_bool.
        + apply edge_between_new_edge. by left.
      - assert (¬ (((id p, id o) ∉ edge_pairs (edges_of d))
                   ∧ ((id o, id p) ∉ edge_pairs (edges_of d)))) as Hsome.
        { intros [H1 H2].
          assert (connects p (edge_pairs (edges_of d)) o = true)
            by (by apply connects_true).
          congruence. }
        assert ((id p, id o) ∈ edge_pairs (edges_of d)
                ∨ (id o, id p) ∈ edge_pairs (edges_of d)) as Hpair.
        { destruct (decide ((id p, id o) ∈ edge_pairs (edges_of d))); [by left |].
          destruct (decide ((id o, id p) ∈ edge_pairs (edges_of d))); [by right |].
          exfalso. by apply Hsome. }
        destruct Hpair as [Hpair | Hpair];
          apply (list_elem_of_fmap_1 (fun e => (edge_from e, edge_to e)))
            in Hpair as (e & [= H1 H2] & He);
          exists e; (split; [apply elem_of_app; by left |]).
        + by left.
        + by right. }
    intros u v Hu Hv Hne Hcf.
    destruct (decide (id u = id p)) as [Hup | Hup].
    + assert (u = p) as -> by
        (apply (same_id_same_user _ _ _ Hnd' Hu (users_add_has set_iter d p) Hup)).
      by apply Hp.
    + destruct (decide (id v = id p)) as [Hvp | Hvp].
      * assert (v = p) as -> by
          (apply (same_id_same_user _ _ _ Hnd' Hv (users_add_has set_iter d p) Hvp)).
        destruct (Hp u Hu Hup) as (e & He & Hbt).
        { by rewrite common_fields_comm. }
        exists e. split; [done | by apply edge_between_sym].
      * apply users_add_elem in Hu as [-> | Hu]; [done |].
        apply users_add_elem in Hv as [-> | Hv]; [done |].
        destruct (Hex u v Hu Hv Hne Hcf) as (e & He & Hbt).
        exists e. split; [| done]. rewrite edges_of_add. apply elem_of_app. by left.
Qed.
End InferenceInvariant.

Section InferenceRuns.
Variable set_iter : gset str -> list str.

Lemma registry_inv_empty : registry_inv empty_document.
Proof.
  split_and!.
  - constructor.
  - intros a b. simpl. lia.
  - intros u v Hu. by apply elem_of_nil in Hu.
Qed.

Lemma registry_inv_upsert_all (ps : list UserProfile) (d : Registry) :
  registry_inv d → registry_inv (upsert_all set_iter ps d).
Proof.
  revert d. induction ps as [|p ps IH]; intros d Hd; [done |].
  apply IH. by apply registry_inv_add.
Qed.

(** Running the upsert of a profile a second time changes neither the
    users nor the edges. *)
Lemma add_user_to_database_again (d : Registry) (p : UserProfile) :
  let d1 := add_user_to_database set_iter d p in
  users (add_user_to_database set_iter d1 p) = users d1
  ∧ edges_of (add_user_to_database set_iter d1 p) = edges_of d1.
Proof.
  intros d1.
  assert (users (add_user_to_database set_iter d1 p) = users d1) as Hus.
  { rewrite users_add_user_to_database.
    rewrite bool_decide_eq_true_2
      by (apply (list_elem_of_fmap_2 id), users_add_has).
    subst d1. rewrite users_add_user_to_database. case_bool_decide as Hin.
    - apply replace_user_idem.
    - by apply replace_user_appended. }
  split; [done |].
  rewrite edges_of_add, Hus.
  set (again := List.filter _ (users d1)).
  assert (again = []) as ->; [| by rewrite app_nil_r].
  destruct again as [|o rest] eqn:Hagain; [done |]. exfalso.
  assert (o ∈ again) as Ho by (rewrite Hagain; by left).
  subst again. apply elem_of_list_filter_bool in Ho as [Ho Hc].
  apply connects_true in Hc as (Hne & Hcf & Hpo & Hop).
  subst d1. rewrite edges_of_add in Hpo, Hop.
  destruct (connects p (edge_pairs (edges_of d)) o) eqn:Hc0.
  - apply Hpo.
    apply (elem_of_edge_pairs _ (new_edge set_iter p o)).
    apply elem_of_app. right.
    apply (list_elem_of_fmap_2 (new_edge set_iter p)).
    by apply elem_of_list_filter_bool.
  - assert (connects p (edge_pairs (edges_of d)) o = true); [| congruence].
    apply connects_true. split_and!; [done | done | |].
    + intros Hin. apply Hpo. unfold edge_pairs. rewrite map_app.
      apply elem_of_app. by left.
    + intros Hin. apply Hop. unfold edge_pairs. rewrite map_app.
      apply elem_of_app. by left.
Qed.

Lemma edges_accurate_add_new (d : Registry) (p : UserProfile) :
  id p ∉ map id (users d) →
  edges_accurate d → edges_accurate (add_user_to_database set_iter d p).
Proof.
  intros Hnew Hacc e He.
  assert (users (add_user_to_database set_iter d p) = users d ++ [p]) as Hus.
  { rewrite users_add_user_to_database. by rewrite bool_decide_eq_false_2. }
  rewrite edges_of_add in He. apply elem_of_app in He as [He | He].
  - destruct (Hacc e He) as (u & v & Hu & Hv & Hrest).
    destruct Hrest as (H1 & H2 & H3 & H4).
    exists u, v. rewrite Hus, !elem_of_app. split_and!; [by left | by left | done..].
  - apply (list_elem_of_fmap_1 (new_edge set_iter p)) in He as (o & -> & Ho).
    apply elem_of_list_filter_bool in Ho as [Ho Hc].
    apply connects_true in Hc as (_ & Hcf & _).
    exists p, o. split_and!; try done. apply users_add_has.
Qed.

Lemma upsert_all_distinct (ps : list UserProfile) (d : Registry) :
  NoDup (map id (users d) ++ map id ps) →
  edges_accurate d → edges_accurate (upsert_all set_iter ps d).
Proof.
  revert d. induction ps as [|p ps IH]; intros d Hnd Hacc; [done |].
  cbn [upsert_all fold_left]. fold (upsert_all set_iter ps).
  assert (id p ∉ map id (users d)) as Hnew.
  { apply NoDup_app in Hnd as (_ & Hdisj & _).
    intros Hin. apply (Hdisj _ Hin). simpl. by left. }
  apply IH.
  - rewrite users_add_ids, bool_decide_eq_false_2 by done.
    rewrite <- app_assoc. exact Hnd.
  - by apply edges_accurate_add_new.
Qed.

Lemma edges_accurate_empty : edges_accurate empty_document.
Proof. intros e He. by apply elem_of_nil in He. Qed.
End InferenceRuns.

(** C3 (as amended): start from the empty registry, or from any registry
    whose user ids are distinct, in which no unordered pair has two edges
    and two users that share a specialization have an edge. After any
    sequence of upserts the graph has at most one edge for each unordered
    pair of users; two users that share a specialization have exactly one
    edge, whatever the order of the upserts; running the upsert of a
    profile again adds no edge; an upsert keeps the edges there are, and
    each edge it appends joins the profile to another user with whom it
    shares a specialization, its strength being the number they share at
    that moment; and when the edges were accurate at the start and no id is
    upserted twice, every edge between two users has as strength the number
    of specializations they share and two users that share none have no
    edge. *)
Theorem edge_inference_invariant (set_iter : gset str -> list str)
    (d0 : Registry) (ps : list UserProfile) :
  registry_inv d0 →
  let d := upsert_all set_iter ps d0 in
  (∀ a b, length (edges_between a b (edges_of d)) ≤ 1)
  ∧ (∀ u v, u ∈ users d → v ∈ users d → id u ≠ id v →
       common_fields u v ≠ ∅ →
       length (edges_between (id u) (id v) (edges_of d)) = 1)
  ∧ (∀ p, edges_of (add_user_to_database set_iter
                      (add_user_to_database set_iter d p) p)
          = edges_of (add_user_to_database set_iter d p))
  ∧ (∀ p, ∃ added,
       edges_of (add_user_to_database set_iter d p) = edges_of d ++ added
       ∧ ∀ e, e ∈ added →
           ∃ o, o ∈ users (add_user_to_database set_iter d p)
                ∧ id o ≠ id p
                ∧ edge_from e = id p ∧ edge_to e = id o
                ∧ common_fields p o ≠ ∅
                ∧ edge_strength e = size (common_fields p o))
  ∧ (edges_accurate d0 → NoDup (map id (users d0) ++ map id ps) →
     ∀ u v, u ∈ users d → v ∈ users d → id u ≠ id v →
       (common_fields u v = ∅ → edges_between (id u) (id v) (edges_of d) = [])
       ∧ (∀ e, e ∈ edges_between (id u) (id v) (edges_of d) →
            edge_strength e = size (common_fields u v))).
Proof.
  intros Hinv d.
  pose proof (registry_inv_upsert_all set_iter ps d0 Hinv)
    as (Hnd & Huniq & Hex). fold d in Hnd, Huniq, Hex.
  split_and!.
  - exact Huniq.
  - intros u v Hu Hv Hne Hcf.
    destruct (Hex u v Hu Hv Hne Hcf) as (e & He & Hbt).
    assert (e ∈ edges_between (id u) (id v) (edges_of d)) as Hin
      by (by apply elem_of_edges_between).
    specialize (Huniq (id u) (id v)).
    destruct (edges_between (id u) (id v) (edges_of d)) as [|e0 rest];
      [by apply elem_of_nil in Hin | simpl in *; lia].
  - intros p. apply add_user_to_database_again.
  - intros p. eexists. split; [apply edges_of_add |].
    intros e He.
    apply (list_elem_of_fmap_1 (new_edge set_iter p)) in He as (o & -> & Ho).
    apply elem_of_list_filter_bool in Ho as [Ho Hc].
    apply connects_true in Hc as (Hne & Hcf & _).
    exists o. by split_and!.
  - intros Hacc0 Hps u v Hu Hv Hne.
    pose proof (upsert_all_distinct set_iter ps d0 Hps Hacc0) as Hacc.
    fold d in Hacc.
    assert (∀ e, e ∈ edges_between (id u) (id v) (edges_of d) →
              edge_strength e = size (common_fields u v)
              ∧ common_fields u v ≠ ∅) as Hedge.
    { intros e He. apply elem_of_edges_between in He as [He Hbt].
      destruct (Hacc e He) as (u' & v' & Hu' & Hv' & Hfrom & Hto & Hstr & Hcf).
      destruct Hbt as [[H1 H2] | [H1 H2]].
      - rewrite <- Hfrom in H1. rewrite <- Hto in H2.
        rewrite (same_id_same_user _ _ _ Hnd Hu' Hu H1) in Hstr, Hcf.
        rewrite (same_id_same_user _ _ _ Hnd Hv' Hv H2) in Hstr, Hcf. done.
      - rewrite <- Hfrom in H1. rewrite <- Hto in H2.
        rewrite (same_id_same_user _ _ _ Hnd Hu' Hv H1) in Hstr, Hcf.
        rewrite (same_id_same_user _ _ _ Hnd Hv' Hu H2) in Hstr, Hcf.
        by rewrite (common_fields_comm u v). }
    split.
    + intros Hnone.
      destruct (edges_between (id u) (id v) (edges_of d)) as [|e rest] eqn:Heb;
        [done |].
      destruct (Hedge e) as [_ Hcf]; [by left | done].
    + intros e He. by destruct (Hedge e He).
Qed.

Example sample_upserts_result :
  let d := upsert_all elements sample_upserts empty_document in
  users d = [mk_profile "alice" ["X"%string]; mk_profile "bob" ["Y"%string]]
  ∧ map (fun e => (edge_from e, edge_to e, edge_strength e)) (edges_of d)
    = [(py "bob", py "alice", 1)].
Proof. vm_compute. done. Qed.

(** C3, the counterexample: alice and bob shared a specialization when
    bob was first upserted; after bob is upserted again without it the two
    share none, and the edge between them is still there. *)
Lemma stale_edge_after_update :
  let d := upsert_all elements sample_upserts empty_document in
  let alice := mk_profile "alice" ["X"%string] in
  let bob := mk_profile "bob" ["Y"%string] in
  alice ∈ users d ∧ bob ∈ users d
  ∧ id alice ≠ id bob
  ∧ common_fields alice bob = ∅
  ∧ length (edges_between (id alice) (id bob) (edges_of d)) = 1.
Proof.
  intros d alice bob.
  destruct sample_upserts_result as [Hus Hes]. fold d in Hus, Hes.
  split_and!.
  - rewrite Hus. by left.
  - rewrite Hus. right. by left.
  - discriminate.
  - apply (bool_decide_eq_true_1 (common_fields alice bob = ∅)).
    vm_compute. reflexivity.
  - vm_compute. reflexivity.
Qed.

Lemma edge_inference_invariant_witness :
  let ps := [mk_profile "alice" ["X"%string; "Y"%string];
             mk_profile "bob" ["Y"%string; "X"%string; "Z"%string]] in
  let d := upsert_all elements ps empty_document in
  length (edges_between (py "alice") (py "bob") (edges_of d)) = 1
  ∧ ∀ e, e ∈ edges_between (py "alice") (py "bob") (edges_of d) →
         edge_strength e = 2.
Proof.
  intros ps d.
  assert (users d = ps) as Hus by (vm_compute; reflexivity).
  assert (mk_profile "alice" ["X"%string; "Y"%string] ∈ users d) as Ha
    by (rewrite Hus; by left).
  assert (mk_profile "bob" ["Y"%string; "X"%string; "Z"%string] ∈ users d) as Hb
    by (rewrite Hus; right; by left).
  destruct (edge_inference_invariant elements empty_document ps
              (registry_inv_empty))
    as (_ & Hone & _ & _ & Hacc).
  fold d in Hone, Hacc. split.
  - apply (Hone _ _ Ha Hb); [discriminate |].
    apply (bool_decide_eq_false_1 (common_fields _ _ = ∅)). vm_compute. reflexivity.
  - intros e He.
    assert (NoDup (map id (users empty_document) ++ map id ps)) as Hnd
      by (apply (bool_decide_eq_true_1 (NoDup _)); vm_compute; reflexivity).
    destruct (Hacc edges_accurate_empty Hnd _ _ Ha Hb) as [_ Hstr]; [discriminate |].
    rewrite (Hstr e He). vm_compute. reflexivity.
Defined.

(** * Further properties *)

(** ** Trimming *)

Lemma lstrip_head (s : str) (c : N) (r : str) :
  lstrip s = c :: r → isspace c = false.
Proof.
  induction s as [|x s IH]; simpl; [done |].
  destruct (isspace x) eqn:Hx; [done |]. by intros [= <- _].
Qed.

Lemma lstrip_suffix (s : str) : ∃ ws, s = ws ++ lstrip s.
Proof.
  induction s as [|x s [ws IH]]; simpl; [by exists [] |].
  destruct (isspace x); [| by exists []].
  exists (x :: ws). simpl. by rewrite <- IH.
Qed.

Lemma lstrip_fixed (s : str) :
  (∀ c r, s = c :: r → isspace c = false) → lstrip s = s.
Proof.
  destruct s as [|c r]; [done |]. intros H. simpl. by rewrite (H c r eq_refl).
Qed.

Lemma rstrip_prefix (s : str) : ∃ ws, s = rstrip s ++ ws.
Proof.
  unfold rstrip. destruct (lstrip_suffix (rev s)) as [ws Hws].
  exists (rev ws). rewrite <- rev_app_distr, <- Hws. by rewrite rev_involutive.
Qed.

Lemma rstrip_last (s : str) (c : N) :
  last (rstrip s) = Some c → isspace c = false.
Proof.
  unfold rstrip. destruct (lstrip (rev s)) as [|x r] eqn:Hl; [done |].
  simpl. rewrite last_snoc. intros [= <-]. by eapply lstrip_head.
Qed.

Lemma rstrip_fixed (s : str) :
  (∀ c, last s = Some c → isspace c = false) → rstrip s = s.
Proof.
  intros H. unfold rstrip.
  rewrite lstrip_fixed; [apply rev_involutive |].
  intros c r Hrev. apply H.
  rewrite <- (rev_involutive s), Hrev. simpl. apply last_snoc.
Qed.

(** A string is trimmed when [strip] leaves it as it is. *)
Lemma strip_fixed (s : str) :
  (∀ c r, s = c :: r → isspace c = false) →
  (∀ c, last s = Some c → isspace c = false) →
  strip s = s.
Proof.
  intros Hhead Hlast. unfold strip. rewrite (lstrip_fixed s Hhead).
  by apply rstrip_fixed.
Qed.

Lemma strip_head (s : str) (c : N) (r : str) :
  strip s = c :: r → isspace c = false.
Proof.
  unfold strip. intros Hs.
  destruct (rstrip_prefix (lstrip s)) as [ws Hws]. rewrite Hs in Hws.
  simpl in Hws. by eapply lstrip_head.
Qed.

Lemma strip_last (s : str) (c : N) :
  last (strip s) = Some c → isspace c = false.
Proof. apply rstrip_last. Qed.

Lemma strip_strip (s : str) : strip (strip s) = strip s.
Proof. apply strip_fixed; [apply strip_head | apply strip_last]. Qed.

Lemma strip_elem (s : str) (x : N) : x ∈ strip s → x ∈ s.
Proof.
  unfold strip. intros Hx.
  destruct (rstrip_prefix (lstrip s)) as [ws Hws].
  destruct (lstrip_suffix s) as [ws' Hws'].
  rewrite Hws', Hws. rewrite !elem_of_app. tauto.
Qed.

(** ** The annotation pattern *)

Lemma isspace_newline : isspace 10 = true.
Proof. reflexivity. Qed.

Lemma match_dot_star_eol_rest (s rest : str) :
  match_dot_star_eol s = Some rest →
  rest = [] ∨ (rest = [10%N] ∧ last s = Some 10%N).
Proof.
  induction s as [|c s IH]; simpl.
  - intros [= <-]. by left.
  - destruct (N.eqb_spec c 10) as [-> | Hc].
    + destruct s; [| done]. intros [= <-]. by right.
    + intros H. destruct (IH H) as [-> | [-> Hl]]; [by left | right].
      split; [done |]. destruct s; [done | exact Hl].
Qed.

Lemma match_dot_star_eol_line (s : str) :
  10%N ∉ s → match_dot_star_eol s = Some [].
Proof.
  induction s as [|c s IH]; simpl; [done |].
  intros [Hc Hs]%not_elem_of_cons.
  destruct (N.eqb_spec c 10) as [-> | _]; [done | by apply IH].
Qed.

Lemma last_lstrip (s : str) (c : N) (r : str) :
  lstrip s = c :: r → last s = last (c :: r).
Proof.
  intros Hl. destruct (lstrip_suffix s) as [ws Hws]. rewrite Hl in Hws.
  rewrite Hws, last_app.
  destruct (last (c :: r)) eqn:E; [done |]. by apply last_None in E.
Qed.

Lemma match_annotation_rest (s rest : str) :
  match_annotation s = Some rest →
  rest = [] ∨ (rest = [10%N] ∧ last s = Some 10%N).
Proof.
  unfold match_annotation. destruct (lstrip s) as [|c r] eqn:Hl; [done |].
  destruct (N.eqb_spec c 59) as [-> | _]; [| done].
  intros H. destruct (match_dot_star_eol_rest _ _ H) as [-> | [-> Hr]]; [by left |].
  right. split; [done |]. rewrite (last_lstrip _ _ _ Hl).
  destruct r; [done | exact Hr].
Qed.

Lemma match_annotation_space (c : N) (s : str) :
  isspace c = true → match_annotation (c :: s) = match_annotation s.
Proof. intros Hc. unfold match_annotation. simpl. by rewrite Hc. Qed.

Lemma re_sub_annotation_cons (c : N) (s : str) :
  re_sub_annotation (c :: s) =
    match match_annotation (c :: s) with
    | Some rest => rest
    | None => c :: re_sub_annotation s
    end.
Proof. reflexivity. Qed.

Lemma re_sub_annotation_nil_inv (s : str) :
  re_sub_annotation s = [] → s = [] ∨ match_annotation s = Some [].
Proof.
  destruct s as [|c s]; [by left |].
  rewrite re_sub_annotation_cons.
  destruct (match_annotation (c :: s)) as [rest|]; [| done].
  intros ->. by right.
Qed.

Lemma re_sub_annotation_last (s : str) :
  (∀ c, last s = Some c → isspace c = false) →
  ∀ c, last (re_sub_annotation s) = Some c → isspace c = false.
Proof.
  induction s as [|x s IH]; intros Hlast c; [done |].
  rewrite re_sub_annotation_cons.
  destruct (match_annotation (x :: s)) as [rest|] eqn:Hm.
  - destruct (match_annotation_rest _ _ Hm) as [-> | [-> Hl]]; [done |].
    specialize (Hlast _ Hl). by rewrite isspace_newline in Hlast.
  - destruct (re_sub_annotation s) as [|z r] eqn:Hr.
    + simpl. intros [= <-].
      destruct (re_sub_annotation_nil_inv s Hr) as [-> | Hs].
      * by apply Hlast.
      * destruct (isspace x) eqn:Hx; [| done].
        rewrite (match_annotation_space x s Hx) in Hm. congruence.
    + change (last (x :: z :: r)) with (last (z :: r)).
      apply IH. intros c' Hc'. apply Hlast.
      destruct s; [done | exact Hc'].
Qed.

Lemma re_sub_annotation_head (s : str) (c : N) (r : str) :
  (∀ c, last s = Some c → isspace c = false) →
  re_sub_annotation s = c :: r → ∃ r', s = c :: r'.
Proof.
  destruct s as [|x s]; [done |]. intros Hlast.
  rewrite re_sub_annotation_cons.
  destruct (match_annotation (x :: s)) as [rest|] eqn:Hm.
  - destruct (match_annotation_rest _ _ Hm) as [-> | [-> Hl]]; [done |].
    specialize (Hlast _ Hl). by rewrite isspace_newline in Hlast.
  - intros [= -> _]. by exists s.
Qed.

(** The pattern leaves a trimmed string trimmed. *)
Lemma re_sub_annotation_trimmed (s : str) :
  strip s = s → strip (re_sub_annotation s) = re_sub_annotation s.
Proof.
  intros Hs.
  assert (∀ c, last s = Some c → isspace c = false) as Hlast
    by (intros c; rewrite <- Hs; apply strip_last).
  apply strip_fixed.
  - intros c r Hr. destruct (re_sub_annotation_head s c r Hlast Hr) as [r' Hs'].
    apply (strip_head s c r'). by rewrite Hs.
  - by apply re_sub_annotation_last.
Qed.

Lemma re_sub_annotation_no_semicolon (s : str) :
  10%N ∉ s → 59%N ∉ re_sub_annotation s.
Proof.
  induction s as [|x s IH]; intros Hnl; [apply not_elem_of_nil |].
  rewrite re_sub_annotation_cons.
  destruct (match_annotation (x :: s)) as [rest|] eqn:Hm.
  - destruct (match_annotation_rest _ _ Hm) as [-> | [-> Hl]];
      [apply not_elem_of_nil |].
    exfalso. apply Hnl. apply last_Some_elem_of in Hl. exact Hl.
  - apply not_elem_of_cons in Hnl as [Hx Hs].
    apply not_elem_of_cons. split; [| by apply IH].
    intros <-. unfold match_annotation in Hm. simpl in Hm.
    by rewrite (match_dot_star_eol_line s Hs) in Hm.
Qed.

Lemma re_sub_annotation_elem (s : str) (x : N) :
  x ∈ re_sub_annotation s → x ∈ s.
Proof.
  induction s as [|c s IH]; [done |].
  rewrite re_sub_annotation_cons.
  destruct (match_annotation (c :: s)) as [rest|] eqn:Hm.
  - destruct (match_annotation_rest _ _ Hm) as [-> | [-> Hl]].
    + intros H. by apply elem_of_nil in H.
    + intros ->%list_elem_of_singleton. by apply last_Some_elem_of.
  - intros [-> | H]%elem_of_cons; [by left | right; by apply IH].
Qed.

(** ** Splitting *)

Lemma split_go_elem (sep : str) (k : nat) (cur s seg : str) (x : N) :
  seg ∈ split_go sep k cur s → x ∈ seg → x ∈ cur ∨ x ∈ s.
Proof.
  revert k cur. induction s as [|c s IH]; intros k cur; cbn [split_go].
  - intros ->%list_elem_of_singleton Hx. left.
    by apply list_elem_of_In, in_rev, list_elem_of_In.
  - destruct k as [|k].
    + destruct (is_prefix sep (c :: s)).
      * intros [-> | Hseg]%elem_of_cons Hx.
        -- left. by apply list_elem_of_In, in_rev, list_elem_of_In.
        -- destruct (IH _ _ Hseg Hx) as [H | H];
             [by apply elem_of_nil in H | right; by right].
      * intros Hseg Hx. destruct (IH _ _ Hseg Hx) as [H | H].
        -- apply elem_of_cons in H as [-> | H]; [right; by left | by left].
        -- right. by right.
    + intros Hseg Hx. destruct (IH _ _ Hseg Hx) as [H | H];
        [by left | right; by right].
Qed.

Lemma split_go_skip (sep : str) (cur x y : str) :
  split_go sep (length x) cur (x ++ y) = split_go sep 0 cur y.
Proof.
  induction x as [|c x IH]; [done |]. exact IH.
Qed.

Lemma split_go_no_sep (sep cur s : str) :
  contains sep s = false → split_go sep 0 cur s = [rev cur ++ s].
Proof.
  revert cur. induction s as [|c s IH]; intros cur Hc; cbn [split_go].
  - by rewrite app_nil_r.
  - cbn [contains] in Hc. apply orb_false_iff in Hc as [Hp Hc].
    rewrite Hp, (IH _ Hc). simpl. by rewrite <- app_assoc.
Qed.

Lemma is_prefix_shorten (p u w : str) :
  length p ≤ length u → is_prefix p (u ++ w) = true → is_prefix p u = true.
Proof.
  intros Hlen [t Ht]%is_prefix_spec. apply is_prefix_spec.
  exists (drop (length p) u).
  assert (p = take (length p) u) as Hp.
  { rewrite <- (take_app_le u w) by done. rewrite Ht.
    by rewrite take_app_length. }
  rewrite Hp at 1. by rewrite take_drop.
Qed.

(** The first occurrence of the separator: no occurrence begins in [a]. *)
Lemma split_go_first (c0 : N) (sep' cur a b : str) :
  contains (c0 :: sep') (a ++ removelast (c0 :: sep')) = false →
  split_go (c0 :: sep') 0 cur (a ++ (c0 :: sep') ++ b) =
    (rev cur ++ a) :: split_go (c0 :: sep') 0 [] b.
Proof.
  set (sep := c0 :: sep').
  revert cur. induction a as [|x a IH]; intros cur Hc.
  - cbn [app]. subst sep. cbn [app split_go].
    assert (is_prefix (c0 :: sep') (c0 :: sep' ++ b) = true) as ->
      by (apply is_prefix_spec; by exists b).
    rewrite app_nil_r. f_equal.
    replace (length (c0 :: sep') - 1) with (length sep') by (simpl; lia).
    apply split_go_skip.
  - cbn [app contains] in Hc. apply orb_false_iff in Hc as [Hp Hc].
    cbn [app split_go].
    assert (is_prefix sep (x :: a ++ sep ++ b) = false) as ->.
    { destruct (is_prefix sep (x :: a ++ sep ++ b)) eqn:Hpre; [| done].
      rewrite <- Hp. symmetry.
      assert (sep = removelast sep ++ [List.last sep 0%N]) as Hsnoc
        by (by apply app_removelast_last).
      apply (is_prefix_shorten sep (x :: a ++ removelast sep)
               ([List.last sep 0%N] ++ b)).
      - assert (length sep = length (removelast sep) + 1) as Hlen.
        { rewrite Hsnoc at 1. rewrite length_app. simpl. lia. }
        rewrite length_cons, length_app. lia.
      - rewrite <- Hpre. f_equal. cbn [app]. f_equal.
        rewrite <- !app_assoc. f_equal.
        transitivity ((removelast sep ++ [List.last sep 0%N]) ++ b);
          [by rewrite <- app_assoc | by rewrite <- Hsnoc]. }
    rewrite (IH _ Hc). simpl. by rewrite <- app_assoc.
Qed.

Lemma split_go_nonempty (sep : str) (k : nat) (cur s : str) :
  split_go sep k cur s ≠ [].
Proof.
  revert k cur. induction s as [|c s IH]; intros k cur; cbn [split_go]; [done |].
  destruct k; [| apply IH]. destruct (is_prefix sep (c :: s)); [done | apply IH].
Qed.

(** ** [extract_book_info] *)

Lemma extract_book_info_parts (ta : str) :
  ∃ p0 rest, split separator ta = p0 :: rest
    ∧ extract_book_info ta =
        (re_sub_annotation (strip p0),
         match rest with
         | p1 :: _ => strip p1
         | [] => unknown_author
         end).
Proof.
  unfold extract_book_info.
  destruct (split separator ta) as [|p0 rest] eqn:Hs.
  - by apply split_go_nonempty in Hs.
  - exists p0, rest. split; [done |]. by destruct rest.
Qed.

(** X1: whatever the string, the title and the author that
    [extract_book_info] returns carry no leading and no trailing
    whitespace: [strip] leaves both as they are. *)
Theorem extract_book_info_trimmed (title_author : str) :
  let '(title, author) := extract_book_info title_author in
  strip title = title ∧ strip author = author.
Proof.
  destruct (extract_book_info_parts title_author) as (p0 & rest & _ & ->).
  split.
  - apply re_sub_annotation_trimmed, strip_strip.
  - destruct rest; [reflexivity | apply strip_strip].
Qed.

(** X2: a string without the separator [" / "] gives the whole string,
    trimmed and cut at its annotation, as title and the sentinel as
    author. *)
Theorem extract_book_info_no_separator (title_author : str) :
  contains separator title_author = false →
  extract_book_info title_author =
    (re_sub_annotation (strip title_author), unknown_author).
Proof.
  intros Hc. unfold extract_book_info, split.
  by rewrite (split_go_no_sep separator [] title_author Hc).
Qed.

Lemma extract_book_info_no_separator_witness :
  extract_book_info (py " Mathematics/Physics ; 2nd ed. ") =
    (py "Mathematics/Physics", unknown_author).
Proof.
  rewrite extract_book_info_no_separator; reflexivity.
Defined.

(** X3: when the first separator of the string stands between [a] and
    [b], and [b] holds no further separator, the title comes from [a] and
    the author is [b], trimmed. *)
Theorem extract_book_info_one_separator (a b : str) :
  contains separator (a ++ py " /") = false →
  contains separator b = false →
  extract_book_info (a ++ separator ++ b) =
    (re_sub_annotation (strip a), strip b).
Proof.
  intros Ha Hb. unfold extract_book_info, split.
  pose proof (split_go_first 32 (py "/ ") [] a b) as Hsplit.
  change (32%N :: py "/ ") with separator in Hsplit.
  change (removelast separator) with (py " /") in Hsplit.
  rewrite (Hsplit Ha), (split_go_no_sep separator [] b Hb). reflexivity.
Qed.

Lemma extract_book_info_one_separator_witness :
  extract_book_info (py "Robust control ; vol. 1" ++ separator ++ py " K. Zhou ") =
    (py "Robust control", py "K. Zhou").
Proof.
  rewrite extract_book_info_one_separator; reflexivity.
Defined.

(** X4: the title is made of characters of the string, and for a string
    of one line (no newline in it) the title holds no semicolon. *)
Theorem extract_book_info_title_chars (title_author : str) :
  (∀ x, x ∈ fst (extract_book_info title_author) → x ∈ title_author)
  ∧ (10%N ∉ title_author → 59%N ∉ fst (extract_book_info title_author)).
Proof.
  destruct (extract_book_info_parts title_author) as (p0 & rest & Hs & ->).
  cbn [fst].
  assert (∀ x, x ∈ p0 → x ∈ title_author) as Hp0.
  { intros x Hx.
    destruct (split_go_elem separator 0 [] title_author p0 x) as [H | H];
      [unfold split in Hs; rewrite Hs; by left | done
       | by apply elem_of_nil in H | done]. }
  split.
  - intros x Hx. by apply Hp0, strip_elem, re_sub_annotation_elem.
  - intros Hnl. apply re_sub_annotation_no_semicolon.
    intros Hin. by apply Hnl, Hp0, strip_elem.
Qed.

Lemma extract_book_info_title_chars_witness :
  59%N ∉ fst (extract_book_info (py "A; b; c / D")).
Proof.
  apply (proj2 (extract_book_info_title_chars (py "A; b; c / D"))).
  apply (bool_decide_eq_true_1 (10%N ∉ py "A; b; c / D")).
  vm_compute. reflexivity.
Defined.

(** On a string of several lines the pattern can fail to match, and the
    semicolon stays. *)
Example extract_book_info_multiline :
  extract_book_info [65; 59; 66; 10; 67]%N = ([65; 59; 66; 10; 67]%N, unknown_author).
Proof. reflexivity. Qed.

(** ** [categorize_book], read backwards *)

Lemma categorize_book_inv (lower : str -> str)
    (table : list (str * list str)) (title author : str) :
  let text := lower (title ++ py " " ++ author) in
  let c := categorize_book lower table title author in
  (∃ i kws, table !! i = Some (c, kws)
            ∧ matches lower text kws
            ∧ ∀ j c' kws', j < i → table !! j = Some (c', kws') →
                           ¬ matches lower text kws')
  ∨ (c = py "other"
     ∧ ∀ c' kws', (c', kws') ∈ table → ¬ matches lower text kws').
Proof.
  intros text c. subst c. unfold categorize_book. fold text.
  generalize text. clear text. intros text.
  induction table as [|[c0 k0] table IH]; simpl.
  - right. split; [done |]. intros c' kws' H. by apply elem_of_nil in H.
  - destruct (any_keyword lower text k0) eqn:H0.
    + left. exists 0, k0. split_and!; [done | by apply any_keyword_spec |].
      intros j c' kws' Hj. lia.
    + assert (¬ matches lower text k0) as Hno.
      { intros Hm. apply any_keyword_spec in Hm. congruence. }
      destruct IH as [(i & kws & Hi & Hm & Hb) | [Hc Hnone]].
      * left. exists (S i), kws. split_and!; [done | done |].
        intros [|j] c' kws' Hj Hl.
        -- by injection Hl as <- <-.
        -- apply (Hb j c' kws'); [lia | done].
      * right. split; [done |].
        intros c' kws' [[= -> ->] | Hin]%elem_of_cons; [done | by eapply Hnone].
Qed.

(** X5: the category that [categorize_book] returns is accounted for: it
    is a category of the table one of whose keywords occurs in the text
    while no keyword of an earlier category does, or it is [other] and no
    keyword of the table occurs. *)
Theorem categorize_book_sound (lower : str -> str)
    (table : list (str * list str)) (title author : str) :
  let text := lower (title ++ py " " ++ author) in
  let c := categorize_book lower table title author in
  (∃ i kws, table !! i = Some (c, kws)
            ∧ matches lower text kws
            ∧ ∀ j c' kws', j < i → table !! j = Some (c', kws') →
                           ¬ matches lower text kws')
  ∨ (c = py "other"
     ∧ ∀ c' kws', (c', kws') ∈ table → ¬ matches lower text kws').
Proof. apply categorize_book_inv. Qed.

(** X6: the categories are a closed set: the result is a key of the
    keyword table or [other]. *)
Theorem categorize_book_closed (lower : str -> str)
    (table : list (str * list str)) (title author : str) :
  categorize_book lower table title author ∈ map fst table
  ∨ categorize_book lower table title author = py "other".
Proof.
  destruct (categorize_book_inv lower table title author)
    as [(i & kws & Hi & _) | [Hc _]]; [left | by right].
  apply (list_elem_of_fmap_2' fst table _ _
           (list_elem_of_lookup_2 _ _ _ Hi) eq_refl).
Qed.

(** ** The aggregator, further *)

Lemma drop_duplicates_from_length (seen : list Z) (df : DataFrame) :
  length (drop_duplicates_from seen df) ≤ length df.
Proof. apply sublist_length, drop_duplicates_from_sublist. Qed.

Lemma month_indicator (m : Z) :
  (1 <= m <= 12)%Z →
  sum_list (map (fun k => if (m =? k)%Z then 1 else 0)
                [1; 2; 3; 4; 5; 6; 7; 8; 9; 10; 11; 12]%Z) = 1.
Proof.
  intros Hm.
  assert (m = 1 ∨ m = 2 ∨ m = 3 ∨ m = 4 ∨ m = 5 ∨ m = 6 ∨ m = 7 ∨ m = 8
          ∨ m = 9 ∨ m = 10 ∨ m = 11 ∨ m = 12)%Z as Hcases by lia.
  repeat (destruct Hcases as [-> | Hcases]; [reflexivity |]).
  by subst.
Qed.

Lemma sum_list_filter_pos (l : list (Z * nat)) :
  sum_list (map snd (List.filter (fun mc => (0 <? snd mc)%nat) l))
  = sum_list (map snd l).
Proof.
  induction l as [|[m n] l IH]; simpl; [done |].
  destruct n as [|n]; simpl; by rewrite IH.
Qed.

Lemma month_counts_total (months : list Z) (df : DataFrame) :
  sum_list (map (fun m =>
     length (List.filter (fun row => (dt_month (checkout_date row) =? m)%Z) df))
     months)
  = sum_list (map (fun row =>
       sum_list (map (fun k => if (dt_month (checkout_date row) =? k)%Z
                               then 1 else 0) months)) df).
Proof.
  induction df as [|row df IH]; simpl.
  - induction months as [|m months IHm]; simpl; [done | by rewrite IHm].
  - rewrite <- IH. clear IH.
    induction months as [|m months IHm]; simpl; [done |].
    rewrite IHm. destruct (dt_month (checkout_date row) =? m)%Z; simpl; lia.
Qed.

Lemma monthly_counts_total (df : DataFrame) :
  Forall valid_month df → histogram_total (monthly_counts df) = length df.
Proof.
  intros Hvalid. unfold histogram_total, monthly_counts.
  rewrite sum_list_filter_pos, map_map. cbn [snd].
  rewrite month_counts_total.
  induction Hvalid as [|row df Hrow Hdf IH]; [done |].
  rewrite map_cons.
  change (sum_list (?x :: ?l)) with (x + sum_list l).
  rewrite IH, (month_indicator _ Hrow). reflexivity.
Qed.

Lemma monthly_counts_items (df : DataFrame) (m : Z) (n : nat) :
  (m, n) ∈ monthly_counts df →
  (1 <= m <= 12)%Z ∧ 0 < n
  ∧ n = length (List.filter
                  (fun row => (dt_month (checkout_date row) =? m)%Z) df).
Proof.
  unfold monthly_counts. intros Hin.
  apply elem_of_list_filter_bool in Hin as [Hin Hpos].
  apply Nat.ltb_lt in Hpos. cbn [snd] in Hpos.
  apply (list_elem_of_fmap_1 _) in Hin as (k & [= -> ->] & Hk).
  split; [| by split].
  repeat (apply elem_of_cons in Hk as [-> | Hk]; [lia |]).
  by apply elem_of_nil in Hk.
Qed.

Lemma monthly_counts_months (df : DataFrame) :
  map fst (monthly_counts df) `sublist_of` [1; 2; 3; 4; 5; 6; 7; 8; 9; 10; 11; 12]%Z.
Proof.
  unfold monthly_counts.
  set (items := map (fun m => (m, _)) _).
  assert (map fst items = [1; 2; 3; 4; 5; 6; 7; 8; 9; 10; 11; 12]%Z) as <-
    by reflexivity.
  apply (fmap_sublist fst), list_filter_sublist.
Qed.

Lemma analyze_reading_patterns_some (current_year : Z) (df : DataFrame)
    (a : Analysis) :
  analyze_reading_patterns current_year df = Some a →
  df ≠ []
  ∧ total_books a = length (drop_duplicates df)
  ∧ unique_books a = drop_duplicates df
  ∧ this_year_books a = length (List.filter (in_year current_year) df)
  ∧ monthly_stats a = monthly_counts (List.filter (in_year current_year) df).
Proof.
  destruct df as [|row df]; [done |]. intros Ha. injection Ha as <-. done.
Qed.

(** X7: the analysis exists exactly for a table with at least one row,
    and then the number of unique books lies between 1 and the number of
    rows, it is the length of [unique_books], and the count of the year is
    at most the number of rows and is 0 only when no row is of the current
    year. *)
Theorem analyze_reading_patterns_bounds (current_year : Z) (df : DataFrame) :
  (analyze_reading_patterns current_year df = None ↔ df = [])
  ∧ ∀ a, analyze_reading_patterns current_year df = Some a →
      1 ≤ total_books a ≤ length df
      ∧ total_books a = length (unique_books a)
      ∧ this_year_books a ≤ length df
      ∧ (this_year_books a = 0 ↔
         ∀ row, row ∈ df → dt_year (checkout_date row) ≠ current_year).
Proof.
  split; [by destruct df |].
  intros a Ha.
  apply analyze_reading_patterns_some in Ha as (Hne & -> & -> & -> & _).
  split_and!.
  - destruct df as [|row df]; [done |]. rewrite drop_duplicates_nonempty.
    simpl. lia.
  - apply drop_duplicates_from_length.
  - done.
  - apply List.filter_length_le.
  - split.
    + intros Hzero r Hr Hy.
      assert (r ∈ List.filter (in_year current_year) df) as Hin.
      { apply elem_of_list_filter_bool. split; [done |]. by apply Z.eqb_eq. }
      destruct (List.filter (in_year current_year) df);
        [by apply elem_of_nil in Hin | done].
    + intros Hnone.
      destruct (List.filter (in_year current_year) df) as [|r rest] eqn:Hf;
        [done |].
      assert (r ∈ List.filter (in_year current_year) df) as Hin
        by (rewrite Hf; by left).
      apply elem_of_list_filter_bool in Hin as [Hin Hy].
      apply Z.eqb_eq in Hy. by destruct (Hnone r Hin).
Qed.

Lemma analyze_reading_patterns_bounds_witness :
  ∃ a, analyze_reading_patterns 2025 sample_df = Some a
       ∧ 1 ≤ total_books a ≤ 3 ∧ this_year_books a ≤ 3.
Proof.
  eexists. split; [reflexivity |].
  destruct (proj2 (analyze_reading_patterns_bounds 2025 sample_df) _ eq_refl)
    as (H1 & _ & H2 & _).
  split; [exact H1 | exact H2].
Defined.

(** X8: when the months of the rows are months of the calendar, the
    monthly histogram of the analysis lists months of the current year's
    rows in increasing order, each with the number of those rows, which is
    not 0, and the counts add up to the count of the year. *)
Theorem monthly_stats_histogram (current_year : Z) (df : DataFrame)
    (a : Analysis) :
  analyze_reading_patterns current_year df = Some a →
  Forall valid_month df →
  histogram_total (monthly_stats a) = this_year_books a
  ∧ map fst (monthly_stats a) `sublist_of` [1; 2; 3; 4; 5; 6; 7; 8; 9; 10; 11; 12]%Z
  ∧ ∀ m n, (m, n) ∈ monthly_stats a →
      0 < n
      ∧ n = length (List.filter
                      (fun row => in_year current_year row
                                  && (dt_month (checkout_date row) =? m)%Z) df).
Proof.
  intros Ha Hvalid.
  apply analyze_reading_patterns_some in Ha as (_ & _ & _ & -> & ->).
  split_and!.
  - apply monthly_counts_total.
    apply Forall_forall. intros r Hr.
    apply elem_of_list_filter_bool in Hr as [Hr _].
    rewrite Forall_forall in Hvalid. by apply Hvalid.
  - apply monthly_counts_months.
  - intros m n Hin. apply monthly_counts_items in Hin as (_ & Hpos & ->).
    split; [done |]. f_equal. clear Hpos Hvalid.
    induction df as [|r rows IH]; simpl; [done |].
    destruct (in_year current_year r); simpl; [| done].
    destruct (dt_month (checkout_date r) =? m)%Z; by rewrite IH.
Qed.

Lemma monthly_stats_histogram_witness :
  ∃ a, analyze_reading_patterns 2025 sample_df = Some a
       ∧ histogram_total (monthly_stats a) = this_year_books a.
Proof.
  eexists. split; [reflexivity |].
  apply (monthly_stats_histogram 2025 sample_df _ eq_refl).
  repeat (constructor; [vm_compute; split; discriminate |]). constructor.
Defined.

Example sample_monthly_stats :
  option_map monthly_stats (analyze_reading_patterns 2025 sample_df)
  = Some [(5%Z, 1); (6%Z, 1)].
Proof. reflexivity. Qed.

(** ** The profile, further *)

Lemma create_user_profile_eq (lower : str -> str) (current_year : Z)
    (self : MypageGenerator) (user_id name position avatar : str)
    (row : CheckoutRecord) (df : DataFrame) (h : Store) :
  let rows := drop_duplicates (row :: df) in
  let es := map (book_entry_of lower (category_keywords self)) rows in
  create_user_profile lower current_year self user_id name position avatar
    (row :: df) h
  = (Some {| id := user_id;
             name := name;
             nameJa := name;
             position := position;
             avatar := avatar;
             email := user_id ++ py "@example.com";
             specializations :=
               names_of (categories (users_data self))
                 (map fst (most_common 4 (count_keys (map category es))));
             stats :=
               {| totalBooks := length rows;
                  thisYearBooks :=
                    length (List.filter (in_year current_year) (row :: df));
                  publications := 0;
                  presentations := if (10 <? length rows)%nat then 1 else 0;
                  datasets := 0;
                  coderepos := if (5 <? length rows)%nat then 1 else 0;
                  awards := 0 |};
             currentReading := Some (length h);
             readingHistory := seq (length h) (length rows);
             networkConnections := [] |},
     h ++ set_progress default_progress
            (book_entry_of lower (category_keywords self) row) :: tail es).
Proof.
  intros rows es. unfold create_user_profile.
  cbn [analyze_reading_patterns unique_books total_books this_year_books].
  fold rows. rewrite add_book_entry_fold. fold es. fold (count_keys (map category es)).
  cbn [app]. subst es rows. rewrite drop_duplicates_nonempty.
  cbn [map length seq head tail]. rewrite store_progress_fresh.
  reflexivity.
Qed.

(** X9: the statistics of a profile agree with its history: the number of
    books is the length of the reading history and the number of distinct
    book ids of the table; the two flags follow the thresholds, so that a
    profile with a presentation has a code repository; the three other
    counters are 0. *)
Theorem create_user_profile_stats (lower : str -> str) (current_year : Z)
    (self : MypageGenerator) (user_id name position avatar : str)
    (df : DataFrame) (h h' : Store) (p : UserProfile) :
  create_user_profile lower current_year self user_id name position avatar df h
  = (Some p, h') →
  totalBooks (stats p) = length (readingHistory p)
  ∧ totalBooks (stats p) = size (list_to_set (map book_id df) : gset Z)
  ∧ (presentations (stats p) = 1 ↔ 10 < totalBooks (stats p))
  ∧ (presentations (stats p) = 0 ↔ totalBooks (stats p) ≤ 10)
  ∧ (coderepos (stats p) = 1 ↔ 5 < totalBooks (stats p))
  ∧ (coderepos (stats p) = 0 ↔ totalBooks (stats p) ≤ 5)
  ∧ presentations (stats p) ≤ coderepos (stats p)
  ∧ publications (stats p) = 0 ∧ datasets (stats p) = 0 ∧ awards (stats p) = 0.
Proof.
  destruct df as [|row df]; [done |].
  rewrite create_user_profile_eq. intros Hp.
  apply (f_equal fst) in Hp. cbn [fst] in Hp. apply (inj Some) in Hp. subst p.
  cbn [stats totalBooks presentations coderepos publications datasets awards
       readingHistory].
  rewrite length_seq, <- drop_duplicates_count.
  set (n := length (drop_duplicates (row :: df))).
  destruct (Nat.ltb_spec 10 n), (Nat.ltb_spec 5 n); split_and!; try done; lia.
Qed.

Lemma create_user_profile_stats_witness :
  ∃ p h',
    create_user_profile ascii_lower 2025 sample_generator (py "amane")
      (py "Amane") (py "M2") (py "a.png") sample_df [] = (Some p, h')
    ∧ totalBooks (stats p) = length (readingHistory p)
    ∧ presentations (stats p) ≤ coderepos (stats p).
Proof.
  eexists. eexists. split; [reflexivity |].
  destruct (create_user_profile_stats ascii_lower 2025 sample_generator
              (py "amane") (py "Amane") (py "M2") (py "a.png") sample_df [] _ _
              eq_refl)
    as (H1 & _ & _ & _ & _ & _ & H2 & _).
  split; [exact H1 | exact H2].
Defined.

(** X10: the references of the reading history are new and distinct: none
    of them refers to an object that existed before the call, each refers
    to an entry of the store after the call, and the store grows by one
    entry for each book of the history and by nothing else; for an empty
    table no profile is built and the store is not touched. *)
Theorem create_user_profile_references (lower : str -> str) (current_year : Z)
    (self : MypageGenerator) (user_id name position avatar : str)
    (df : DataFrame) (h : Store) :
  match create_user_profile lower current_year self user_id name position
          avatar df h with
  | (Some p, h') =>
    df ≠ []
    ∧ NoDup (readingHistory p)
    ∧ (∀ r, r ∈ readingHistory p → length h ≤ r ∧ is_Some (h' !! r))
    ∧ length h' = length h + length (readingHistory p)
    ∧ length (deref h' (readingHistory p)) = length (readingHistory p)
  | (None, h') => df = [] ∧ h' = h
  end.
Proof.
  destruct df as [|row df]; [done |].
  rewrite create_user_profile_eq. cbn [readingHistory].
  rewrite drop_duplicates_nonempty. cbn [map tail length].
  set (rest := drop_duplicates_from [book_id row] df).
  set (e0 := set_progress _ _).
  assert (length (h ++ e0 :: map (book_entry_of lower (category_keywords self)) rest)
          = length h + S (length rest)) as Hlen
    by (rewrite length_app; cbn [length]; by rewrite length_map).
  split_and!.
  - done.
  - apply NoDup_ListNoDup, seq_NoDup.
  - intros r Hr. apply elem_of_seq in Hr. split; [lia |].
    apply lookup_lt_is_Some. rewrite Hlen. lia.
  - rewrite Hlen. by rewrite length_seq.
  - replace (S (length rest))
      with (length (e0 :: map (book_entry_of lower (category_keywords self)) rest))
      by (cbn [length]; by rewrite length_map).
    by rewrite deref_fresh, length_seq.
Qed.

(** ** The legend *)

Lemma legend_loop_spec (cats : gmap str CategoryInfo) (items : list (str * Z))
    (shown : list LegendItem) (tp : Z) :
  length shown < 4 →
  ∃ new, legend_loop cats items shown tp = shown ++ new
         ∧ Forall2 (shows cats) new
             (take (4 - length shown) (known_percentages cats items))
         ∧ contiguous tp new.
Proof.
  revert shown tp. induction items as [|[cat pct] items IH]; intros shown tp Hlen.
  - exists []. cbn [legend_loop known_percentages List.filter].
    rewrite app_nil_r, take_nil. split_and!; [done | constructor | done].
  - cbn [legend_loop known_percentages List.filter fst].
    fold (known_percentages cats items).
    destruct (cats !! cat) as [info|] eqn:Hcat.
    + rewrite bool_decide_eq_true_2 by done.
      set (it := {| legend_color := cat_color info; legend_name := cat_name info;
                    legend_start := tp; legend_percentage := pct |}).
      assert (shows cats it (cat, pct)) as Hit.
      { split; [done |]. exists info. by split_and!. }
      replace (4 - length shown) with (S (3 - length shown)) by lia.
      rewrite firstn_cons.
      destruct (Nat.leb_spec 4 (length (shown ++ [it]))) as [Hfull | Hroom].
      * exists [it]. rewrite length_app in Hfull. cbn [length] in Hfull.
        replace (3 - length shown) with 0 by lia. rewrite take_0.
        split_and!; [done | constructor; [exact Hit | constructor] | done].
      * rewrite length_app in Hroom. cbn [length] in Hroom.
        destruct (IH (shown ++ [it]) (tp + pct)%Z) as (new & Heq & Hall & Hcont).
        { rewrite length_app. cbn [length]. lia. }
        exists (it :: new). rewrite Heq, <- app_assoc. split_and!; [done | | done].
        constructor; [done |].
        rewrite length_app in Hall. cbn [length] in Hall.
        by replace (4 - (length shown + 1)) with (3 - length shown) in Hall by lia.
    + rewrite bool_decide_eq_false_2 by (by intros [? ?]).
      by apply IH.
Qed.

(** X11: the legend of the page shows, in the order of the percentages,
    the first four categories that the category table knows, each with its
    name, its colour and its percentage; categories the table does not know
    are passed over and do not count among the four. *)
Theorem legend_items_first_four_known (cats : gmap str CategoryInfo)
    (ps : list (str * Z)) :
  Forall2 (shows cats) (legend_items cats ps)
          (take 4 (known_percentages cats ps)).
Proof.
  destruct (legend_loop_spec cats ps [] 0) as (new & Heq & Hall & _);
    [simpl; lia |].
  unfold legend_items. rewrite Heq. exact Hall.
Qed.

(** X12: the segments of the donut chart are contiguous: the first starts
    at 0 and each of the others starts where the one before it ends. *)
Theorem legend_items_contiguous (cats : gmap str CategoryInfo)
    (ps : list (str * Z)) :
  contiguous 0 (legend_items cats ps).
Proof.
  destruct (legend_loop_spec cats ps [] 0) as (new & Heq & _ & Hcont);
    [simpl; lia |].
  unfold legend_items. rewrite Heq. exact Hcont.
Qed.

Example legend_passes_over_unknown :
  map (fun item => (legend_name item, legend_start item, legend_percentage item))
      (legend_items sample_categories
         [(py "other", 40); (py "programming", 30); (py "mathematics", 30)]%Z)
  = [(py "Programming", 0, 30); (py "Mathematics", 30, 30)]%Z.
Proof. vm_compute. reflexivity. Qed.

(** ** Nodes and edges of the graph *)

Section GraphFacts.
Variable set_iter : gset str -> list str.

Lemma replace_node_node_of (p : UserProfile) (us : list UserProfile) :
  replace_node (node_of p) (map node_of us) = map node_of (replace_user p us).
Proof.
  induction us as [|u us IH]; [done |].
  cbn [map replace_node replace_user].
  change (node_id (node_of u)) with (id u).
  change (node_id (node_of p)) with (id p).
  case_bool_decide; cbn [map]; [done | by rewrite IH].
Qed.

Lemma nodes_of_add (d : Registry) (p : UserProfile) :
  nodes_of (add_user_to_database set_iter d p) =
    if bool_decide (id p ∈ map node_id (nodes_of d))
    then replace_node (node_of p) (nodes_of d)
    else nodes_of d ++ [node_of p].
Proof. reflexivity. Qed.

Lemma nodes_mirror_add (d : Registry) (p : UserProfile) :
  nodes_of d = map node_of (users d) →
  nodes_of (add_user_to_database set_iter d p)
  = map node_of (users (add_user_to_database set_iter d p)).
Proof.
  intros Hd. rewrite nodes_of_add, users_add_user_to_database, Hd.
  assert (map node_id (map node_of (users d)) = map id (users d)) as ->
    by (rewrite map_map; reflexivity).
  case_bool_decide.
  - apply replace_node_node_of.
  - by rewrite map_app.
Qed.

(** X13: the nodes of the graph mirror the users: starting from a
    registry whose nodes are the nodes of its users, in order (the empty
    registry is one), any sequence of upserts leaves one node for each
    user, in the order of the users, built from the profile now in the
    registry. *)
Theorem nodes_mirror_users (d0 : Registry) (ps : list UserProfile) :
  nodes_of d0 = map node_of (users d0) →
  nodes_of (upsert_all set_iter ps d0)
  = map node_of (users (upsert_all set_iter ps d0)).
Proof.
  revert d0. induction ps as [|p ps IH]; intros d0 Hd0; [done |].
  apply IH. by apply nodes_mirror_add.
Qed.

Lemma edges_well_formed_add (d : Registry) (p : UserProfile) :
  edges_well_formed d → edges_well_formed (add_user_to_database set_iter d p).
Proof.
  intros Hwf e He.
  assert (∀ x, x ∈ map id (users d) →
               x ∈ map id (users (add_user_to_database set_iter d p))) as Hids.
  { intros x Hx. rewrite users_add_ids. case_bool_decide; [done |].
    apply elem_of_app. by left. }
  rewrite edges_of_add in He. apply elem_of_app in He as [He | He].
  - destruct (Hwf e He) as (H1 & H2 & H3 & H4).
    split_and!; [done | by apply Hids | by apply Hids | done].
  - apply (list_elem_of_fmap_1 (new_edge set_iter p)) in He as (o & -> & Ho).
    apply elem_of_list_filter_bool in Ho as [Ho Hc].
    apply connects_true in Hc as (Hne & Hcf & _).
    cbn [new_edge edge_from edge_to edge_strength]. split_and!.
    + congruence.
    + apply (list_elem_of_fmap_2 id), users_add_has.
    + by apply (list_elem_of_fmap_2 id).
    + destruct (size (common_fields p o)) eqn:Hsize; [| lia].
      apply size_empty_inv in Hsize. by apply leibniz_equiv in Hsize.
Qed.

(** X14: upserts build no loops and no loose ends: starting from a
    registry whose edges are well formed (the empty registry is one), after
    any sequence of upserts every edge joins two different ids, both ids of
    users of the registry, with a strength of at least 1. *)
Theorem edges_stay_well_formed (d0 : Registry) (ps : list UserProfile) :
  edges_well_formed d0 → edges_well_formed (upsert_all set_iter ps d0).
Proof.
  revert d0. induction ps as [|p ps IH]; intros d0 Hd0; [done |].
  apply IH. by apply edges_well_formed_add.
Qed.

Lemma add_user_grows (d : Registry) (p : UserProfile) :
  categories (add_user_to_database set_iter d p) = categories d
  ∧ edges_of d `prefix_of` edges_of (add_user_to_database set_iter d p)
  ∧ map id (users d) `prefix_of` map id (users (add_user_to_database set_iter d p)).
Proof.
  split_and!.
  - reflexivity.
  - rewrite edges_of_add. by eexists.
  - rewrite users_add_ids. case_bool_decide; [done | by eexists].
Qed.

(** X15: an upsert only adds: after any sequence of upserts the category
    table is the one there was, the edges there were are still there, first
    and in order, and so are the ids of the users there were. *)
Theorem upsert_all_grows (d : Registry) (ps : list UserProfile) :
  categories (upsert_all set_iter ps d) = categories d
  ∧ edges_of d `prefix_of` edges_of (upsert_all set_iter ps d)
  ∧ map id (users d) `prefix_of` map id (users (upsert_all set_iter ps d)).
Proof.
  revert d. induction ps as [|p ps IH]; intros d; [done |].
  destruct (IH (add_user_to_database set_iter d p)) as (H1 & H2 & H3).
  destruct (add_user_grows d p) as (G1 & G2 & G3).
  change (upsert_all set_iter (p :: ps) d)
    with (upsert_all set_iter ps (add_user_to_database set_iter d p)).
  split_and!.
  - by rewrite H1.
  - by etrans.
  - by etrans.
Qed.
End GraphFacts.

Lemma nodes_mirror_users_witness :
  nodes_of (upsert_all elements sample_upserts empty_document)
  = map node_of (users (upsert_all elements sample_upserts empty_document)).
Proof. apply nodes_mirror_users. reflexivity. Defined.

Lemma edges_stay_well_formed_witness :
  edges_well_formed (upsert_all elements sample_upserts empty_document).
Proof.
  apply edges_stay_well_formed. intros e He. by apply elem_of_nil in He.
Defined.

(** ** Deleting a user *)

Lemma list_filter_all {A : Type} (f : A -> bool) (l : list A) :
  (∀ x, x ∈ l → f x = true) → List.filter f l = l.
Proof.
  induction l as [|x l IH]; intros Hall; simpl; [done |].
  rewrite (Hall x) by (by left). f_equal. apply IH.
  intros y Hy. apply Hall. by right.
Qed.

Lemma list_filter_shorter {A : Type} (f : A -> bool) (l : list A) (x : A) :
  x ∈ l → f x = false → length (List.filter f l) < length l.
Proof.
  induction l as [|y l IH]; intros Hin Hx; [by apply elem_of_nil in Hin |].
  simpl. pose proof (List.filter_length_le f l) as Hle.
  apply elem_of_cons in Hin as [-> | Hin].
  - rewrite Hx. lia.
  - specialize (IH Hin Hx). destruct (f y); simpl; lia.
Qed.

Lemma delete_user_document (uid : str) (d : Registry) (pg : gset str) :
  uid ≠ [] →
  delete_user (Some uid) {| registry_file := Document d; pages := pg |} =
    if bool_decide (uid ∈ map id (users d)) then
      (Status200,
       {| registry_file :=
            Document
              {| users := List.filter (fun u => negb (bool_decide (id u = uid)))
                                      (users d);
                 categories := categories d;
                 network := network d |};
          pages := pg ∖ {[uid]} |})
    else (Status404, {| registry_file := Document d; pages := pg |}).
Proof.
  intros Hne. destruct uid as [|c uid]; [done |].
  cbn [delete_user registry_file pages].
  case_bool_decide as Hin.
  - apply (list_elem_of_fmap_1 id) in Hin as (u & Hu & Hin).
    assert (length (List.filter
              (fun u => negb (bool_decide (id u = c :: uid))) (users d))
            < length (users d)) as Hlt.
    { apply (list_filter_shorter _ _ u Hin).
      by rewrite bool_decide_eq_true_2. }
    apply Nat.ltb_lt in Hlt. by rewrite Hlt.
  - rewrite list_filter_all.
    + by rewrite Nat.ltb_irrefl.
    + intros u Hu. apply negb_true_iff, bool_decide_eq_false.
      intros Hid. apply Hin. rewrite <- Hid. by apply (list_elem_of_fmap_2 id).
Qed.

(** X16: [delete_user] answers 404 exactly when the registry file holds a
    document without a user of the id asked for; unless it answers 200 it
    changes nothing on disk, neither the file nor any page; and when there
    is no registry file at all it answers 200. *)
Theorem delete_user_not_found (user_id : option str) (disk : Disk) :
  (fst (delete_user user_id disk) = Status404 ↔
     ∃ uid d, user_id = Some uid ∧ uid ≠ []
              ∧ registry_file disk = Document d
              ∧ uid ∉ map id (users d))
  ∧ (fst (delete_user user_id disk) ≠ Status200 →
     snd (delete_user user_id disk) = disk)
  ∧ (∀ uid, user_id = Some uid → uid ≠ [] → registry_file disk = NoFile →
     fst (delete_user user_id disk) = Status200).
Proof.
  destruct disk as [file pg].
  destruct user_id as [[|c uid]|].
  - split_and!.
    + split; [done | intros (u & d & [= <-] & Hne & _); done].
    + done.
    + intros u [= <-] Hne. done.
  - destruct file as [| |d].
    + split_and!.
      * split; [done | intros (u & d & _ & _ & Hd & _); done].
      * done.
      * done.
    + split_and!.
      * split; [done | intros (u & d & _ & _ & Hd & _); done].
      * done.
      * intros u _ _ Hfile. done.
    + rewrite delete_user_document by done.
      case_bool_decide as Hin; cbn [fst snd]; split_and!.
      * split; [done |]. intros (u & d' & [= <-] & _ & [= <-] & Hnot). done.
      * done.
      * done.
      * split; [intros _ | done]. by exists (c :: uid), d.
      * done.
      * intros u _ _ Hfile. done.
  - split_and!.
    + split; [done | intros (u & d & Hu & _); done].
    + done.
    + done.
Qed.

Lemma delete_user_not_found_witness :
  fst (delete_user (Some (py "carol"))
         {| registry_file := Document sample_registry; pages := {[py "carol"]} |})
  = Status404
  ∧ snd (delete_user (Some (py "carol"))
           {| registry_file := Document sample_registry; pages := {[py "carol"]} |})
    = {| registry_file := Document sample_registry; pages := {[py "carol"]} |}.
Proof.
  destruct (delete_user_not_found (Some (py "carol"))
              {| registry_file := Document sample_registry;
                 pages := {[py "carol"]} |}) as (H404 & Hsame & _).
  assert (fst (delete_user (Some (py "carol"))
                 {| registry_file := Document sample_registry;
                    pages := {[py "carol"]} |}) = Status404) as H.
  { apply H404. exists (py "carol"), sample_registry.
    split_and!; [done | done | done |].
    intros Hin. apply list_elem_of_In in Hin. vm_compute in Hin.
    destruct Hin as [H | [H | []]]; discriminate H. }
  split; [exact H |]. apply Hsame. rewrite H. discriminate.
Defined.

(** X17: when the document holds a user of the id, [delete_user] answers
    200, removes every user of that id and no other, keeps the others in
    their order, removes the page of the id and no other page, and leaves
    the category table and the network as they were: the node of the user
    and the edges to it stay in the graph. *)
Theorem delete_user_found (uid : str) (d : Registry) (pg : gset str) :
  uid ≠ [] → uid ∈ map id (users d) →
  ∃ d', delete_user (Some uid) {| registry_file := Document d; pages := pg |}
        = (Status200, {| registry_file := Document d'; pages := pg ∖ {[uid]} |})
    ∧ users d' `sublist_of` users d
    ∧ (∀ u, u ∈ users d' ↔ u ∈ users d ∧ id u ≠ uid)
    ∧ length (users d') < length (users d)
    ∧ categories d' = categories d
    ∧ network d' = network d.
Proof.
  intros Hne Hin. rewrite delete_user_document by done.
  rewrite bool_decide_eq_true_2 by done.
  eexists. split; [reflexivity |]. cbn [users categories network].
  split_and!; [apply list_filter_sublist | | | done | done].
  - intros u. rewrite elem_of_list_filter_bool, negb_true_iff, bool_decide_eq_false.
    done.
  - apply (list_elem_of_fmap_1 id) in Hin as (u & Hu & Hin).
    apply (list_filter_shorter _ _ u Hin). by rewrite bool_decide_eq_true_2.
Qed.

Lemma delete_user_found_witness :
  ∃ d', delete_user (Some (py "bob"))
          {| registry_file := Document sample_registry; pages := {[py "bob"]} |}
        = (Status200,
           {| registry_file := Document d'; pages := {[py "bob"]} ∖ {[py "bob"]} |})
    ∧ users d' `sublist_of` users sample_registry
    ∧ (∀ u, u ∈ users d' ↔ u ∈ users sample_registry ∧ id u ≠ py "bob")
    ∧ length (users d') < length (users sample_registry)
    ∧ categories d' = categories sample_registry
    ∧ network d' = network sample_registry.
Proof.
  apply delete_user_found; [done |].
  apply list_elem_of_In. vm_compute. right. left. reflexivity.
Defined.

Lemma node_of_in_nodes_add (set_iter : gset str -> list str)
    (d : Registry) (p : UserProfile) :
  node_of p ∈ nodes_of (add_user_to_database set_iter d p).
Proof.
  rewrite nodes_of_add. case_bool_decide as Hin.
  - induction (nodes_of d) as [|n ns IH]; [by apply elem_of_nil in Hin |].
    cbn [replace_node]. change (node_id (node_of p)) with (id p).
    case_bool_decide as Hn; [by left |].
    cbn [map] in Hin. apply elem_of_cons in Hin as [Hin | Hin]; [congruence |].
    right. by apply IH.
  - apply elem_of_app. right. by left.
Qed.

(** X18: deleting a user that an upsert has just added gives back the
    list of users there was, but not the graph: the node built for the
    profile and the edges appended for it stay in the network of the
    document, for a user that is no longer in it. *)
Theorem delete_after_upsert (set_iter : gset str -> list str)
    (d : Registry) (p : UserProfile) (pg : gset str) :
  id p ≠ [] → id p ∉ map id (users d) →
  ∃ d',
    delete_user (Some (id p))
      {| registry_file := Document (add_user_to_database set_iter d p);
         pages := pg |}
    = (Status200, {| registry_file := Document d'; pages := pg ∖ {[id p]} |})
    ∧ users d' = users d
    ∧ categories d' = categories d
    ∧ nodes_of d' = nodes_of (add_user_to_database set_iter d p)
    ∧ edges_of d' = edges_of (add_user_to_database set_iter d p)
    ∧ node_of p ∈ nodes_of d'
    ∧ id p ∉ map id (users d').
Proof.
  intros Hne Hnew. rewrite delete_user_document by done.
  rewrite bool_decide_eq_true_2
    by (apply (list_elem_of_fmap_2 id), users_add_has).
  eexists. split; [reflexivity |].
  assert (List.filter (fun u => negb (bool_decide (id u = id p)))
            (users (add_user_to_database set_iter d p)) = users d) as Hus.
  { rewrite users_add_user_to_database, bool_decide_eq_false_2 by done.
    rewrite List.filter_app. cbn [List.filter].
    rewrite bool_decide_eq_true_2 by done. cbn [negb].
    rewrite app_nil_r. apply list_filter_all.
    intros u Hu. apply negb_true_iff, bool_decide_eq_false.
    intros Hid. apply Hnew. rewrite <- Hid. by apply (list_elem_of_fmap_2 id). }
  cbn [users categories]. rewrite Hus.
  split_and!; [done | done | done | done | | done].
  apply (node_of_in_nodes_add set_iter d p).
Qed.

Lemma delete_after_upsert_witness :
  ∃ d',
    delete_user (Some (py "carol"))
      {| registry_file :=
           Document (add_user_to_database elements sample_registry
                       (mk_profile "carol" ["X"%string]));
         pages := ∅ |}
    = (Status200, {| registry_file := Document d'; pages := ∅ ∖ {[py "carol"]} |})
    ∧ users d' = users sample_registry
    ∧ length (edges_of d') = 1.
Proof.
  destruct (delete_after_upsert elements sample_registry
              (mk_profile "carol" ["X"%string]) ∅)
    as (d' & Hdel & Hus & _ & _ & Hedges & _).
  - discriminate.
  - intros Hin. apply list_elem_of_In in Hin. vm_compute in Hin.
    destruct Hin as [H | [H | []]]; discriminate H.
  - exists d'. split; [exact Hdel |]. split; [exact Hus |].
    rewrite Hedges. vm_compute. reflexivity.
Defined.

Lemma delete_user_no_file (uid : str) (pg : gset str) :
  uid ≠ [] →
  delete_user (Some uid) {| registry_file := NoFile; pages := pg |} =
    (Status200, {| registry_file := NoFile; pages := pg ∖ {[uid]} |}).
Proof. by destruct uid. Qed.

(** X19: deleting twice: once [delete_user] has answered 200 for an id,
    asking again changes nothing on disk, and the answer is 404 when there
    is a registry file. *)
Theorem delete_user_twice (user_id : option str) (disk : Disk) :
  fst (delete_user user_id disk) = Status200 →
  let disk1 := snd (delete_user user_id disk) in
  snd (delete_user user_id disk1) = disk1
  ∧ (registry_file disk ≠ NoFile →
     fst (delete_user user_id disk1) = Status404).
Proof.
  destruct disk as [file pg].
  destruct user_id as [[|c uid]|]; [done | | done].
  set (u := c :: uid).
  assert (pg ∖ {[u]} ∖ {[u]} = pg ∖ {[u]}) as Hpg.
  { apply set_eq. intros x. rewrite !elem_of_difference. tauto. }
  destruct file as [| |d]; [| done |].
  - intros _. rewrite !(delete_user_no_file u) by done. cbn [snd].
    rewrite !(delete_user_no_file u) by done. cbn [snd fst].
    rewrite Hpg. done.
  - rewrite (delete_user_document u d pg) by done.
    case_bool_decide as Hin; [| done]. intros _. cbn [snd].
    rewrite delete_user_document by done. cbn [users].
    rewrite bool_decide_eq_false_2; [done |].
    intros Hin'. apply (list_elem_of_fmap_1 id) in Hin' as (x & Hx & Hin').
    apply elem_of_list_filter_bool in Hin' as [_ Hf].
    apply negb_true_iff, bool_decide_eq_false in Hf. by symmetry in Hx.
Qed.

Lemma delete_user_twice_witness :
  let disk := {| registry_file := Document sample_registry; pages := ∅ |} in
  fst (delete_user (Some (py "bob")) (snd (delete_user (Some (py "bob")) disk)))
  = Status404.
Proof.
  intros disk.
  apply (delete_user_twice (Some (py "bob")) disk); [| discriminate].
  vm_compute. reflexivity.
Defined.

(** ** The file names that are let in *)

Lemma span_until_app (c : N) (a b : str) :
  c ∉ a → span_until c (a ++ c :: b) = (a, c :: b).
Proof.
  induction a as [|x a IH]; intros Hc; cbn [app span_until].
  - by rewrite N.eqb_refl.
  - apply not_elem_of_cons in Hc as [Hx Ha].
    destruct (N.eqb_spec x c) as [-> | _]; [done |]. by rewrite IH.
Qed.

Lemma span_until_spec (c : N) (s : str) :
  ∃ a b, span_until c s = (a, b) ∧ s = a ++ b ∧ (c ∉ a)
         ∧ (b = [] ∨ ∃ b', b = c :: b').
Proof.
  induction s as [|x s (a & b & Hs & Heq & Ha & Hb)]; cbn [span_until].
  - exists [], []. split_and!; [done | done | apply not_elem_of_nil | by left].
  - destruct (N.eqb_spec x c) as [-> | Hx].
    + exists [], (c :: s).
      split_and!; [done | done | apply not_elem_of_nil | right; by exists s].
    + rewrite Hs. exists (x :: a), b.
      split_and!; [done | by rewrite Heq | | done].
      apply not_elem_of_cons. split; [congruence | done].
Qed.

Lemma rsplit1_last (c : N) (before after : str) :
  c ∉ after → rsplit1 c (before ++ c :: after) = [before; after].
Proof.
  intros Hc. unfold rsplit1.
  rewrite rev_app_distr. cbn [rev]. rewrite <- app_assoc. cbn [app].
  rewrite span_until_app.
  - by rewrite !rev_involutive.
  - intros Hin. apply Hc. by apply list_elem_of_In, in_rev, list_elem_of_In.
Qed.

Lemma last_occurrence (c : N) (s : str) :
  c ∈ s → ∃ before after, s = before ++ c :: after ∧ c ∉ after.
Proof.
  intros Hin.
  destruct (span_until_spec c (rev s)) as (a & b & _ & Heq & Ha & Hb).
  destruct Hb as [-> | [b' ->]].
  - exfalso. apply Ha. rewrite app_nil_r in Heq. rewrite <- Heq.
    by apply list_elem_of_In, in_rev; rewrite rev_involutive; apply list_elem_of_In.
  - exists (rev b'), (rev a). split.
    + rewrite <- (rev_involutive s), Heq, rev_app_distr. cbn [rev].
      by rewrite <- app_assoc.
    + intros Hc. apply Ha. by apply list_elem_of_In, in_rev, list_elem_of_In.
Qed.

(** X20: a file name is let in exactly when it ends in a dot followed by
    an extension without a dot whose lower-cased form is [tsv] or [txt]:
    only what follows the last dot counts, and a name without a dot is
    refused. *)
Theorem allowed_file_extension (lower : str -> str) (filename : str) :
  allowed_file lower filename = true ↔
  ∃ base ext, filename = base ++ 46%N :: ext
              ∧ (46%N ∉ ext)
              ∧ (lower ext = py "tsv" ∨ lower ext = py "txt").
Proof.
  unfold allowed_file.
  rewrite andb_true_iff, !bool_decide_eq_true. unfold ALLOWED_EXTENSIONS.
  split.
  - intros [Hdot Hext].
    destruct (last_occurrence 46 filename Hdot) as (base & ext & -> & Hnot).
    rewrite (rsplit1_last 46 base ext Hnot) in Hext. cbn [nth] in Hext.
    exists base, ext. split_and!; [done | done |].
    apply elem_of_cons in Hext as [? | Hext]; [by left |].
    apply list_elem_of_singleton in Hext. by right.
  - intros (base & ext & -> & Hnot & Hext). split.
    + apply elem_of_app. right. by left.
    + rewrite (rsplit1_last 46 base ext Hnot). cbn [nth].
      destruct Hext as [-> | ->]; [by left | right; by left].
Qed.

Example allowed_file_examples :
  allowed_file ascii_lower (py "loans.TSV") = true
  ∧ allowed_file ascii_lower (py "loans.tsv.exe") = false
  ∧ allowed_file ascii_lower (py "tsv") = false
  ∧ allowed_file ascii_lower (py "loans.") = false
  ∧ allowed_file ascii_lower (py ".txt") = true.
Proof. vm_compute. done. Qed.

(** ** A run of the script *)

Lemma replace_node_ids (n : Node) (ns : list Node) :
  map node_id (replace_node n ns) = map node_id ns.
Proof.
  induction ns as [|m ns IH]; simpl; [done |].
  case_bool_decide as Hm; simpl; [by rewrite Hm | by rewrite IH].
Qed.

Lemma replace_node_idem (n : Node) (ns : list Node) :
  replace_node n (replace_node n ns) = replace_node n ns.
Proof.
  induction ns as [|m ns IH]; simpl; [done |].
  case_bool_decide as Hm; simpl.
  - by rewrite bool_decide_eq_true_2.
  - by rewrite bool_decide_eq_false_2, IH.
Qed.

Lemma replace_node_appended (n : Node) (ns : list Node) :
  node_id n ∉ map node_id ns → replace_node n (ns ++ [n]) = ns ++ [n].
Proof.
  induction ns as [|m ns IH]; simpl; intros Hnot.
  - by rewrite bool_decide_eq_true_2.
  - apply not_elem_of_cons in Hnot as [Hne Hnot].
    rewrite bool_decide_eq_false_2 by done. by rewrite IH.
Qed.

Lemma other_users_replace_user (p : UserProfile) (us : list UserProfile) :
  other_users (id p) (replace_user p us) = other_users (id p) us.
Proof.
  unfold other_users. induction us as [|u us IH]; [done |].
  cbn [replace_user]. destruct (decide (id u = id p)) as [Hu | Hu].
  - rewrite (bool_decide_eq_true_2 _ Hu). cbn [List.filter].
    rewrite (bool_decide_eq_true_2 _ Hu).
    by rewrite (bool_decide_eq_true_2 (id p = id p)).
  - rewrite (bool_decide_eq_false_2 _ Hu). cbn [List.filter].
    rewrite (bool_decide_eq_false_2 _ Hu). cbn [negb]. by rewrite IH.
Qed.

Section UpsertFacts.
Variable set_iter : gset str -> list str.

Lemma add_user_to_database_eta (d : Registry) (p : UserProfile) :
  add_user_to_database set_iter d p =
    {| users := users (add_user_to_database set_iter d p);
       categories := categories d;
       network :=
         Some {| nodes := nodes_of (add_user_to_database set_iter d p);
                 edges := edges_of (add_user_to_database set_iter d p) |} |}.
Proof. reflexivity. Qed.

Lemma nodes_of_add_again (d : Registry) (p : UserProfile) :
  let d1 := add_user_to_database set_iter d p in
  nodes_of (add_user_to_database set_iter d1 p) = nodes_of d1.
Proof.
  intros d1. rewrite nodes_of_add.
  rewrite bool_decide_eq_true_2.
  - subst d1. rewrite nodes_of_add. case_bool_decide as Hin.
    + apply replace_node_idem.
    + by apply replace_node_appended.
  - apply (list_elem_of_fmap_2 node_id _ (node_of p)).
    apply node_of_in_nodes_add.
Qed.

Lemma other_users_add (d : Registry) (p : UserProfile) :
  other_users (id p) (users (add_user_to_database set_iter d p))
  = other_users (id p) (users d).
Proof.
  rewrite users_add_user_to_database. case_bool_decide.
  - apply other_users_replace_user.
  - unfold other_users. rewrite List.filter_app. cbn [List.filter].
    rewrite (bool_decide_eq_true_2 (id p = id p)) by done.
    apply app_nil_r.
Qed.

Lemma add_user_to_database_twice (d : Registry) (p : UserProfile) :
  add_user_to_database set_iter (add_user_to_database set_iter d p) p
  = add_user_to_database set_iter d p.
Proof.
  destruct (add_user_to_database_again set_iter d p) as [Hus Hes].
  rewrite (add_user_to_database_eta (add_user_to_database set_iter d p) p).
  rewrite Hus, Hes, nodes_of_add_again.
  change (categories (add_user_to_database set_iter d p)) with (categories d).
  symmetry. apply add_user_to_database_eta.
Qed.

(** X25: upserting is idempotent: upserting the same profile a second
    time changes nothing, neither the users, nor the categories, nor the
    nodes and edges of the graph, whatever the registry was; and the users
    of other ids are the same before and after an upsert, in the same
    order. *)
Theorem add_user_to_database_idempotent (d : Registry) (p : UserProfile) :
  add_user_to_database set_iter (add_user_to_database set_iter d p) p
  = add_user_to_database set_iter d p
  ∧ other_users (id p) (users (add_user_to_database set_iter d p))
    = other_users (id p) (users d).
Proof.
  split; [apply add_user_to_database_twice | apply other_users_add].
Qed.
End UpsertFacts.

Section PipelineFacts.
Variable lower : str -> str.
Variable upper : str -> str.
Variable set_iter : gset str -> list str.

Lemma create_user_profile_some (current_year : Z) (self : MypageGenerator)
    (uid uname pos av : str) (df : DataFrame) (h : Store) :
  df ≠ [] →
  ∃ p h',
    create_user_profile lower current_year self uid uname pos av df h
    = (Some p, h')
    ∧ id p = uid ∧ name p = uname ∧ position p = pos ∧ avatar p = av
    ∧ totalBooks (stats p) = length (drop_duplicates df)
    ∧ ∀ self',
        categories (users_data self') = categories (users_data self) →
        category_keywords self' = category_keywords self →
        create_user_profile lower current_year self' uid uname pos av df h
        = (Some p, h').
Proof.
  destruct df as [|row df]; [done |]. intros _.
  rewrite create_user_profile_eq. eexists _, _. split; [reflexivity |].
  split_and!; try done.
  intros self' Hc Hk. rewrite create_user_profile_eq. by rewrite Hc, Hk.
Qed.

Lemma main_loaded (current_year : Z) (fs : FileSystem) (d : Disk)
    (df : DataFrame) (uid uname pos : str) (avatar : option str) :
  registry_file d ≠ Malformed →
  main lower upper set_iter current_year fs d df uid uname pos avatar =
    match process_tsv_file lower upper set_iter current_year fs
            {| self := {| users_data := registry_before d;
                          category_keywords := default_category_keywords |};
               store := [];
               disk := d |} df uid uname pos avatar with
    | Crashed d' => (1%Z, d')
    | Finished _ g => (0%Z, disk g)
    end.
Proof.
  unfold main, registry_before. by destruct (registry_file d).
Qed.

Lemma process_tsv_file_cases (current_year : Z) (fs : FileSystem)
    (g : RunState) (df : DataFrame) (uid uname pos : str)
    (avatar : option str) :
  let run := process_tsv_file lower upper set_iter current_year fs g df uid
               uname pos avatar in
  (df = [] ∧ run = Finished false g)
  ∨ (df ≠ []
     ∧ (truthy avatar = false ∧ uid = [] ∨ page_opens fs = false)
     ∧ run = Crashed (disk g))
  ∨ (df ≠ []
     ∧ (truthy avatar = true ∨ uid ≠ [])
     ∧ page_opens fs = true
     ∧ ∃ p av h,
         create_user_profile lower current_year (self g) uid uname pos av df
           (store g) = (Some p, h)
         ∧ effective_avatar upper uid avatar = Some av
         ∧ run =
             if registry_opens fs then
               Finished true
                 {| self :=
                      {| users_data :=
                           add_user_to_database set_iter (users_data (self g)) p;
                         category_keywords := category_keywords (self g) |};
                    store := h;
                    disk :=
                      {| registry_file :=
                           Document (add_user_to_database set_iter
                                       (users_data (self g)) p);
                         pages := {[uid]} ∪ pages (disk g) |} |}
             else
               Crashed {| registry_file := registry_file (disk g);
                          pages := {[uid]} ∪ pages (disk g) |}).
Proof.
  intros run. subst run.
  destruct df as [|row df]; [by left |]. right.
  unfold process_tsv_file.
  fold (effective_avatar upper uid avatar).
  assert (effective_avatar upper uid avatar = None
          ∧ truthy avatar = false ∧ uid = []
          ∨ ∃ av, effective_avatar upper uid avatar = Some av
                  ∧ (truthy avatar = true ∨ uid ≠ [])) as Hav.
  { destruct avatar as [[|c a]|]; cbn [truthy effective_avatar].
    - destruct uid as [|c0 uid']; [by left |]. right.
      eexists. split; [reflexivity | by right].
    - right. eexists. split; [reflexivity | by left].
    - destruct uid as [|c0 uid']; [by left |]. right.
      eexists. split; [reflexivity | by right]. }
  destruct Hav as [(Hnone & Ht & Hu) | (av & Hsome & Hor)];
    rewrite ?Hnone, ?Hsome.
  { left. split; [done |]. split; [by left | done]. }
  destruct (create_user_profile_some current_year (self g) uid uname pos av
              (row :: df) (store g)) as (p & h & Hp & _); [done |].
  rewrite Hp.
  destruct (page_opens fs) eqn:Hpage; cbn [negb].
  - right. split; [done |]. split; [done |]. split; [done |].
    exists p, av, h. split; [done |]. split; [done |].
    by destruct (registry_opens fs).
  - left. split; [done |]. split; [by right | done].
Qed.

Lemma main_cases (current_year : Z) (fs : FileSystem) (d : Disk)
    (df : DataFrame) (uid uname pos : str) (avatar : option str) :
  let run := main lower upper set_iter current_year fs d df uid uname pos
               avatar in
  (registry_file d = Malformed ∧ run = (1%Z, d))
  ∨ (registry_file d ≠ Malformed ∧ df = [] ∧ run = (0%Z, d))
  ∨ (registry_file d ≠ Malformed ∧ df ≠ []
     ∧ (truthy avatar = false ∧ uid = [] ∨ page_opens fs = false)
     ∧ run = (1%Z, d))
  ∨ (registry_file d ≠ Malformed ∧ df ≠ []
     ∧ (truthy avatar = true ∨ uid ≠ [])
     ∧ page_opens fs = true ∧ registry_opens fs = false
     ∧ run = (1%Z, {| registry_file := registry_file d;
                      pages := {[uid]} ∪ pages d |}))
  ∨ (registry_file d ≠ Malformed ∧ df ≠ []
     ∧ (truthy avatar = true ∨ uid ≠ [])
     ∧ page_opens fs = true ∧ registry_opens fs = true
     ∧ ∃ p av h,
         create_user_profile lower current_year
           {| users_data := registry_before d;
              category_keywords := default_category_keywords |}
           uid uname pos av df [] = (Some p, h)
         ∧ effective_avatar upper uid avatar = Some av
         ∧ run = (0%Z,
                  {| registry_file :=
                       Document (add_user_to_database set_iter
                                   (registry_before d) p);
                     pages := {[uid]} ∪ pages d |})).
Proof.
  intros run. subst run.
  assert (registry_file d = Malformed ∨ registry_file d ≠ Malformed)
    as [Hbad | Hok] by (destruct (registry_file d); [by right | by left | by right]).
  { left. split; [done |]. unfold main. by rewrite Hbad. }
  right. rewrite (main_loaded _ _ _ _ _ _ _ _ Hok).
  destruct (process_tsv_file_cases current_year fs
              {| self := {| users_data := registry_before d;
                            category_keywords := default_category_keywords |};
                 store := [];
                 disk := d |} df uid uname pos avatar)
    as [(Hdf & ->) | [(Hdf & Hwhy & ->) | (Hdf & Hav & Hpage & p & av & h & Hp & Hsome & ->)]];
    cbn [disk self store users_data category_keywords] in *.
  - by left.
  - right. by left.
  - right. right. destruct (registry_opens fs) eqn:Hreg; cbn [disk].
    + right. split_and!; try done. by exists p, av, h.
    + by left.
Qed.


Lemma registry_before_document (r : Registry) (pg : gset str) :
  registry_before {| registry_file := Document r; pages := pg |} = r.
Proof. reflexivity. Qed.

(** X23: what a run leaves alone, however it ends: the pages of the other
    users are there after the run exactly if they were before, no page is
    removed, the users of other ids are the same in the registry file, in
    the same order, and so are the categories. The registry file is
    rewritten only by a run that ends with status 0 on a table with a row,
    and then the page of the user is there too. *)
Theorem main_keeps_the_others (current_year : Z) (fs : FileSystem) (d : Disk)
    (df : DataFrame) (uid uname pos : str) (avatar : option str) :
  let run := main lower upper set_iter current_year fs d df uid uname pos
               avatar in
  (∀ other, other ≠ uid → other ∈ pages (snd run) ↔ other ∈ pages d)
  ∧ pages d ⊆ pages (snd run)
  ∧ other_users uid (users (registry_before (snd run)))
    = other_users uid (users (registry_before d))
  ∧ categories (registry_before (snd run)) = categories (registry_before d)
  ∧ (registry_file (snd run) ≠ registry_file d →
     fst run = 0%Z ∧ df ≠ [] ∧ uid ∈ pages (snd run)
     ∧ uid ∈ map id (users (registry_before (snd run)))).
Proof.
  intros run.
  assert (∀ other, other ≠ uid →
            other ∈ ({[uid]} ∪ pages d : gset str) ↔ other ∈ pages d) as Hpg.
  { intros other Hne. rewrite elem_of_union, elem_of_singleton. tauto. }
  assert (pages d ⊆ ({[uid]} ∪ pages d : gset str)) as Hsub.
  { intros x Hx. apply elem_of_union. by right. }
  destruct (main_cases current_year fs d df uid uname pos avatar)
    as [(Hbad & Hrun) | [(Hok & Hdf & Hrun) | [(Hok & Hdf & Hwhy & Hrun)
       | [(Hok & Hdf & Hav & Hpage & Hreg & Hrun)
       | (Hok & Hdf & Hav & Hpage & Hreg & p & av & h & Hp & Hsome & Hrun)]]]];
    fold run in Hrun; rewrite Hrun; cbn [fst snd].
  1-3: by split_and!.
  - cbn [pages registry_file]. split_and!; try done.
  - cbn [pages registry_file]. rewrite registry_before_document.
    destruct (create_user_profile_some current_year
                {| users_data := registry_before d;
                   category_keywords := default_category_keywords |}
                uid uname pos av df [] Hdf)
      as (p' & h' & Hp' & Hid & _).
    rewrite Hp in Hp'. apply (f_equal fst) in Hp'. cbn [fst] in Hp'.
    apply (inj Some) in Hp'. subst p'.
    split_and!; [done | done | | done |].
    + rewrite <- Hid. apply other_users_add.
    + intros _. split_and!; [done | done | |].
      * apply elem_of_union. left. by apply elem_of_singleton.
      * rewrite <- Hid. apply (list_elem_of_fmap_2 id), users_add_has.
Qed.

(** X26: running the script again: after a run that ended with status 0, a
    second run on the same table with the same arguments ends with status
    0 and leaves the disk exactly as the first run left it: no second
    entry, node or edge, and the same page. *)
Theorem main_twice (current_year : Z) (fs : FileSystem) (d d1 : Disk)
    (df : DataFrame) (uid uname pos : str) (avatar : option str) :
  main lower upper set_iter current_year fs d df uid uname pos avatar
  = (0%Z, d1) →
  main lower upper set_iter current_year fs d1 df uid uname pos avatar
  = (0%Z, d1).
Proof.
  intros Hfirst.
  destruct (main_cases current_year fs d df uid uname pos avatar)
    as [(Hbad & Hrun) | [(Hok & Hdf & Hrun) | [(Hok & Hdf & Hwhy & Hrun)
       | [(Hok & Hdf & Hav & Hpage & Hreg & Hrun)
       | (Hok & Hdf & Hav & Hpage & Hreg & p & av & h & Hp & Hsome & Hrun)]]]];
    rewrite Hfirst in Hrun; try discriminate Hrun.
  - injection Hrun as ->. by rewrite Hfirst.
  - injection Hrun as ->.
    set (r1 := add_user_to_database set_iter (registry_before d) p).
    destruct (main_cases current_year fs
                {| registry_file := Document r1; pages := {[uid]} ∪ pages d |}
                df uid uname pos avatar)
      as [(Hbad & _) | [(_ & Hdf' & _) | [(_ & _ & Hwhy & _)
         | [(_ & _ & _ & _ & Hreg' & _)
         | (_ & _ & _ & _ & _ & p2 & av2 & h2 & Hp2 & Hsome2 & Hrun2)]]]];
      try done; try congruence.
    { destruct Hwhy as [[Ht Hu] | Hno]; [| congruence].
      destruct Hav; congruence. }
    rewrite Hrun2. rewrite registry_before_document in *.
    cbn [pages].
    destruct (create_user_profile_some current_year
                {| users_data := registry_before d;
                   category_keywords := default_category_keywords |}
                uid uname pos av df [] Hdf)
      as (p' & h' & Hp' & _ & _ & _ & _ & _ & Hsame).
    rewrite Hp in Hp'. injection Hp' as <- <-.
    assert (av2 = av) as -> by congruence.
    rewrite (Hsame {| users_data := r1;
                      category_keywords := default_category_keywords |}
               eq_refl eq_refl) in Hp2.
    injection Hp2 as <- <-.
    subst r1. rewrite add_user_to_database_twice.
    by rewrite (assoc_L (∪)), union_idemp_L.
Qed.
Lemma users_have_pages_main (current_year : Z) (fs : FileSystem) (d : Disk)
    (df : DataFrame) (uid uname pos : str) (avatar : option str) :
  users_have_pages d →
  users_have_pages
    (snd (main lower upper set_iter current_year fs d df uid uname pos avatar)).
Proof.
  intros Hinv.
  destruct (main_cases current_year fs d df uid uname pos avatar)
    as [(Hbad & Hrun) | [(Hok & Hdf & Hrun) | [(Hok & Hdf & Hwhy & Hrun)
       | [(Hok & Hdf & Hav & Hpage & Hreg & Hrun)
       | (Hok & Hdf & Hav & Hpage & Hreg & p & av & h & Hp & Hsome & Hrun)]]]];
    rewrite Hrun; cbn [snd]; try done.
  - intros u Hu. cbn [pages]. apply elem_of_union. right. by apply Hinv.
  - intros u Hu. rewrite registry_before_document in Hu. cbn [pages].
    apply elem_of_union.
    destruct (users_add_elem set_iter _ _ _ Hu) as [-> | Hold].
    + left. apply elem_of_singleton.
      destruct (create_user_profile_some current_year
                  {| users_data := registry_before d;
                     category_keywords := default_category_keywords |}
                  uid uname pos av df [] Hdf)
        as (p' & h' & Hp' & Hid & _).
      rewrite Hp in Hp'. by injection Hp' as <- <-.
    + right. by apply Hinv.
Qed.

Lemma users_have_pages_delete_user (user_id : option str) (d : Disk) :
  users_have_pages d → users_have_pages (snd (delete_user user_id d)).
Proof.
  intros Hinv. destruct d as [file pg].
  destruct user_id as [[|c uid]|]; [done | | done].
  destruct file as [| |r].
  { intros u Hu. by apply elem_of_nil in Hu. }
  { exact Hinv. }
  rewrite delete_user_document by done.
  case_bool_decide as Hin; cbn [snd]; [| done].
  intros u Hu. rewrite registry_before_document in Hu. cbn [users pages] in *.
  apply elem_of_list_filter_bool in Hu as [Hu Hne].
  apply negb_true_iff, bool_decide_eq_false in Hne.
  apply elem_of_difference. split.
  - by apply (Hinv u).
  - intros Hs%elem_of_singleton. done.
Qed.

(** X24: every registered user has a page: if each user of the registry
    file has a page, this is still so after any sequence of runs of the
    script and deletions, whatever the tables and arguments, and however
    the runs end. *)
Theorem users_have_pages_invariant (d d' : Disk) :
  users_have_pages d →
  rtc (disk_step lower upper set_iter) d d' →
  users_have_pages d'.
Proof.
  intros Hinv Hsteps. induction Hsteps as [d | d d1 d2 Hstep _ IH]; [done |].
  apply IH. destruct Hstep.
  - by apply users_have_pages_main.
  - by apply users_have_pages_delete_user.
Qed.
End PipelineFacts.


Lemma sample_disk_users_have_pages : users_have_pages sample_disk.
Proof.
  intros u Hu. apply list_elem_of_In in Hu.
  destruct Hu as [<- | [<- | []]].
  - apply elem_of_union. left. by apply elem_of_singleton.
  - apply elem_of_union. right. by apply elem_of_singleton.
Qed.

Lemma users_have_pages_invariant_witness :
  users_have_pages
    (snd (delete_user (Some (py "bob"))
            (snd (main ascii_lower ascii_upper elements 2025 all_open
                    sample_disk sample_df (py "carol") (py "Carol") (py "M2")
                    None)))).
Proof.
  apply (users_have_pages_invariant ascii_lower ascii_upper elements
           sample_disk).
  - exact sample_disk_users_have_pages.
  - eapply rtc_l.
    + apply (step_generate ascii_lower ascii_upper elements 2025 all_open
               sample_disk sample_df (py "carol") (py "Carol") (py "M2") None).
    + apply rtc_once. apply step_delete.
Defined.

Lemma main_twice_witness :
  let run :=
    main ascii_lower ascii_upper elements 2025 all_open sample_disk sample_df
      (py "carol") (py "Carol") (py "M2") None in
  main ascii_lower ascii_upper elements 2025 all_open (snd run) sample_df
    (py "carol") (py "Carol") (py "M2") None = (0%Z, snd run).
Proof.
  intros run. apply (main_twice ascii_lower ascii_upper elements 2025 all_open
                       sample_disk).
  fold run. rewrite (surjective_pairing run) at 1. f_equal.
Defined.

Example main_on_an_empty_table :
  main ascii_lower ascii_upper elements 2025 all_open sample_disk []
    (py "carol") (py "Carol") (py "M2") None = (0%Z, sample_disk)
  ∧ fst (main ascii_lower ascii_upper elements 2025 all_open
           {| registry_file := Malformed; pages := ∅ |} sample_df
           (py "carol") (py "Carol") (py "M2") None) = 1%Z
  ∧ fst (main ascii_lower ascii_upper elements 2025 all_open empty_disk
           sample_df [] (py "Carol") (py "M2") None) = 1%Z
  ∧ fst (main ascii_lower ascii_upper elements 2025 all_open empty_disk
           sample_df [] (py "Carol") (py "M2") (Some (py "a.png"))) = 0%Z.
Proof. split_and!; reflexivity. Qed.

(** ** The worker and the upload endpoint *)

Section WorkerFacts.
Variable clock : nat -> str.
Variable lower : str -> str.
Variable secure_filename : str -> str.

Lemma upload_file_idle (st : ProcessingStatus) (req : UploadRequest) :
  is_processing st = false →
  upload_file lower secure_filename st req
  = upload_file lower secure_filename initial_status req.
Proof. intros Hidle. unfold upload_file. by rewrite Hidle. Qed.

Lemma worker_ends (env : WorkerEnv) (tsv_path uid uname : str)
    (st : ProcessingStatus) :
  let st' := process_mypage_generation clock env tsv_path uid uname st in
  is_processing st' = false ∧ status_progress st' = 100%Z.
Proof.
  intros st'. subst st'. unfold process_mypage_generation.
  destruct env as [[e | rc out err] page reg rm];
    cbn [script_run page_there registry_there remove_ok].
  - destruct rm; split; reflexivity.
  - destruct (rc =? 0)%Z, page, reg, rm; split; reflexivity.
Qed.

Lemma worker_success (env : WorkerEnv) (tsv_path uid uname : str)
    (st : ProcessingStatus) (out err : str) :
  script_run env = RunCompleted 0 out err →
  let st' := process_mypage_generation clock env tsv_path uid uname st in
  error st' = None
  ∧ status_message st' = py "✅ " ++ uname ++ py " のマイページ生成完了！"
  ∧ ∃ entry, entry ∈ logs st' ∧ log_text entry = out
             ∧ log_level entry = py "success".
Proof.
  intros Hrun st'. subst st'. unfold process_mypage_generation.
  rewrite Hrun. cbn [Z.eqb].
  destruct (page_there env), (registry_there env), (remove_ok env).
  all: split; [reflexivity |]; split; [reflexivity |].
  all: eexists; split; [by apply (list_elem_of_lookup_2 _ 4) |].
  all: split; reflexivity.
Qed.

(** X27: how a run of the worker ends, whatever the script did and
    whatever the status was before: the service is idle again, the
    progress is 100, and uploads are taken as at start. No error is
    recorded exactly when the script completed with status 0, and exactly
    then the last message is the message of success; a recorded error is
    also in a log entry of level error. Nothing of the status before the
    run is left: the run ends in the same status from any status. *)
Theorem worker_outcome (env : WorkerEnv) (tsv_path uid uname : str)
    (st : ProcessingStatus) :
  let st' := process_mypage_generation clock env tsv_path uid uname st in
  is_processing st' = false
  ∧ status_progress st' = 100%Z
  ∧ (∀ req, upload_file lower secure_filename st' req
            = upload_file lower secure_filename initial_status req)
  ∧ (error st' = None ↔
       ∃ out err, script_run env = RunCompleted 0 out err)
  ∧ (error st' = None ↔
       status_message st' = py "✅ " ++ uname ++ py " のマイページ生成完了！")
  ∧ (∀ e, error st' = Some e →
       ∃ entry prefix, entry ∈ logs st' ∧ log_level entry = py "error"
                       ∧ log_text entry = prefix ++ e)
  ∧ st' = process_mypage_generation clock env tsv_path uid uname
            initial_status.
Proof.
  intros st'.
  destruct (worker_ends env tsv_path uid uname st) as [Hidle Hdone].
  fold st' in Hidle, Hdone.
  split; [done |]. split; [done |].
  split; [intros req; by apply upload_file_idle |].
  split; [| split; [| split; [| reflexivity]]].
  - subst st'. unfold process_mypage_generation.
    destruct env as [[e | rc out err] page reg rm];
      cbn [script_run page_there registry_there remove_ok].
    + split; [| intros (? & ? & ?); done].
      intros H. destruct rm; discriminate H.
    + destruct (Z.eqb_spec rc 0) as [-> | Hrc].
      * split; [intros _; by eexists _, _ |].
        intros _. by destruct page, reg, rm.
      * split; [| intros (? & ? & [= -> _ _]); done].
        intros H. destruct rm; discriminate H.
  - subst st'. unfold process_mypage_generation.
    destruct env as [[e | rc out err] page reg rm];
      cbn [script_run page_there registry_there remove_ok].
    + split; [intros H; destruct rm; discriminate H |].
      intros H. destruct rm; vm_compute in H; discriminate H.
    + destruct (Z.eqb_spec rc 0) as [-> | Hrc].
      * split; [| intros _; by destruct page, reg, rm].
        intros _. by destruct page, reg, rm.
      * split; [intros H; destruct rm; discriminate H |].
        intros H. destruct rm; vm_compute in H; discriminate H.
  - subst st'. unfold process_mypage_generation.
    destruct env as [[e | rc out err] page reg rm];
      cbn [script_run page_there registry_there remove_ok].
    + intros e' He'.
      destruct rm;
        (eexists _, (py "予期しないエラー: ");
         split; [by apply (list_elem_of_lookup_2 _ 2) |];
         split; [reflexivity |];
         cbn [log_text]; by injection He' as <-).
    + destruct (Z.eqb_spec rc 0) as [-> | Hrc].
      * intros e' He'. destruct page, reg, rm; discriminate He'.
      * intros e' He'.
        destruct rm;
          (eexists _, (py "エラー: ");
           split; [by apply (list_elem_of_lookup_2 _ 3) |];
           split; [reflexivity |];
           cbn [log_text]; by injection He' as <-).
Qed.
End WorkerFacts.

(** X28: the worker trusts the exit status: when the script is run on an
    empty table with a registry file that is not malformed, it generates
    nothing and leaves the disk as it was, yet the worker records no
    error, logs the output of the script at level success and ends with
    the message of success. *)
Theorem worker_reports_success_on_empty_table (clock : nat -> str)
    (lower upper : str -> str) (set_iter : gset str -> list str)
    (current_year : Z) (fs : FileSystem) (d : Disk)
    (uid uname pos : str) (avatar : option str)
    (env : WorkerEnv) (tsv_path : str) (st : ProcessingStatus)
    (out err : str) :
  let run := main lower upper set_iter current_year fs d [] uid uname pos
               avatar in
  registry_file d ≠ Malformed →
  script_run env = RunCompleted (fst run) out err →
  let st' := process_mypage_generation clock env tsv_path uid uname st in
  snd run = d
  ∧ error st' = None
  ∧ status_message st' = py "✅ " ++ uname ++ py " のマイページ生成完了！"
  ∧ ∃ entry, entry ∈ logs st' ∧ log_text entry = out
             ∧ log_level entry = py "success".
Proof.
  intros run Hok Hrun st'.
  destruct (main_cases lower upper set_iter current_year fs d [] uid uname pos
              avatar)
    as [(Hbad & _) | [(_ & _ & Hmain) | [(_ & Hdf & _)
       | [(_ & Hdf & _) | (_ & Hdf & _)]]]]; try done.
  fold run in Hmain. rewrite Hmain in Hrun |- *. cbn [fst snd] in *.
  split; [done |].
  by apply (worker_success clock env tsv_path uid uname st out err).
Qed.

Lemma worker_reports_success_on_empty_table_witness :
  let st' :=
    process_mypage_generation sample_clock
      {| script_run := RunCompleted 0 (py "failed") [];
         page_there := false; registry_there := true; remove_ok := true |}
      (py "carol_loans.tsv") (py "carol") (py "Carol") initial_status in
  error st' = None
  ∧ status_message st' = py "✅ " ++ py "Carol" ++ py " のマイページ生成完了！".
Proof.
  intros st'.
  destruct (worker_reports_success_on_empty_table sample_clock ascii_lower
              ascii_upper elements 2025 all_open sample_disk (py "carol")
              (py "Carol") (py "M2") None
              {| script_run := RunCompleted 0 (py "failed") [];
                 page_there := false; registry_there := true;
                 remove_ok := true |}
              (py "carol_loans.tsv") initial_status (py "failed") [])
    as (_ & Herr & Hmsg & _).
  - discriminate.
  - reflexivity.
  - split; [exact Herr | exact Hmsg].
Defined.

Section UploadFacts.
Variable lower : str -> str.
Variable secure_filename : str -> str.

Lemma truthy_some (field : option str) :
  truthy field = true → ∃ v, field = Some v ∧ v ≠ [].
Proof. destruct field as [[|c v]|]; [done | | done]. intros _. by eexists. Qed.

(** X29: what [upload_file] lets through: a worker is started only when
    no run is in progress, the name of the file has a dot and what follows
    its last dot is tsv or txt in lower case, and the id, the name and the
    position are given and not empty; the worker gets these three as they
    are, and the file is saved under the id, an underscore and the secured
    name. While a run is in progress every upload is refused. *)
Theorem upload_file_started (st : ProcessingStatus) (req : UploadRequest) :
  (∀ args, upload_file lower secure_filename st req = Started args →
     is_processing st = false
     ∧ (∃ base ext,
          upload_filename req = Some (base ++ [46%N] ++ ext)
          ∧ (46%N ∉ ext)
          ∧ (lower ext = py "tsv" ∨ lower ext = py "txt")
          ∧ arg_tsv_path args
            = arg_user_id args ++ py "_"
              ++ secure_filename (base ++ [46%N] ++ ext))
     ∧ form_user_id req = Some (arg_user_id args) ∧ arg_user_id args ≠ []
     ∧ form_user_name req = Some (arg_user_name args)
     ∧ arg_user_name args ≠ []
     ∧ form_position req = Some (arg_position args)
     ∧ arg_position args ≠ [])
  ∧ (is_processing st = true →
     upload_file lower secure_filename st req = Refused).
Proof.
  split; [| intros Hbusy; unfold upload_file; by rewrite Hbusy].
  intros args. unfold upload_file.
  destruct (is_processing st); [done |].
  destruct (upload_filename req) as [[|c filename]|]; [done | | done].
  destruct (allowed_file lower (c :: filename)) eqn:Hallowed; [| done].
  cbn [negb].
  destruct (truthy (form_user_id req)) eqn:Hid; [| done].
  destruct (truthy (form_user_name req)) eqn:Hname; [| done].
  destruct (truthy (form_position req)) eqn:Hpos; [| done].
  cbn [andb negb]. intros [= <-].
  apply truthy_some in Hid as (vid & -> & Hvid).
  apply truthy_some in Hname as (vname & -> & Hvname).
  apply truthy_some in Hpos as (vpos & -> & Hvpos).
  cbn [arg_tsv_path arg_user_id arg_user_name arg_position default].
  split; [done |]. split; [| done].
  unfold allowed_file in Hallowed.
  apply andb_true_iff in Hallowed as [Hdot Hext].
  apply bool_decide_eq_true in Hdot, Hext.
  destruct (last_occurrence 46 (c :: filename) Hdot) as (base & ext & Hcut & Hnot).
  rewrite Hcut in Hext |- *.
  rewrite (rsplit1_last 46 base ext Hnot) in Hext. cbn [nth] in Hext.
  exists base, ext. split_and!; [done | done | | done].
  unfold ALLOWED_EXTENSIONS in Hext.
  apply elem_of_cons in Hext as [? | Hext]; [by left |].
  apply list_elem_of_singleton in Hext. by right.
Qed.
End UploadFacts.

Example upload_file_examples :
  let req (name uid : string) :=
    {| upload_filename := Some (py name); form_user_id := Some (py uid);
       form_user_name := Some (py "Carol"); form_position := Some (py "M2");
       form_email := None; form_avatar_url := None |} in
  upload_file ascii_lower (fun s => s) initial_status (req "loans.TSV"%string "carol"%string)
    = Started {| arg_tsv_path := py "carol_loans.TSV";
                 arg_user_id := py "carol"; arg_user_name := py "Carol";
                 arg_position := py "M2"; arg_email := [];
                 arg_avatar_url := [] |}
  ∧ upload_file ascii_lower (fun s => s) initial_status (req "loans.csv"%string "carol"%string)
    = Refused
  ∧ upload_file ascii_lower (fun s => s) initial_status (req "loans.tsv"%string EmptyString)
    = Refused.
Proof. vm_compute. done. Qed.

(** ** Reading the table *)

Lemma parse_tsv_file_frame (width : nat) (row : list Cell)
    (rows : list (list Cell)) :
  parse_tsv_file (Frame width (row :: rows)) =
    if (width =? 7)%nat then row :: rows
    else if (width =? 8)%nat
            && forallb (fun r => isna (nth 7 r NaN)) (row :: rows)
         then map (take 7) (row :: rows)
         else [].
Proof.
  unfold parse_tsv_file.
  destruct (Nat.eqb_spec width 7) as [-> | H7]; [done |].
  destruct (Nat.eqb_spec width 8) as [-> | H8]; cbn [andb].
  - by destruct (forallb _ _).
  - by rewrite (proj2 (Nat.eqb_neq width 7) H7).
Qed.

(** X30: the frames that [parse_tsv_file] lets through: every row of the
    result has exactly seven cells. The result has a row exactly when the
    file could be read, has a row, and has seven columns, or eight of
    which the last is empty in every row; then the result is the rows of
    the file, in order, each cut to its first seven cells. A file of eight
    columns with a value somewhere in the eighth is refused, not cut. *)
Theorem parse_tsv_file_columns (read : ReadCsv) :
  well_formed read →
  let df := parse_tsv_file read in
  Forall (fun row => length row = 7) df
  ∧ (df ≠ [] ↔
       ∃ width rows,
         read = Frame width rows ∧ rows ≠ []
         ∧ (width = 7
            ∨ width = 8 ∧ Forall (fun row => nth 7 row NaN = NaN) rows))
  ∧ (∀ width rows, read = Frame width rows → df ≠ [] →
       df = map (take 7) rows).
Proof.
  intros Hwf df. subst df.
  destruct read as [|width [|row rows]].
  { split_and!; [by apply Forall_nil | | done].
    split; [done | intros (w & rs & Heq & _)]. done. }
  { split_and!; [by apply Forall_nil | | done].
    split; [done | intros (w & rs & Heq & Hne & _)].
    injection Heq as <- <-. done. }
  rewrite parse_tsv_file_frame. cbn [well_formed] in Hwf.
  assert (Forall (fun r : list Cell => nth 7 r NaN = NaN) (row :: rows)
          ↔ forallb (fun r => isna (nth 7 r NaN)) (row :: rows) = true) as Hna.
  { rewrite forallb_forall, Forall_forall. split; intros H r Hr.
    - apply list_elem_of_In in Hr. by rewrite (H r Hr).
    - apply list_elem_of_In in Hr. specialize (H r Hr).
      by destruct (nth 7 r NaN). }
  destruct (Nat.eqb_spec width 7) as [-> | H7].
  - split_and!.
    + done.
    + split; [intros _ | done]. exists 7, (row :: rows). split_and!; try done.
      by left.
    + intros w rs [= <- <-] _.
      symmetry. etrans; [| apply map_id].
      apply map_ext_Forall. eapply Forall_impl; [exact Hwf |].
      intros r Hr. cbn beta in *. apply take_ge. lia.
  - destruct (Nat.eqb_spec width 8) as [-> | H8]; cbn [andb].
    + destruct (forallb _ (row :: rows)) eqn:Hall.
      * split_and!.
        -- apply Forall_forall. intros r Hr.
           apply list_elem_of_In, in_map_iff in Hr as (r0 & <- & Hr0).
           apply list_elem_of_In in Hr0.
           rewrite Forall_forall in Hwf. specialize (Hwf r0 Hr0).
           rewrite length_take. cbn beta in Hwf. lia.
        -- split; [intros _ | done].
           exists 8, (row :: rows). split_and!; try done.
           right. split; [done |]. by apply Hna.
        -- intros w rs [= <- <-] _. done.
      * split_and!; [by apply Forall_nil | | done].
        split; [done |]. intros (w & rs & [= <- <-] & _ & [? | [_ Hf]]); [done |].
        apply Hna in Hf. congruence.
    + split_and!; [by apply Forall_nil | | done].
      split; [done |]. intros (w & rs & [= <- <-] & _ & [? | [? _]]); done.
Qed.

Lemma parse_tsv_file_columns_witness :
  let read :=
    Frame 8 [ [Value (py "1"); Value (py "7"); Value (py "2025-05-01");
               Value (py "2025-05-15"); Value (py "lib"); Value (py "410");
               Value (py "数学入門 / Alice"); NaN] ] in
  Forall (fun row => length row = 7) (parse_tsv_file read)
  ∧ parse_tsv_file read ≠ [].
Proof.
  intros read.
  destruct (parse_tsv_file_columns read) as (Hseven & Hsome & _).
  - repeat constructor.
  - split; [exact Hseven |]. apply Hsome.
    exists 8, [ [Value (py "1"); Value (py "7"); Value (py "2025-05-01");
                 Value (py "2025-05-15"); Value (py "lib"); Value (py "410");
                 Value (py "数学入門 / Alice"); NaN] ].
    split_and!; [reflexivity | discriminate |].
    right. split; [reflexivity |]. repeat constructor.
Defined.

Example parse_tsv_file_refuses :
  parse_tsv_file (Frame 8 [ [NaN; NaN; NaN; NaN; NaN; NaN; NaN; Value (py "x")] ])
  = []
  ∧ parse_tsv_file (Frame 6 [ [NaN; NaN; NaN; NaN; NaN; NaN] ]) = []
  ∧ parse_tsv_file (Frame 7 []) = []
  ∧ parse_tsv_file ReadFailed = [].
Proof. split_and!; reflexivity. Qed.
